(** * SitePeek: the extraction engine of [backend/utils/extractor.py] and the
    archive loop of [backend/main.py], embedded in Rocq.

    Python [str] values are modelled as [string]; a character is a code point
    below 256 (Latin-1), which is where every character class used by the
    program is made explicit.  Python [set] values are [gset string]; the
    order in which a set is iterated is a parameter ([SetOrder]).  A [dict]
    keyed by strings is a [gmap string _].  A raised exception is [None] in
    the [option] monad. *)

From Stdlib Require Import Ascii NArith DecimalString.
From stdpp Require Import base option list gmap strings sorting.

#[local] Set Warnings "-register-all".

(** ** Python string primitives *)

Module Str.

Definition code (c : ascii) : N := N_of_ascii c.

Definition between (lo hi : N) (c : ascii) : bool :=
  ((lo <=? code c) && (code c <=? hi))%N.

Definition is_upper (c : ascii) : bool := between 65 90 c.
Definition is_lower (c : ascii) : bool := between 97 122 c.
Definition is_alpha (c : ascii) : bool := is_upper c || is_lower c.
Definition is_digit (c : ascii) : bool := between 48 57 c.

(** [str.isspace] on one character: the ASCII blanks, the separators
    0x1c-0x1f, NEL and NBSP. *)
Definition is_space (c : ascii) : bool :=
  between 9 13 c || between 28 32 c
  || (code c =? 133)%N || (code c =? 160)%N.

(** [str.lower] on one character. *)
Definition lower_char (c : ascii) : ascii :=
  if is_upper c then ascii_of_N (code c + 32)
  else if between 192 222 c && negb (code c =? 215)%N
       then ascii_of_N (code c + 32)
  else c.

Fixpoint lower (s : string) : string :=
  match s with
  | EmptyString => EmptyString
  | String c s' => String (lower_char c) (lower s')
  end.

Fixpoint contains (c : ascii) (s : string) : bool :=
  match s with
  | EmptyString => false
  | String x s' => Ascii.eqb x c || contains c s'
  end.

Fixpoint all (p : ascii → bool) (s : string) : bool :=
  match s with
  | EmptyString => true
  | String x s' => p x && all p s'
  end.

Fixpoint filter (p : ascii → bool) (s : string) : string :=
  match s with
  | EmptyString => EmptyString
  | String x s' => if p x then String x (filter p s') else filter p s'
  end.

Definition take (n : nat) (s : string) : string := String.substring 0 n s.

Fixpoint drop (n : nat) (s : string) : string :=
  match n, s with
  | 0, _ => s
  | S _, EmptyString => EmptyString
  | S n', String _ s' => drop n' s'
  end.

Fixpoint startswith (s pre : string) {struct pre} : bool :=
  match pre with
  | EmptyString => true
  | String a pre' =>
      match s with
      | String b s' => Ascii.eqb a b && startswith s' pre'
      | EmptyString => false
      end
  end.

Definition endswith (s suf : string) : bool :=
  (String.length suf <=? String.length s)
  && String.eqb (drop (String.length s - String.length suf) s) suf.

(** [s.split(sep)] for a one-character separator: never the empty list. *)
Fixpoint split (sep : ascii) (s : string) : list string :=
  match s with
  | EmptyString => [EmptyString]
  | String c s' =>
      if Ascii.eqb c sep then EmptyString :: split sep s'
      else match split sep s' with
           | h :: t => String c h :: t
           | [] => [String c EmptyString]
           end
  end.

(** [sep.join(parts)]. *)
Fixpoint join (sep : string) (parts : list string) : string :=
  match parts with
  | [] => EmptyString
  | [p] => p
  | p :: ps => p +:+ sep +:+ join sep ps
  end.

(** [s.partition(c)] when [c] occurs in [s]: the text before the first
    occurrence and the text after it. *)
Fixpoint cut (p : ascii → bool) (s : string) : string * string :=
  match s with
  | EmptyString => (EmptyString, EmptyString)
  | String c s' =>
      if p c then (EmptyString, s')
      else let '(a, b) := cut p s' in (String c a, b)
  end.

(** The longest prefix without a character of [p], and what follows it
    (delimiter included). *)
Fixpoint span (p : ascii → bool) (s : string) : string * string :=
  match s with
  | EmptyString => (EmptyString, EmptyString)
  | String c s' =>
      if p c then (EmptyString, s)
      else let '(a, b) := span p s' in (String c a, b)
  end.

Fixpoint lstrip (p : ascii → bool) (s : string) : string :=
  match s with
  | EmptyString => EmptyString
  | String c s' => if p c then lstrip p s' else s
  end.

Fixpoint rstrip (p : ascii → bool) (s : string) : string :=
  match s with
  | EmptyString => EmptyString
  | String c s' =>
      match rstrip p s' with
      | EmptyString => if p c then EmptyString else String c EmptyString
      | r => String c r
      end
  end.

(** [s.strip(chars)], with [chars] given as a predicate. *)
Definition strip (p : ascii → bool) (s : string) : string :=
  rstrip p (lstrip p s).

Definition is_empty (s : string) : bool :=
  match s with EmptyString => true | _ => false end.

Definition is_char (c : ascii) : ascii → bool := fun x => Ascii.eqb x c.

Definition first_char (s : string) : option ascii :=
  match s with
  | EmptyString => None
  | String c _ => Some c
  end.

Fixpoint last_char (s : string) : option ascii :=
  match s with
  | EmptyString => None
  | String c EmptyString => Some c
  | String _ s' => last_char s'
  end.

(** Neither the first nor the last character of [s] is one of [p]. *)
Definition trimmed (p : ascii → bool) (s : string) : Prop :=
  (∀ c, first_char s = Some c → p c = false)
  ∧ (∀ c, last_char s = Some c → p c = false).

(** [s.split()]: the maximal runs of non-blank characters. *)
Fixpoint split_ws_go (cur : option string) (s : string) : list string :=
  match s with
  | EmptyString => option_list (String.rev <$> cur)
  | String c s' =>
      if is_space c
      then option_list (String.rev <$> cur) ++ split_ws_go None s'
      else split_ws_go (Some (String c (default EmptyString cur))) s'
  end.

Definition split_ws (s : string) : list string := split_ws_go None s.

End Str.

(** [x or default] on strings. *)
Definition or_else (s default : string) : string :=
  if Str.is_empty s then default else s.

(** ** [urllib.parse] (CPython 3.11): [urlparse], [urlunparse], [urljoin]

    The extractor calls these three library functions; they are written out
    here after the library's code.  Two validations of the host leave the
    code of [urllib.parse] and are parameters: the one of a bracketed host
    goes through the [ipaddress] module, and the one of a host that is not
    ASCII through [unicodedata]. *)

(** [check_bracketed_host hostname] is [_check_bracketed_host(hostname)]:
    [true] when the call returns, [false] when it raises [ValueError].
    [nfkc_clean netloc] is the second half of [_checknetloc(netloc)], the
    one after the [isascii] test: [true] when none of [/?#@:] appears in
    the NFKC form of [netloc] without being in [netloc], [false] for the
    [ValueError]. *)
Class HostCheck := {
  check_bracketed_host : string → bool;
  nfkc_clean : string → bool
}.

Module Url.
Section url.
Context {HC : HostCheck}.

Definition scheme_chars (c : ascii) : bool :=
  Str.is_alpha c || Str.is_digit c
  || Str.contains c "+-.".

Definition uses_relative : list string :=
  [""; "ftp"; "http"; "gopher"; "nntp"; "imap"; "wais"; "file"; "https";
   "shttp"; "mms"; "prospero"; "rtsp"; "rtspu"; "sftp"; "svn"; "svn+ssh";
   "ws"; "wss"].

Definition uses_netloc : list string :=
  [""; "ftp"; "http"; "gopher"; "nntp"; "telnet"; "imap"; "wais"; "file";
   "mms"; "https"; "shttp"; "snews"; "prospero"; "rtsp"; "rtspu"; "rsync";
   "svn"; "svn+ssh"; "sftp"; "nfs"; "git"; "git+ssh"; "ws"; "wss"].

Definition uses_params : list string :=
  [""; "ftp"; "hdl"; "prospero"; "http"; "imap"; "https"; "shttp"; "rtsp";
   "rtspu"; "sip"; "sips"; "mms"; "sftp"; "tel"].

Definition mem (s : string) (l : list string) : bool :=
  existsb (String.eqb s) l.

Record parsed := Parsed {
  scheme : string;
  netloc : string;
  path : string;
  params : string;
  query : string;
  fragment : string
}.

(** [_WHATWG_C0_CONTROL_OR_SPACE]: the code points 0 to 32. *)
Definition c0_or_space (c : ascii) : bool := Str.between 0 32 c.

(** [_UNSAFE_URL_BYTES_TO_REMOVE]: tab, carriage return, newline. *)
Definition unsafe_byte (c : ascii) : bool :=
  Str.is_char "009"%char c || Str.is_char "013"%char c
  || Str.is_char "010"%char c.

Definition remove_unsafe (s : string) : string :=
  Str.filter (fun c => negb (unsafe_byte c)) s.

(** The scheme test of [urlsplit]: a colon at index [i > 0], an ASCII
    letter first, and only scheme characters before the colon. *)
Definition split_scheme (default : string) (url : string) : string * string :=
  if Str.contains ":"%char url then
    let '(pre, rest) := Str.cut (Str.is_char ":"%char) url in
    match pre with
    | String c0 _ =>
        if Str.is_alpha c0 && Str.all scheme_chars pre
        then (Str.lower pre, rest)
        else (default, url)
    | EmptyString => (default, url)
    end
  else (default, url).

Definition netloc_delim (c : ascii) : bool := Str.contains c "/?#".

(** [_splitnetloc(url, 2)] on a [url] that starts with two slashes. *)
Definition splitnetloc (url : string) : string * string :=
  Str.span netloc_delim (Str.drop 2 url).

Definition bad_brackets (netloc : string) : bool :=
  (Str.contains "["%char netloc && negb (Str.contains "]"%char netloc))
  || (Str.contains "]"%char netloc && negb (Str.contains "["%char netloc)).

(** [_check_bracketed_netloc(netloc)]: [true] when it returns. *)
Definition check_bracketed_netloc (netloc : string) : bool :=
  let hostname_and_port := List.last (Str.split "@"%char netloc) "" in
  if Str.contains "["%char hostname_and_port then
    let '(before_bracket, bracketed) :=
      Str.cut (Str.is_char "["%char) hostname_and_port in
    if negb (Str.is_empty before_bracket) then false
    else
      let '(hostname, port) :=
        if Str.contains "]"%char bracketed
        then Str.cut (Str.is_char "]"%char) bracketed
        else (bracketed, "") in
      if negb (Str.is_empty port) && negb (Str.startswith port ":")
      then false
      else check_bracketed_host hostname
  else
    let hostname :=
      if Str.contains ":"%char hostname_and_port
      then fst (Str.cut (Str.is_char ":"%char) hostname_and_port)
      else hostname_and_port in
    check_bracketed_host hostname.

Definition netloc_ok (netloc : string) : bool :=
  if bad_brackets netloc then false
  else if Str.contains "["%char netloc && Str.contains "]"%char netloc
  then check_bracketed_netloc netloc
  else true.

(** [str.isascii] on one character. *)
Definition is_ascii (c : ascii) : bool := Str.between 0 127 c.

(** [_checknetloc(netloc)]: [true] when it returns.  An empty or ASCII
    [netloc] returns at once. *)
Definition checknetloc (netloc : string) : bool :=
  Str.is_empty netloc || Str.all is_ascii netloc || nfkc_clean netloc.

(** [urlsplit(url, scheme)]: scheme, netloc, path, query, fragment. *)
Definition urlsplit (url default : string)
  : option (string * string * string * string * string) :=
  let url := Str.lstrip c0_or_space url in
  let default := Str.strip c0_or_space default in
  let url := remove_unsafe url in
  let default := remove_unsafe default in
  let '(scheme, url) := split_scheme default url in
  nl ← (if Str.startswith url "//"
        then let '(netloc, rest) := splitnetloc url in
             if netloc_ok netloc then Some (netloc, rest) else None
        else Some ("", url));
  let '(netloc, url) := nl in
  let '(url, fragment) :=
    if Str.contains "#"%char url
    then Str.cut (Str.is_char "#"%char) url else (url, "") in
  let '(url, query) :=
    if Str.contains "?"%char url
    then Str.cut (Str.is_char "?"%char) url else (url, "") in
  if checknetloc netloc then Some (scheme, netloc, url, query, fragment)
  else None.

(** [_splitparams]: the first semicolon of the last path segment. *)
Definition splitparams (url : string) : string * string :=
  let segs := Str.split "/"%char url in
  let last_seg := List.last segs "" in
  if Str.contains ";"%char last_seg then
    let '(a, b) := Str.cut (Str.is_char ";"%char) last_seg in
    (Str.join "/" (removelast segs ++ [a]), b)
  else (url, "").

Definition urlparse (url default : string) : option parsed :=
  '(scheme, netloc, url, query, fragment) ← urlsplit url default;
  let '(url, params) :=
    if mem scheme uses_params && Str.contains ";"%char url
    then splitparams url else (url, "") in
  Some (Parsed scheme netloc url params query fragment).

Definition urlunsplit (scheme netloc url query fragment : string) : string :=
  let url :=
    if negb (Str.is_empty netloc)
       || (negb (Str.is_empty scheme) && mem scheme uses_netloc
           && negb (Str.startswith url "//"))
    then
      let url := if negb (Str.is_empty url) && negb (Str.startswith url "/")
                 then "/" +:+ url else url in
      "//" +:+ netloc +:+ url
    else url in
  let url := if Str.is_empty scheme then url else scheme +:+ ":" +:+ url in
  let url := if Str.is_empty query then url else url +:+ "?" +:+ query in
  if Str.is_empty fragment then url else url +:+ "#" +:+ fragment.

Definition urlunparse (p : parsed) : string :=
  let url := if Str.is_empty (params p) then path p
             else path p +:+ ";" +:+ params p in
  urlunsplit (scheme p) (netloc p) url (query p) (fragment p).

(** [segments[1:-1] = filter(None, segments[1:-1])]. *)
Definition drop_inner_empties (segments : list string) : list string :=
  match segments with
  | [] => []
  | [x] => [x]
  | x :: rest =>
      x :: filter (fun s => negb (Str.is_empty s)) (removelast rest)
        ++ [List.last rest ""]
  end.

(** The loop over [segments] that builds [resolved_path]. *)
Fixpoint resolve_dots (segments resolved : list string) : list string :=
  match segments with
  | [] => resolved
  | seg :: rest =>
      if String.eqb seg ".." then resolve_dots rest (removelast resolved)
      else if String.eqb seg "." then resolve_dots rest resolved
      else resolve_dots rest (resolved ++ [seg])
  end.

Definition urljoin (base url : string) : option string :=
  if Str.is_empty base then Some url
  else if Str.is_empty url then Some base
  else
    b ← urlparse base "";
    u ← urlparse url (scheme b);
    if negb (String.eqb (scheme u) (scheme b))
       || negb (mem (scheme u) uses_relative)
    then Some url
    else if mem (scheme u) uses_netloc && negb (Str.is_empty (netloc u))
    then Some (urlunparse u)
    else
      let netloc := if mem (scheme u) uses_netloc then netloc b else netloc u in
      if Str.is_empty (path u) && Str.is_empty (params u) then
        let query := if Str.is_empty (query u) then query b else query u in
        Some (urlunparse
                (Parsed (scheme u) netloc (path b) (params b) query (fragment u)))
      else
        let base_parts := Str.split "/"%char (path b) in
        let base_parts :=
          if Str.is_empty (List.last base_parts "") then base_parts
          else removelast base_parts in
        let segments :=
          if Str.startswith (path u) "/" then Str.split "/"%char (path u)
          else drop_inner_empties (base_parts ++ Str.split "/"%char (path u)) in
        let resolved := resolve_dots segments [] in
        let resolved :=
          if mem (List.last segments "") ["."; ".."]
          then resolved ++ [""] else resolved in
        Some (urlunparse
                (Parsed (scheme u) netloc
                   (or_else (Str.join "/" resolved) "/")
                   (params u) (query u) (fragment u))).

End url.
End Url.

(** The examples of this file run on a host check that accepts no bracketed
    host (none of their URLs has a bracket) and every host without bracket:
    no character up to 255 has one of [/?#@:] in its NFKC form. *)
Definition no_bracketed_hosts : HostCheck :=
  {| check_bracketed_host := fun _ => false; nfkc_clean := fun _ => true |}.



(** ** The [re] module: a backtracking matcher

    The patterns of the program use literals, character classes, greedy
    repetition, alternation, at most one capture group, [\b], [^] and [$].
    [run] tries the alternatives in the order of Python's engine: the left
    branch of an alternation first, one more iteration of a repetition before
    stopping. *)

Module Re.

Inductive regex :=
  | Eps
  | Chr (c : ascii)
  | Cls (p : ascii → bool)
  | Seq (r1 r2 : regex)
  | Alt (r1 r2 : regex)
  | Star (r : regex)
  | Grp (r : regex)
  | WordB
  | Bol
  | Eol.

Definition Plus (r : regex) : regex := Seq r (Star r).

(** [r{lo,hi}], greedy. *)
Fixpoint Rep (lo hi : nat) (r : regex) : regex :=
  match hi with
  | 0 => Eps
  | S hi' =>
      match lo with
      | 0 => Alt (Seq r (Rep 0 hi' r)) Eps
      | S lo' => Seq r (Rep lo' hi' r)
      end
  end.

Definition Opt (r : regex) : regex := Rep 0 1 r.

(** A literal string. *)
Fixpoint Lit (s : string) : regex :=
  match s with
  | EmptyString => Eps
  | String c s' => Seq (Chr c) (Lit s')
  end.

Fixpoint has_group (r : regex) : bool :=
  match r with
  | Grp _ => true
  | Seq r1 r2 | Alt r1 r2 => has_group r1 || has_group r2
  | Star r => has_group r
  | _ => false
  end.

(** A position of the engine in the subject: the character before it, the
    text from it on, and the text captured by the group so far. *)
Record mstate := MState {
  prev : option ascii;
  rest : string;
  grp : option string
}.

(** [\w] on one character. *)
Definition is_word (c : ascii) : bool :=
  Str.is_alpha c || Str.is_digit c || Str.is_char "_"%char c
  || (Str.code c =? 170)%N || Str.between 178 179 c || (Str.code c =? 181)%N
  || Str.between 185 186 c || Str.between 188 190 c
  || Str.between 192 214 c || Str.between 216 246 c || Str.between 248 255 c.

Definition word_before (st : mstate) : bool :=
  match prev st with Some c => is_word c | None => false end.

Definition word_after (st : mstate) : bool :=
  match rest st with String c _ => is_word c | EmptyString => false end.

Definition at_boundary (st : mstate) : bool :=
  negb (Bool.eqb (word_before st) (word_after st)).

(** [$]: the end of the subject, or just before a final newline. *)
Definition at_end (st : mstate) : bool :=
  match rest st with
  | EmptyString => true
  | String c EmptyString => Str.is_char "010"%char c
  | _ => false
  end.

(** A literal against a subject character; under [re.IGNORECASE] the two are
    compared after lowering.  The classes of the patterns compiled with that
    flag contain no letter, so [Cls] does not depend on it. *)
Definition chr_eq (icase : bool) (c x : ascii) : bool :=
  if icase then Ascii.eqb (Str.lower_char c) (Str.lower_char x)
  else Ascii.eqb c x.

Definition advance (x : ascii) (s : string) (st : mstate) : mstate :=
  MState (Some x) s (grp st).

(** The text between two positions of one subject. *)
Definition consumed (st st' : mstate) : string :=
  Str.take (String.length (rest st) - String.length (rest st')) (rest st).

Definition capture (st st' : mstate) : mstate :=
  MState (prev st') (rest st') (Some (consumed st st')).

(** Greedy repetition of [step]: one more iteration that consumes something,
    then the continuation. *)
Fixpoint star_loop (step : mstate → (mstate → option mstate) → option mstate)
    (k : mstate → option mstate) (fuel : nat) (st : mstate) : option mstate :=
  match fuel with
  | 0 => k st
  | S n =>
      match step st (fun st' =>
                if String.length (rest st') <? String.length (rest st)
                then star_loop step k n st' else None) with
      | Some x => Some x
      | None => k st
      end
  end.

Fixpoint run (icase : bool) (r : regex) (st : mstate)
    (k : mstate → option mstate) {struct r} : option mstate :=
  match r with
  | Eps => k st
  | Chr c =>
      match rest st with
      | String x s' => if chr_eq icase c x then k (advance x s' st) else None
      | EmptyString => None
      end
  | Cls p =>
      match rest st with
      | String x s' => if p x then k (advance x s' st) else None
      | EmptyString => None
      end
  | Seq r1 r2 => run icase r1 st (fun st1 => run icase r2 st1 k)
  | Alt r1 r2 =>
      match run icase r1 st k with
      | Some x => Some x
      | None => run icase r2 st k
      end
  | Star r' => star_loop (run icase r') k (S (String.length (rest st))) st
  | Grp r' => run icase r' st (fun st' => k (capture st st'))
  | WordB => if at_boundary st then k st else None
  | Bol => match prev st with None => k st | Some _ => None end
  | Eol => if at_end st then k st else None
  end.

(** One attempt at a position: the state at the end of the match. *)
Definition match_at (icase : bool) (r : regex) (prev : option ascii)
    (s : string) : option mstate :=
  run icase r (MState prev s None) Some.

(** What [findall] reports for one match: the group when the pattern has
    one, the whole match otherwise. *)
Definition item (r : regex) (s : string) (st' : mstate) : string :=
  if has_group r then default "" (grp st')
  else Str.take (String.length s - String.length (rest st')) s.

(** The scan of [re.findall]: leftmost matches, each search resuming where the
    previous match ended ([skip] characters further).  After an empty match
    the scan moves one character on; no pattern of the program matches the
    empty string ([findall_patterns_consume] below). *)
Fixpoint scan (icase : bool) (r : regex) (skip : nat) (prev : option ascii)
    (s : string) : list string :=
  match skip with
  | S n =>
      match s with
      | String c s' => scan icase r n (Some c) s'
      | EmptyString => []
      end
  | 0 =>
      match match_at icase r prev s with
      | Some st' =>
          item r s st' ::
            match s with
            | String c s' =>
                scan icase r
                  (Nat.pred (String.length s - String.length (rest st')))
                  (Some c) s'
            | EmptyString => []
            end
      | None =>
          match s with
          | String c s' => scan icase r 0 (Some c) s'
          | EmptyString => []
          end
      end
  end.

(** [re.findall(r, s)], and with [re.IGNORECASE]. *)
Definition findall (r : regex) (s : string) : list string :=
  scan false r 0 None s.

Definition findall_i (r : regex) (s : string) : list string :=
  scan true r 0 None s.

(** [re.match(r, s)] as a truth value. *)
Definition matches (r : regex) (s : string) : bool :=
  match match_at false r None s with Some _ => true | None => false end.

(** *** What a match is

    [denotes icase r st st'] : from position [st], the pattern [r] can end at
    position [st'].  [run] only ever answers with such an end position. *)
Inductive denotes (icase : bool) : regex → mstate → mstate → Prop :=
  | denotes_eps st : denotes icase Eps st st
  | denotes_chr c x s st :
      rest st = String x s → chr_eq icase c x = true →
      denotes icase (Chr c) st (advance x s st)
  | denotes_cls p x s st :
      rest st = String x s → p x = true →
      denotes icase (Cls p) st (advance x s st)
  | denotes_seq r1 r2 st st1 st2 :
      denotes icase r1 st st1 → denotes icase r2 st1 st2 →
      denotes icase (Seq r1 r2) st st2
  | denotes_alt_l r1 r2 st st' :
      denotes icase r1 st st' → denotes icase (Alt r1 r2) st st'
  | denotes_alt_r r1 r2 st st' :
      denotes icase r2 st st' → denotes icase (Alt r1 r2) st st'
  | denotes_star_stop r st : denotes icase (Star r) st st
  | denotes_star_more r st st1 st2 :
      denotes icase r st st1 → denotes icase (Star r) st1 st2 →
      denotes icase (Star r) st st2
  | denotes_grp r st st' :
      denotes icase r st st' → denotes icase (Grp r) st (capture st st')
  | denotes_wordb st : at_boundary st = true → denotes icase WordB st st
  | denotes_bol st : prev st = None → denotes icase Bol st st
  | denotes_eol st : at_end st = true → denotes icase Eol st st.

(** The texts a pattern can consume, whatever surrounds them. *)
Fixpoint lang (icase : bool) (r : regex) (w : string) : Prop :=
  match r with
  | Eps | WordB | Bol | Eol => w = ""
  | Chr c => ∃ x, w = String x "" ∧ chr_eq icase c x = true
  | Cls p => ∃ x, w = String x "" ∧ p x = true
  | Seq r1 r2 => ∃ w1 w2, w = w1 +:+ w2 ∧ lang icase r1 w1 ∧ lang icase r2 w2
  | Alt r1 r2 => lang icase r1 w ∨ lang icase r2 w
  | Star r' => ∃ ws, w = fold_right String.append "" ws ∧ Forall (lang icase r') ws
  | Grp r' => lang icase r' w
  end.

(** The texts the capture group of a pattern can hold. *)
Fixpoint group_lang (icase : bool) (r : regex) (g : string) : Prop :=
  match r with
  | Grp r' => lang icase r' g
  | Seq r1 r2 | Alt r1 r2 => group_lang icase r1 g ∨ group_lang icase r2 g
  | Star r' => group_lang icase r' g
  | _ => False
  end.

(** The group takes part in every match of the pattern. *)
Fixpoint sets_group (r : regex) : bool :=
  match r with
  | Grp _ => true
  | Seq r1 r2 => sets_group r1 || sets_group r2
  | Alt r1 r2 => sets_group r1 && sets_group r2
  | _ => false
  end.

(** A pattern that is a sequence with its group somewhere along it: what
    stands before the group, the group's pattern, what stands after it. *)
Fixpoint around_group (r : regex) : option (regex * regex * regex) :=
  match r with
  | Grp g => if has_group g then None else Some (Eps, g, Eps)
  | Seq r1 r2 =>
      if has_group r1 then
        if has_group r2 then None
        else match around_group r1 with
             | Some (a, g, b) => Some (a, g, Seq b r2)
             | None => None
             end
      else match around_group r2 with
           | Some (a, g, b) => Some (Seq r1 a, g, b)
           | None => None
           end
  | _ => None
  end.

(** [x] occurs in [s]. *)
Definition occurs_in (x s : string) : Prop :=
  ∃ before after, s = before +:+ x +:+ after.

End Re.

(** ** The patterns of [extractor.py]

    Each pattern is quoted above its definition, with the double quote
    written [\x22]. *)

Module Pat.
Import Re.

Fixpoint seqs (rs : list regex) : regex :=
  match rs with
  | [] => Eps
  | [r] => r
  | r :: rs' => Seq r (seqs rs')
  end.

(** The double and the single quote. *)
Definition dquote : ascii := "034"%char.
Definition squote : ascii := "039"%char.
Definition quote (c : ascii) : bool := Str.is_char dquote c || Str.is_char squote c.

Definition none_of (chars : string) (c : ascii) : bool :=
  negb (Str.contains c chars).

(** [[A-Fa-f0-9]] *)
Definition hexdigit (c : ascii) : bool :=
  Str.between 65 70 c || Str.between 97 102 c || Str.is_digit c.

(** [\s*], [\s+], [\d+] *)
Definition ws : regex := Star (Cls Str.is_space).
Definition ws1 : regex := Plus (Cls Str.is_space).
Definition digits : regex := Plus (Cls Str.is_digit).

(** [@import\s+[\x22\']([^\x22\']+)[\x22\']] *)
Definition import_re : regex :=
  seqs [Lit "@import"; ws1; Cls quote;
        Grp (Plus (Cls (fun c => negb (quote c)))); Cls quote].

(** [[^\s,]]: neither blank nor comma. *)
Definition srcset_char (c : ascii) : bool :=
  negb (Str.is_space c) && negb (Str.is_char ","%char c).

(** [(https?://[^\s,]+)] *)
Definition srcset_abs_re : regex :=
  Grp (seqs [Lit "http"; Opt (Chr "s"); Lit "://"; Plus (Cls srcset_char)]).

(** [([^\s,]+)] *)
Definition srcset_tok_re : regex := Grp (Plus (Cls srcset_char)).

(** [[^\x22\')]] *)
Definition bg_char (c : ascii) : bool :=
  negb (quote c) && negb (Str.is_char ")"%char c).

(** [url\([\x22\']?([^\x22\')]+)[\x22\']?\)] *)
Definition bg_url_re : regex :=
  seqs [Lit "url("; Opt (Cls quote); Grp (Plus (Cls bg_char));
        Opt (Cls quote); Chr ")"].

(** [#([A-Fa-f0-9]{6}|[A-Fa-f0-9]{3})\b] *)
Definition hex_pattern : regex :=
  seqs [Chr "#"; Grp (Alt (Rep 6 6 (Cls hexdigit)) (Rep 3 3 (Cls hexdigit)));
        WordB].

(** [rgb\s*\(\s*\d+\s*,\s*\d+\s*,\s*\d+\s*\)] *)
Definition rgb_pattern : regex :=
  seqs [Lit "rgb"; ws; Chr "("; ws; digits; ws; Chr ","; ws; digits; ws;
        Chr ","; ws; digits; ws; Chr ")"].

(** [[\d.]] *)
Definition digit_or_dot (c : ascii) : bool :=
  Str.is_digit c || Str.is_char "."%char c.

(** [rgba\s*\(\s*\d+\s*,\s*\d+\s*,\s*\d+\s*,\s*[\d.]+\s*\)] *)
Definition rgba_pattern : regex :=
  seqs [Lit "rgba"; ws; Chr "("; ws; digits; ws; Chr ","; ws; digits; ws;
        Chr ","; ws; digits; ws; Chr ","; ws; Plus (Cls digit_or_dot); ws;
        Chr ")"].

(** [hsl\s*\(\s*\d+\s*,\s*\d+%\s*,\s*\d+%\s*\)] *)
Definition hsl_pattern : regex :=
  seqs [Lit "hsl"; ws; Chr "("; ws; digits; ws; Chr ","; ws; digits;
        Chr "%"; ws; Chr ","; ws; digits; Chr "%"; ws; Chr ")"].

(** [^[A-Fa-f0-9]{3,6}$] *)
Definition bare_hex_re : regex :=
  seqs [Bol; Rep 3 6 (Cls hexdigit); Eol].

(** [font-family\s*:\s*], the beginning of the three font patterns. *)
Definition font_family_head : regex :=
  seqs [Lit "font-family"; ws; Chr ":"; ws].

(** [font-family\s*:\s*([^;]+)] *)
Definition font_family_inline_re : regex :=
  Seq font_family_head (Grp (Plus (Cls (none_of ";")))).

(** [font-family\s*:\s*([^;}]+)] *)
Definition font_family_block_re : regex :=
  Seq font_family_head (Grp (Plus (Cls (none_of ";}")))).

(** [[^\x22\';}]] *)
Definition font_name_char (c : ascii) : bool :=
  negb (quote c) && none_of ";}" c.

(** [@font-face\s*\{[^}]*font-family\s*:\s*[\x22\']?], what stands before
    the group of the next pattern. *)
Definition font_face_head : regex :=
  seqs [Lit "@font-face"; ws; Chr "{"; Star (Cls (none_of "}"));
        font_family_head; Opt (Cls quote)].

(** [@font-face\s*\{[^}]*font-family\s*:\s*[\x22\']?([^\x22\';}]+)]; the
    pattern has no dot, so [re.DOTALL] changes nothing. *)
Definition font_face_re : regex :=
  Seq font_face_head (Grp (Plus (Cls font_name_char))).

End Pat.

(** The patterns given to [findall], each with its [re.IGNORECASE] flag. *)
Definition findall_patterns : list (bool * Re.regex) :=
  [(false, Pat.import_re); (false, Pat.srcset_abs_re);
   (false, Pat.srcset_tok_re); (false, Pat.bg_url_re);
   (false, Pat.hex_pattern); (true, Pat.rgb_pattern);
   (true, Pat.rgba_pattern); (true, Pat.hsl_pattern);
   (true, Pat.font_family_inline_re); (true, Pat.font_family_block_re);
   (true, Pat.font_face_re)].

(** The digits captured by the hex pattern: three or six of them. *)
Definition hex_digits (h : string) : Prop :=
  Str.all Pat.hexdigit h = true
  ∧ (String.length h = 3 ∨ String.length h = 6).

(** The three functional notations of the program. *)
Definition functional_patterns : list Re.regex :=
  [Pat.rgb_pattern; Pat.rgba_pattern; Pat.hsl_pattern].

(** What one inline style and one style block add to [colors]. *)
Definition inline_color (style x : string) : Prop :=
  x ∈ Re.findall Pat.hex_pattern style
  ∨ ∃ p, p ∈ functional_patterns ∧ x ∈ Re.findall_i p style.

Definition block_color (content x : string) : Prop :=
  (∃ h, h ∈ Re.findall Pat.hex_pattern content ∧ x = "#" +:+ h)
  ∨ ∃ p, p ∈ functional_patterns ∧ x ∈ Re.findall_i p content.

(** ** The path tree of [build_file_structure]

    [structure] is a dict whose values are URL strings (files) or dicts
    (directories). *)

Inductive node :=
  | Leaf (url : string)
  | Dir (children : gmap string node).

(** [u] is the value of some file entry of the tree, at any depth. *)
Inductive leaf_in : gmap string node → string → Prop :=
  | leaf_here m k u : m !! k = Some (Leaf u) → leaf_in m u
  | leaf_below m k d u : m !! k = Some (Dir d) → leaf_in d u → leaf_in m u.

(** The loop over [enumerate(parts)], started at the dict [current]; the
    result is [current] after the in-place updates. *)
Fixpoint insert_parts (parts : list string) (url : string)
    (current : gmap string node) : gmap string node :=
  match parts with
  | [] => current
  | [part] => <[part := Leaf url]> current
  | part :: rest =>
      match current !! part with
      | None => <[part := Dir (insert_parts rest url ∅)]> current
      | Some (Dir d) => <[part := Dir (insert_parts rest url d)]> current
      | Some (Leaf _) => insert_parts rest url current
      end
  end.

Section path_tree.
Context {HC : HostCheck}.

(** [urlparse(url).path.strip('/')], [None] when [urlparse] raises. *)
Definition stripped_path (url : string) : option string :=
  parsed ← Url.urlparse url "";
  Some (Str.strip (Str.is_char "/"%char) (Url.path parsed)).

(** One iteration of the loop over [file_urls]. *)
Definition add_url (structure : gmap string node) (url : string)
  : gmap string node :=
  match stripped_path url with
  | None => structure
  | Some path =>
      if Str.is_empty path then structure
      else insert_parts (Str.split "/"%char path) url structure
  end.

Definition build_file_structure (file_urls : list string)
  : gmap string node :=
  fold_left add_url file_urls ∅.

End path_tree.


(** ** The parsed document

    [BeautifulSoup(html, 'html.parser')] is seen through [find_all] only: the
    document is the list of its tags in document order, each with its name,
    its attributes (names in lower case, a missing value read as the empty
    string) and its [.string]. *)

Record element := Element {
  el_name : string;
  el_attrs : gmap string string;
  el_string : option string
}.

(** [tag.get(name)] *)
Definition get (e : element) (name : string) : option string :=
  el_attrs e !! name.

(** [tag.get(name, '')] *)
Definition get_or_empty (e : element) (name : string) : string :=
  default "" (get e name).

Definition has_attr (name : string) (e : element) : bool :=
  bool_decide (is_Some (get e name)).

Definition named (names : list string) (e : element) : bool :=
  existsb (String.eqb (el_name e)) names.

(** [rel] is a multi-valued attribute: the parser stores it as the list of
    its blank-separated values, and a search value matches one of them or
    the values joined with single spaces. *)
Definition rel_matches (wanted : string) (e : element) : bool :=
  match get e "rel" with
  | None => false
  | Some v =>
      let values := Str.split_ws v in
      existsb (String.eqb wanted) values
      || String.eqb (Str.join " " values) wanted
  end.

(** [soup.find_all(name, attr=True)], [soup.find_all([..], attr=True)],
    [soup.find_all(attr=True)], [soup.find_all(name)] and
    [soup.find_all('link', rel='stylesheet')]. *)
Definition find_all_with (names : list string) (attr : string)
    (doc : list element) : list element :=
  filter (fun e => named names e && has_attr attr e) doc.

Definition find_all_attr (attr : string) (doc : list element) : list element :=
  filter (has_attr attr) doc.

Definition find_all_named (name : string) (doc : list element) : list element :=
  filter (named [name]) doc.

Definition find_all_rel (name wanted : string) (doc : list element)
    : list element :=
  filter (fun e => named [name] e && rel_matches wanted e) doc.

(** The values of [attr] that pass [if value:], in document order. *)
Definition truthy_attrs (attr : string) (els : list element) : list string :=
  filter (fun v => negb (Str.is_empty v)) (omap (fun e => get e attr) els).

(** [style.string or ''] *)
Definition style_content (e : element) : string := default "" (el_string e).

(** ** [WebsiteExtractor] *)

(** The order in which Python lists the elements of a set. *)
Class SetOrder := {
  set_to_list : gset string → list string;
  set_to_list_NoDup : ∀ X, NoDup (set_to_list X);
  set_to_list_elem : ∀ X x, x ∈ set_to_list X ↔ x ∈ X
}.

(** [sorted(l)] on strings. *)
Definition sorted (l : list string) : list string := merge_sort String.le l.

Record extractor := Extractor {
  url : string;
  timeout : nat;
  soup : option (list element);
  html_content : option string;
  base_url : string
}.

Definition image_extensions : list string :=
  [".jpg"; ".jpeg"; ".png"; ".gif"; ".svg"; ".webp"; ".ico"; ".bmp"].

Definition other_extensions : list string :=
  [".pdf"; ".doc"; ".docx"; ".xls"; ".xlsx"; ".zip";
   ".woff"; ".woff2"; ".ttf"; ".eot"; ".otf";
   ".mp4"; ".webm"; ".mp3"; ".wav"; ".ogg"].

Definition font_extensions : list string :=
  [".woff"; ".woff2"; ".ttf"; ".eot"; ".otf"].

(** [any(s.lower().endswith(ext) for ext in exts)] *)
Definition has_extension (exts : list string) (s : string) : bool :=
  existsb (Str.endswith (Str.lower s)) exts.

Section extractor.
Context {HC : HostCheck} {SO : SetOrder}.

(** [_get_base_url] and [__init__]; [None] when [urlparse] raises. *)
Definition get_base_url (url : string) : option string :=
  parsed ← Url.urlparse url "";
  Some (Url.scheme parsed +:+ "://" +:+ Url.netloc parsed).

Definition init (url : string) : option extractor :=
  base ← get_base_url url;
  Some (Extractor url 30 None None base).

(** [urljoin(self.url, ref)] for every [ref] of a list, in order; [None] as
    soon as one call raises. *)
Definition join_all (self : extractor) (refs : list string)
    : option (list string) :=
  mapM (Url.urljoin (url self)) refs.

(** [list(set(l))] *)
Definition dedup (l : list string) : list string :=
  set_to_list (list_to_set l).

(** *** [extract_css_files] *)

Definition css_link_refs (doc : list element) : list string :=
  truthy_attrs "href" (find_all_rel "link" "stylesheet" doc).

Definition css_import_refs (doc : list element) : list string :=
  find_all_named "style" doc
    ≫= (fun style => Re.findall Pat.import_re (style_content style)).

Definition extract_css_files (self : extractor) : option (list string) :=
  match soup self with
  | None => Some []
  | Some doc =>
      links ← join_all self (css_link_refs doc);
      imports ← join_all self (css_import_refs doc);
      Some (dedup (links ++ imports))
  end.

(** *** [extract_js_files] *)

Definition extract_js_files (self : extractor) : option (list string) :=
  match soup self with
  | None => Some []
  | Some doc =>
      js_files ← join_all self (truthy_attrs "src" (find_all_with ["script"] "src" doc));
      Some (dedup js_files)
  end.

(** *** [extract_images] *)

(** The first loop: [src] of the [img] tags. *)
Definition img_src_refs (doc : list element) : list string :=
  truthy_attrs "src" (find_all_with ["img"] "src" doc).

(** The second loop: what is appended for the [srcset] of the [img] tags. *)
Definition img_srcset_urls (doc : list element) : list string :=
  find_all_with ["img"] "srcset" doc
    ≫= (fun img => Re.findall Pat.srcset_abs_re (get_or_empty img "srcset")).

(** [url.split()[0]]; [None] for the [IndexError] of an empty split. *)
Definition first_word (s : string) : option string := head (Str.split_ws s).

(** The third loop, for one [source] tag: every token is resolved, and the
    resolved URLs with an image extension are appended. *)
Definition source_srcset_urls_of (self : extractor) (source : element)
    : option (list string) :=
  resolved ← mapM (fun tok => first_word tok ≫= Url.urljoin (url self))
                (Re.findall Pat.srcset_tok_re (get_or_empty source "srcset"));
  Some (filter (has_extension image_extensions) resolved).

Definition source_srcset_urls (self : extractor) (doc : list element)
    : option (list string) :=
  per_tag ← mapM (source_srcset_urls_of self)
              (find_all_with ["source"] "srcset" doc);
  Some (concat per_tag).

(** The fourth loop: [url(...)] in inline styles. *)
Definition background_urls (self : extractor) (doc : list element)
    : option (list string) :=
  resolved ← join_all self
    (find_all_attr "style" doc
       ≫= (fun e => Re.findall Pat.bg_url_re (get_or_empty e "style")));
  Some (filter (has_extension image_extensions) resolved).

Definition extract_images (self : extractor) : option (list string) :=
  match soup self with
  | None => Some []
  | Some doc =>
      srcs ← join_all self (img_src_refs doc);
      let srcsets := img_srcset_urls doc in
      sources ← source_srcset_urls self doc;
      backgrounds ← background_urls self doc;
      Some (dedup (srcs ++ srcsets ++ sources ++ backgrounds))
  end.

(** *** [extract_other_files] *)

Definition other_anchor_refs (doc : list element) : list string :=
  filter (has_extension other_extensions)
    (truthy_attrs "href" (find_all_with ["a"] "href" doc)).

Definition other_font_refs (doc : list element) : list string :=
  filter (has_extension font_extensions)
    (truthy_attrs "href" (find_all_with ["link"] "href" doc)).

Definition other_video_refs (doc : list element) : list string :=
  truthy_attrs "src" (find_all_with ["video"; "source"] "src" doc).

Definition other_audio_refs (doc : list element) : list string :=
  truthy_attrs "src" (find_all_with ["audio"; "source"] "src" doc).

Definition extract_other_files (self : extractor) : option (list string) :=
  match soup self with
  | None => Some []
  | Some doc =>
      anchors ← join_all self (other_anchor_refs doc);
      fonts ← join_all self (other_font_refs doc);
      videos ← join_all self (other_video_refs doc);
      audios ← join_all self (other_audio_refs doc);
      Some (dedup (anchors ++ fonts ++ videos ++ audios))
  end.

(** *** [extract_colors] *)

(** [colors.update(l)] *)
Definition update (colors : gset string) (l : list string) : gset string :=
  colors ∪ list_to_set l.

(** The body of the loop over the tags with a [style] attribute. *)
Definition add_inline_colors (colors : gset string) (style : string)
    : gset string :=
  let colors := update colors (Re.findall Pat.hex_pattern style) in
  let colors := update colors (Re.findall_i Pat.rgb_pattern style) in
  let colors := update colors (Re.findall_i Pat.rgba_pattern style) in
  update colors (Re.findall_i Pat.hsl_pattern style).

(** The body of the loop over the [style] tags. *)
Definition add_block_colors (colors : gset string) (style_content : string)
    : gset string :=
  let hex_colors := Re.findall Pat.hex_pattern style_content in
  let colors := update colors (map (String.append "#") hex_colors) in
  let colors := update colors (Re.findall_i Pat.rgb_pattern style_content) in
  let colors := update colors (Re.findall_i Pat.rgba_pattern style_content) in
  update colors (Re.findall_i Pat.hsl_pattern style_content).

Definition inline_styles (doc : list element) : list string :=
  map (fun e => get_or_empty e "style") (find_all_attr "style" doc).

Definition style_blocks (doc : list element) : list string :=
  map style_content (find_all_named "style" doc).

(** The set [colors] after both loops. *)
Definition raw_colors (doc : list element) : gset string :=
  fold_left add_block_colors (style_blocks doc)
    (fold_left add_inline_colors (inline_styles doc) ∅).

(** The body of the clean-up loop. *)
Definition clean_color (color : string) : string :=
  if Str.startswith color "#" then color
  else if Re.matches Pat.bare_hex_re color then "#" +:+ color
  else color.

Definition extract_colors (self : extractor) : list string :=
  match soup self with
  | None => []
  | Some doc => sorted (dedup (map clean_color (set_to_list (raw_colors doc))))
  end.

(** *** [extract_fonts] *)

(** [font.strip()] followed by a [strip] of the two quote characters. *)
Definition clean_family (font : string) : string :=
  Str.strip Pat.quote (Str.strip Str.is_space font).

(** The loop over [family.split(',')]. *)
Definition add_family (fonts : gset string) (family : string) : gset string :=
  fold_left (fun fonts font =>
               let cleaned_font := clean_family font in
               if Str.is_empty cleaned_font then fonts
               else fonts ∪ {[ cleaned_font ]})
    (Str.split ","%char family) fonts.

Definition add_inline_fonts (fonts : gset string) (style : string)
    : gset string :=
  fold_left add_family (Re.findall_i Pat.font_family_inline_re style) fonts.

Definition add_block_fonts (fonts : gset string) (style_content : string)
    : gset string :=
  fold_left add_family (Re.findall_i Pat.font_family_block_re style_content) fonts.

Definition add_font_faces (fonts : gset string) (style_content : string)
    : gset string :=
  fold_left (fun fonts font =>
               let cleaned_font := Str.strip Str.is_space font in
               if Str.is_empty cleaned_font then fonts
               else fonts ∪ {[ cleaned_font ]})
    (Re.findall_i Pat.font_face_re style_content) fonts.

(** The set [fonts] after the three loops. *)
Definition raw_fonts (doc : list element) : gset string :=
  fold_left add_font_faces (style_blocks doc)
    (fold_left add_block_fonts (style_blocks doc)
       (fold_left add_inline_fonts (inline_styles doc) ∅)).

Definition extract_fonts (self : extractor) : list string :=
  match soup self with
  | None => []
  | Some doc => sorted (set_to_list (raw_fonts doc))
  end.

End extractor.


(** The document of the specification's colour example: an inline style and
    a style block. *)
Definition colors_example_doc : list element :=
  [Element "div" {[ "style" := "color:#FFF;background:#112233" ]} None;
   Element "style" ∅ (Some ".a{color:rgb(1, 2, 3)}")].

(** What one [font-family] value, and one [@font-face] name, add to
    [fonts]. *)
Definition family_font (family f : string) : Prop :=
  ∃ font, font ∈ Str.split ","%char family ∧ f = clean_family font ∧ f ≠ "".

Definition face_font (name f : string) : Prop :=
  f = Str.strip Str.is_space name ∧ f ≠ "".

(** The font example of the specification, and a style block whose
    [@font-face] rule declares its family after another property. *)
Definition fonts_example_doc : list element :=
  [Element "p" {[ "style" := "font-family: 'Open Sans', Arial" ]} None].

Definition font_face_example_doc : list element :=
  [Element "style" ∅
     (Some "@font-face { src: url(x.woff); font-family: 'My Font'; }")].

(** A set order for the examples of this file: the one of [elements]. *)
Definition elements_order : SetOrder :=
  {| set_to_list := elements;
     set_to_list_NoDup := NoDup_elements;
     set_to_list_elem := λ X x, elem_of_elements X x |}.

(** ** The network, [fetch_html] and [FileDownloader.download_file] *)

Record response := Response {
  body : string;
  content_type : option string
}.

(** What a call returns, or what it raises. *)
Inductive outcome (E A : Type) :=
  | Returned (a : A)
  | Raised (e : E).
Arguments Returned {E A}.
Arguments Raised {E A}.

(** The exceptions of [requests] that the two callers tell apart: [Timeout],
    and any other [RequestException] with its text. *)
Inductive request_error :=
  | Timeout
  | RequestException (text : string).

(** [http_get] is [requests.get(url, ...)] followed by [raise_for_status()]:
    a response, or the exception raised; the state of the outside world is
    threaded through.  [html_parser] is [BeautifulSoup(text, 'html.parser')]
    as [find_all] sees it, [None] when the constructor raises (as it does
    with [ParserRejectedMarkup]). *)
Class Network (World : Type) := {
  http_get : string → World → outcome request_error response * World;
  html_parser : string → option (list element)
}.

(** What [fetch_html] raises: the [ConnectionError] it builds from an
    exception of [requests], or the exception of the parser, which it does
    not catch. *)
Inductive fetch_error :=
  | ConnectionError (message : string)
  | ParserError.

(** [str(n)] *)
Definition decimal (n : nat) : string :=
  NilZero.string_of_uint (Nat.to_uint n).

Section network.
Context {World : Type} {Net : Network World}.

(** [fetch_html].  The page text is assigned before the parser runs: when
    the parser raises, the object holds the new text and the document it had
    before. *)
Definition fetch_html (self : extractor) (w : World)
    : outcome fetch_error string * extractor * World :=
  match http_get (url self) w with
  | (Returned r, w') =>
      match html_parser (body r) with
      | Some doc =>
          (Returned (body r),
           Extractor (url self) (timeout self) (Some doc) (Some (body r))
             (base_url self),
           w')
      | None =>
          (Raised ParserError,
           Extractor (url self) (timeout self) (soup self) (Some (body r))
             (base_url self),
           w')
      end
  | (Raised Timeout, w') =>
      (Raised (ConnectionError
                 ("Request timeout after " +:+ decimal (timeout self)
                  +:+ " seconds")),
       self, w')
  | (Raised (RequestException e), w') =>
      (Raised (ConnectionError ("Failed to fetch URL: " +:+ e)), self, w')
  end.

(** [FileDownloader().download_file(url)]: content and content type, or the
    text of the [Exception] raised; the timeout of the downloader is 30. *)
Definition download_file (url : string) (w : World)
    : outcome string (string * string) * World :=
  match http_get url w with
  | (Returned r, w') =>
      (Returned (body r, default "application/octet-stream" (content_type r)),
       w')
  | (Raised Timeout, w') =>
      (Raised ("Request timeout after " +:+ decimal 30 +:+ " seconds"), w')
  | (Raised (RequestException e), w') =>
      (Raised ("Failed to download file: " +:+ e), w')
  end.

End network.

(** ** [download_all_files]

    The four loops of the archive differ in their list, their cap, their
    folder and their default file name only. *)

Inductive category := Css | Js | Images | Others.

Definition cap (c : category) : nat :=
  match c with Css => 20 | Js => 20 | Images => 30 | Others => 10 end.

Definition folder (c : category) : string :=
  match c with
  | Css => "css" | Js => "js" | Images => "images" | Others => "others"
  end.

Definition default_name (c : category) : string :=
  match c with
  | Css => "style.css" | Js => "script.js" | Images => "image.jpg"
  | Others => "file"
  end.

(** [url.split('/')[-1].split('?')[0] or default] *)
Definition filename (c : category) (url : string) : string :=
  or_else (hd "" (Str.split "?"%char (List.last (Str.split "/"%char url) "")))
    (default_name c).

Definition entry_name (c : category) (url : string) : string :=
  folder c +:+ "/" +:+ filename c url.

(** One pass of a loop body: the URL asked for, and the content received or
    [None] when the download raised. *)
Record attempt := Attempt {
  at_category : category;
  at_url : string;
  at_content : option string
}.

(** The archive being written: its entries in the order of the [writestr]
    calls, the downloads attempted so far, the lines printed. *)
Record zip_state (World : Type) := ZipState {
  entries : list (string * string);
  attempts : list attempt;
  printed : list string;
  world : World
}.
Arguments ZipState {World}.
Arguments entries {World}.
Arguments attempts {World}.
Arguments printed {World}.
Arguments world {World}.

Section archive.
Context {World : Type} {Net : Network World} {HC : HostCheck} {SO : SetOrder}.

(** The body of one loop: [try: download, writestr; except: print]. *)
Definition add_file (c : category) (z : zip_state World) (url : string)
    : zip_state World :=
  match download_file url (world z) with
  | (Returned (content, _), w) =>
      ZipState (entries z ++ [(entry_name c url, content)])
        (attempts z ++ [Attempt c url (Some content)]) (printed z) w
  | (Raised e, w) =>
      ZipState (entries z) (attempts z ++ [Attempt c url None])
        (printed z ++ ["Failed to download " +:+ url +:+ ": " +:+ e]) w
  end.

(** [for u in urls[:cap]: ...] *)
Definition add_category (c : category) (urls : list string)
    (z : zip_state World) : zip_state World :=
  fold_left (add_file c) (take (cap c) urls) z.

(** The [with zipfile.ZipFile(...)] block. *)
Definition write_archive (html_source : string)
    (css_files js_files images others : list string) (w : World)
    : zip_state World :=
  let z := ZipState [("index.html", html_source)] [] [] w in
  let z := add_category Css css_files z in
  let z := add_category Js js_files z in
  let z := add_category Images images z in
  add_category Others others z.

(** The endpoint: the archive, or [None] for the [HTTPException] with status
    500 that any exception outside the four loops turns into. *)
Definition download_all_files (url : string) (w : World)
    : option (zip_state World) * World :=
  match init url with
  | None => (None, w)
  | Some extractor =>
      match fetch_html extractor w with
      | (Raised _, _, w') => (None, w')
      | (Returned html_source, extractor, w') =>
          match extract_css_files extractor, extract_js_files extractor,
                extract_images extractor, extract_other_files extractor with
          | Some css_files, Some js_files, Some images, Some others =>
              let z := write_archive html_source css_files js_files images
                         others w' in
              (Some z, world z)
          | _, _, _, _ => (None, w')
          end
      end
  end.

End archive.

(** The archive entry an attempt leaves, if any. *)
Definition entry_of (a : attempt) : option (string * string) :=
  content ← at_content a;
  Some (entry_name (at_category a) (at_url a), content).

Definition failed (a : attempt) : bool :=
  match at_content a with None => true | Some _ => false end.

Definition asked (a : attempt) : category * string :=
  (at_category a, at_url a).

(** A network for the examples: every URL that ends in [missing.css]
    fails, every other URL answers with its own text as body; the parser
    finds no tag. *)
Definition example_network : Network unit :=
  {| http_get := fun url w =>
       if Str.endswith url "missing.css"
       then (Raised (RequestException "404 Client Error"), w)
       else (Returned (Response url (Some "text/css")), w);
     html_parser := fun _ => Some [] |}.

(** Twenty-five style sheet URLs; three of the first twenty are missing. *)
Definition example_css_files : list string :=
  (fun n => "https://x.com/css/" +:+ String (ascii_of_nat (97 + n))
              (if bool_decide (n ∈ [2; 7; 11]) then "-missing.css" else ".css"))
    <$> seq 0 25.

(** ** Example pages *)

Definition example_page : string := "https://x.com/dir/page.html".

Definition example_extractor (doc : list element) : extractor :=
  Extractor example_page 30 (Some doc) (Some "") "https://x.com".

(** A style sheet link whose target is a font file. *)
Definition font_link_doc : list element :=
  [Element "link" {[ "rel" := "stylesheet"; "href" := "fonts/a.woff" ]} None].

(** An image with a [srcset] and a [source] with a [srcset]. *)
Definition srcset_doc : list element :=
  [Element "img"
     {[ "src" := "a.png"; "srcset" := "b.png 1x, https://cdn.x/c.PNG?x 2x" ]}
     None;
   Element "source" {[ "srcset" := "d.webp 1x, e.txt 2x, /f.JPG" ]} None].


(** ** More on the path tree *)

(** [k] is a key of the tree, at any depth. *)
Inductive key_in : gmap string node → string → Prop :=
  | key_here m k n : m !! k = Some n → key_in m k
  | key_below m k' d k : m !! k' = Some (Dir d) → key_in d k → key_in m k.

(** [structure[p1][p2]...[pn]], [None] when a key is missing or a file
    stands where a directory is needed. *)
Fixpoint lookup_path (parts : list string) (m : gmap string node)
    : option node :=
  match parts with
  | [] => None
  | [part] => m !! part
  | part :: rest =>
      match m !! part with
      | Some (Dir d) => lookup_path rest d
      | _ => None
      end
  end.

(** No file stands on the way of [parts]: every segment but the last is
    missing or a directory, down the tree. *)
Fixpoint clear_path (parts : list string) (m : gmap string node) : Prop :=
  match parts with
  | [] => True
  | [_] => True
  | part :: rest =>
      match m !! part with
      | None => True
      | Some (Dir d) => clear_path rest d
      | Some (Leaf _) => False
      end
  end.

(** ** The references handed to [urljoin] by the four resource operations *)

Definition css_refs (doc : list element) : list string :=
  css_link_refs doc ++ css_import_refs doc.

Definition js_refs (doc : list element) : list string :=
  truthy_attrs "src" (find_all_with ["script"] "src" doc).

(** The tokens of the [srcset] of the [source] tags. *)
Definition source_srcset_refs (doc : list element) : list string :=
  find_all_with ["source"] "srcset" doc
    ≫= (fun source => Re.findall Pat.srcset_tok_re (get_or_empty source "srcset")).

(** The [url(...)] references of the inline styles. *)
Definition background_refs (doc : list element) : list string :=
  find_all_attr "style" doc
    ≫= (fun e => Re.findall Pat.bg_url_re (get_or_empty e "style")).

Definition image_refs (doc : list element) : list string :=
  img_src_refs doc ++ source_srcset_refs doc ++ background_refs doc.

Definition other_refs (doc : list element) : list string :=
  other_anchor_refs doc ++ other_font_refs doc ++ other_video_refs doc
    ++ other_audio_refs doc.

(** An opening or a closing square bracket occurs in [s]. *)
Definition has_bracket (s : string) : bool :=
  Str.contains "["%char s || Str.contains "]"%char s.

(** [s.isascii()] *)
Definition isascii (s : string) : bool := Str.all Url.is_ascii s.

(** ** The life of an extractor, and [analyze_website] *)

(** The body of a successful answer of [/analyze]. *)
Record analyze_response := AnalyzeResponse {
  r_html_source : string;
  r_css_files : list string;
  r_js_files : list string;
  r_images : list string;
  r_others : list string;
  r_colors : list string;
  r_fonts : list string;
  r_structure : gmap string node;
  r_summary : gmap string nat
}.

(** An answer, or the status of the [HTTPException] raised. *)
Inductive http_result (A : Type) :=
  | Ok (a : A)
  | HttpError (status : nat).
Arguments Ok {A}.
Arguments HttpError {A}.

Section analysis.
Context {World : Type} {Net : Network World} {HC : HostCheck} {SO : SetOrder}.

(** The extractors obtained from [WebsiteExtractor(u)] by any number of
    calls of [fetch_html], failed or not. *)
Inductive reachable (u : string) : extractor → Prop :=
  | reach_init self : init u = Some self → reachable u self
  | reach_fetch self w r self' w' :
      reachable u self → fetch_html self w = (r, self', w') →
      reachable u self'.

(** [analyze_website].  The constructor and the four resource operations
    raise [ValueError] only (status 400: the [IndexError] of [split()[0]]
    cannot occur, see [srcset_tok_first_word]); [fetch_html] raises
    [ConnectionError] (status 503) or lets the exception of the parser
    through, which [except Exception] turns into status 500. *)
Definition analyze_website (url : string) (w : World)
    : http_result analyze_response * World :=
  match init url with
  | None => (HttpError 400, w)
  | Some extractor =>
      match fetch_html extractor w with
      | (Raised (ConnectionError _), _, w') => (HttpError 503, w')
      | (Raised ParserError, _, w') => (HttpError 500, w')
      | (Returned html_source, extractor, w') =>
          match extract_css_files extractor, extract_js_files extractor,
                extract_images extractor, extract_other_files extractor with
          | Some css_files, Some js_files, Some images, Some others =>
              let colors := extract_colors extractor in
              let fonts := extract_fonts extractor in
              let structure :=
                build_file_structure (css_files ++ js_files ++ images ++ others) in
              let summary : gmap string nat :=
                {[ "total_css" := length css_files;
                   "total_js" := length js_files;
                   "total_images" := length images;
                   "total_others" := length others ]} in
              (Ok (AnalyzeResponse html_source css_files js_files images
                     others colors fonts structure summary), w')
          | _, _, _, _ => (HttpError 400, w')
          end
      end
  end.

End analysis.

(** ** [FileDownloader._guess_content_type] *)

(** The dict [extension_map], in the order of its literal, which is the
    order of [items()]. *)
Definition extension_map : list (string * string) :=
  [(".html", "text/html"); (".css", "text/css");
   (".js", "application/javascript"); (".json", "application/json");
   (".xml", "application/xml"); (".jpg", "image/jpeg");
   (".jpeg", "image/jpeg"); (".png", "image/png"); (".gif", "image/gif");
   (".svg", "image/svg+xml"); (".webp", "image/webp");
   (".ico", "image/x-icon"); (".pdf", "application/pdf");
   (".zip", "application/zip"); (".woff", "font/woff");
   (".woff2", "font/woff2"); (".ttf", "font/ttf");
   (".eot", "application/vnd.ms-fontobject"); (".otf", "font/otf");
   (".mp4", "video/mp4"); (".webm", "video/webm"); (".mp3", "audio/mpeg");
   (".wav", "audio/wav"); (".ogg", "audio/ogg")].

(** The loop over [extension_map.items()]: the first extension that ends
    the lowered URL decides. *)
Fixpoint first_match (url_lower : string) (items : list (string * string))
    : option string :=
  match items with
  | [] => None
  | (ext, content_type) :: items' =>
      if Str.endswith url_lower ext then Some content_type
      else first_match url_lower items'
  end.

Definition guess_content_type (url : string) : string :=
  default "application/octet-stream"
    (first_match (Str.lower url) extension_map).

(** Neither of two different extensions of the map ends the other. *)
Definition no_extension_ends_another : bool :=
  forallb (fun '(e1, _) =>
    forallb (fun '(e2, _) => String.eqb e1 e2 || negb (Str.endswith e1 e2))
      extension_map) extension_map.

(** The map has one content type per extension. *)
Definition one_type_per_extension : bool :=
  forallb (fun '(e1, t1) =>
    forallb (fun '(e2, t2) => negb (String.eqb e1 e2) || String.eqb t1 t2)
      extension_map) extension_map.

(** ** References below the page *)

(** A character that [urlsplit] leaves in the path of a reference: none of
    those it removes (tab, newline, carriage return) and none of [?], [#]
    and [;]. *)
Definition path_char (c : ascii) : bool :=
  negb (Url.unsafe_byte c) && negb (Str.contains c "?#;").

Definition dot_segment (seg : string) : bool := Url.mem seg ["."; ".."].

(** A path to put after the slash of a root-relative reference: it does not
    start with a slash itself, and none of its segments is a dot segment. *)
Definition plain_path (p : string) : bool :=
  Str.all path_char p && negb (Str.startswith p "/")
  && forallb (fun seg => negb (dot_segment seg)) (Str.split "/"%char p).

(** A directory name of a page's path. *)
Definition dir_name (s : string) : bool :=
  negb (Str.is_empty s) && negb (Str.contains "/"%char s)
  && negb (dot_segment s).

(** A file name used as a reference: a directory name without colon,
    blank or control character. *)
Definition plain_name (s : string) : bool :=
  dir_name s
  && Str.all (fun c => path_char c && negb (Url.c0_or_space c)
                       && negb (Str.is_char ":"%char c)) s.

(** The path [/d1/d2/.../dn]. *)
Definition under (dirs : list string) : string :=
  foldr (fun d acc => "/" +:+ d +:+ acc) "" dirs.

(** A character of a host written in a reference: ASCII, none of those
    [urlsplit] removes, no delimiter of the host and no square bracket. *)
Definition host_char (c : ascii) : bool :=
  Url.is_ascii c && negb (Url.unsafe_byte c)
  && negb (Str.contains c "/?#[]").

Definition plain_host (host : string) : bool :=
  negb (Str.is_empty host) && Str.all host_char host.

(** The number of [..] among segments. *)
Definition count_up (segments : list string) : nat :=
  length (List.filter (fun seg => String.eqb seg "..") segments).

(** ** More example pages *)

(** A script, a download link and a video. *)
Definition script_doc : list element :=
  [Element "script" {[ "src" := "js/app.js" ]} None;
   Element "a" {[ "href" := "doc/Report.PDF" ]} None;
   Element "video" {[ "src" := "v.mp4" ]} None].

(** A style sheet link whose reference has an unbalanced bracket. *)
Definition bad_ref_doc : list element :=
  [Element "link" {[ "rel" := "stylesheet"; "href" := "//[bad/z.css" ]} None].

(** A site whose every page parses to the tags of [font_link_doc] and
    [srcset_doc]. *)
Definition example_site : Network unit :=
  {| http_get := fun url w =>
       (Returned (Response "<html>" (Some "text/html")), w);
     html_parser := fun _ => Some (font_link_doc ++ srcset_doc) |}.

(** A site that answers the first request with a page and every later one
    with a text the parser rejects; the state of the world is the number of
    requests made. *)
Definition flaky_site : Network nat :=
  {| http_get := fun url n =>
       (Returned (Response (if Nat.eqb n 0 then "<html>" else "<bad>")
                    (Some "text/html")), S n);
     html_parser := fun html =>
       if String.eqb html "<bad>" then None else Some script_doc |}.

(** A site that does not answer. *)
Definition silent_site : Network unit :=
  {| http_get := fun url w => (Raised Timeout, w);
     html_parser := fun _ => Some [] |}.

(** * Properties *)

(** ** Strings *)

Lemma append_cons c s t : String c s +:+ t = String c (s +:+ t).
Proof. reflexivity. Qed.

Lemma append_nil_l s : "" +:+ s = s.
Proof. reflexivity. Qed.

(** Brings the appends of a text with a known beginning to the front. *)
Ltac push_app := repeat (rewrite append_cons || rewrite append_nil_l).

Lemma append_nil_r s : s +:+ "" = s.
Proof. induction s as [|c s IH]; [done|]. by rewrite append_cons, IH. Qed.

Lemma app_assoc_str s t u : (s +:+ t) +:+ u = s +:+ (t +:+ u).
Proof. induction s as [|c s IH]; [done|]. by rewrite !append_cons, IH. Qed.

Lemma length_app_str s t :
  String.length (s +:+ t) = String.length s + String.length t.
Proof. induction s as [|c s IH]; [done|]. rewrite append_cons. simpl. by rewrite IH. Qed.

Lemma take_app_exact w r :
  Str.take (String.length (w +:+ r) - String.length r) (w +:+ r) = w.
Proof.
  rewrite length_app_str.
  replace (String.length w + String.length r - String.length r)
    with (String.length w) by lia.
  unfold Str.take. induction w as [|c w IH].
  - rewrite append_nil_l. by destruct r.
  - rewrite append_cons. simpl. by rewrite IH.
Qed.

Lemma take_drop_str n s : Str.take n s +:+ Str.drop n s = s.
Proof.
  unfold Str.take. revert n. induction s as [|c s IH]; intros [|n]; simpl; try done.
  by rewrite append_cons, IH.
Qed.

Lemma drop_app_exact w r : Str.drop (String.length w) (w +:+ r) = r.
Proof. induction w as [|c w IH]; [by destruct r|]. by rewrite append_cons. Qed.

(** [s.endswith(suf)] says that [s] is some text followed by [suf]. *)
Lemma endswith_spec s suf :
  Str.endswith s suf = true ↔ ∃ before, s = before +:+ suf.
Proof.
  unfold Str.endswith. rewrite andb_true_iff, Nat.leb_le, String.eqb_eq. split.
  - intros [_ Hd]. exists (Str.take (String.length s - String.length suf) s).
    rewrite <- Hd at 2. by rewrite take_drop_str.
  - intros [b ->]. rewrite length_app_str. split; [lia|].
    replace (String.length b + String.length suf - String.length suf)
      with (String.length b) by lia.
    apply drop_app_exact.
Qed.

Lemma has_extension_spec exts s :
  has_extension exts s = true
  ↔ ∃ ext before, ext ∈ exts ∧ Str.lower s = before +:+ ext.
Proof.
  unfold has_extension. rewrite existsb_exists. split.
  - intros (ext & Hin%list_elem_of_In & (b & Hb)%endswith_spec). eauto.
  - intros (ext & b & Hin%list_elem_of_In & Hb). exists ext. split; [done|].
    apply endswith_spec. eauto.
Qed.

Lemma rev_app_app s a b :
  String.rev_app (String.rev_app s a) b = String.rev_app a (s +:+ b).
Proof.
  revert a b. induction s as [|c s IH]; intros a b; simpl; [done|].
  by rewrite IH.
Qed.

Lemma rev_rev_str s : String.rev (String.rev s) = s.
Proof. unfold String.rev. rewrite rev_app_app. simpl. apply append_nil_r. Qed.

(** [s.split()] on a text without blanks is the text itself. *)
Lemma split_ws_go_no_space acc s :
  Str.all (fun c => negb (Str.is_space c)) s = true →
  Str.split_ws_go (Some acc) s = [String.rev (String.rev_app s acc)].
Proof.
  revert acc. induction s as [|c s IH]; intros acc Hall; simpl in *; [done|].
  apply andb_true_iff in Hall as [Hc Hall].
  apply negb_true_iff in Hc. rewrite Hc. by rewrite IH.
Qed.

Lemma split_ws_no_space s :
  s ≠ "" → Str.all (fun c => negb (Str.is_space c)) s = true →
  Str.split_ws s = [s].
Proof.
  destruct s as [|c s]; [done|]. intros _ Hall. unfold Str.split_ws. simpl in *.
  apply andb_true_iff in Hall as [Hc Hall].
  apply negb_true_iff in Hc. rewrite Hc. rewrite split_ws_go_no_space by done.
  f_equal. change (String.rev_app s (String c "")) with (String.rev (String c s)).
  apply rev_rev_str.
Qed.

Lemma all_app_str p s t : Str.all p (s +:+ t) = Str.all p s && Str.all p t.
Proof.
  induction s as [|c s IH]; [done|]. rewrite append_cons. simpl.
  by rewrite IH, andb_assoc.
Qed.

Lemma all_impl_str (p q : ascii → bool) s :
  (∀ c, p c = true → q c = true) → Str.all p s = true → Str.all q s = true.
Proof.
  intros Hpq. induction s as [|c s IH]; simpl; [done|].
  intros [Hc Hs]%andb_true_iff. by rewrite (Hpq c Hc), IH.
Qed.

(** ** The matcher answers with matches only *)

Section matcher_sound.
Import Re.
Variable icase : bool.

Lemma star_loop_sound r k fuel st x :
  (∀ st k x, run icase r st k = Some x →
             ∃ st', denotes icase r st st' ∧ k st' = Some x) →
  star_loop (run icase r) k fuel st = Some x →
  ∃ st', denotes icase (Star r) st st' ∧ k st' = Some x.
Proof.
  intros IHr. revert st. induction fuel as [|n IHn]; intros st Hrun; simpl in Hrun.
  - exists st. split; [constructor | done].
  - match type of Hrun with
    | match ?e with _ => _ end = _ => destruct e as [y|] eqn:Hstep
    end.
    + injection Hrun as ->. apply IHr in Hstep as (st1 & Hd & Hk).
      destruct (String.length (rest st1) <? String.length (rest st)); [|done].
      apply IHn in Hk as (st2 & Hd2 & Hk2).
      exists st2. split; [by eapply denotes_star_more | done].
    + exists st. split; [constructor | done].
Qed.

Lemma run_sound r st k x :
  run icase r st k = Some x →
  ∃ st', denotes icase r st st' ∧ k st' = Some x.
Proof.
  revert st k x. induction r as [|c|p|r1 IH1 r2 IH2|r1 IH1 r2 IH2|r IH|r IH| | |];
    intros st k x Hrun; simpl in Hrun.
  - exists st. split; [constructor | done].
  - destruct (rest st) as [|y s] eqn:Hrest; [done|].
    destruct (chr_eq icase c y) eqn:Hc; [|done].
    exists (advance y s st). split; [by constructor | done].
  - destruct (rest st) as [|y s] eqn:Hrest; [done|].
    destruct (p y) eqn:Hp; [|done].
    exists (advance y s st). split; [by constructor | done].
  - apply IH1 in Hrun as (st1 & Hd1 & Hk). apply IH2 in Hk as (st2 & Hd2 & Hk).
    exists st2. split; [by eapply denotes_seq | done].
  - destruct (run icase r1 st k) as [y|] eqn:H1.
    + injection Hrun as ->. apply IH1 in H1 as (st1 & Hd & Hk).
      exists st1. split; [by apply denotes_alt_l | done].
    + apply IH2 in Hrun as (st1 & Hd & Hk).
      exists st1. split; [by apply denotes_alt_r | done].
  - exact (star_loop_sound r k (S (String.length (rest st))) st x IH Hrun).
  - apply IH in Hrun as (st1 & Hd & Hk).
    exists (capture st st1). split; [by constructor | done].
  - destruct (at_boundary st) eqn:Hb; [|done].
    exists st. split; [by constructor | done].
  - destruct (prev st) eqn:Hp; [done|].
    exists st. split; [by constructor | done].
  - destruct (at_end st) eqn:He; [|done].
    exists st. split; [by constructor | done].
Qed.

Lemma match_at_sound r prev s st' :
  match_at icase r prev s = Some st' →
  denotes icase r (MState prev s None) st'.
Proof.
  unfold match_at. intros Hrun. apply run_sound in Hrun as (st1 & Hd & Hk).
  by injection Hk as <-.
Qed.

(** A match consumes a text of the pattern's language. *)
Lemma denotes_word r st st' :
  denotes icase r st st' → ∃ w, rest st = w +:+ rest st' ∧ lang icase r w.
Proof.
  induction 1 as [st|c x s st Hrest Hc|p x s st Hrest Hp
                 |r1 r2 st st1 st2 _ (w1 & Hw1 & Hl1) _ (w2 & Hw2 & Hl2)
                 |r1 r2 st st' _ (w & Hw & Hl)|r1 r2 st st' _ (w & Hw & Hl)
                 |r st|r st st1 st2 _ (w1 & Hw1 & Hl1) _ (w2 & Hw2 & Hl2)
                 |r st st' _ (w & Hw & Hl)|st Hb|st Hp|st He]; simpl.
  - by exists "".
  - exists (String x ""). rewrite Hrest. eauto.
  - exists (String x ""). rewrite Hrest. eauto.
  - exists (w1 +:+ w2). rewrite app_assoc_str, <- Hw2. eauto 10.
  - eauto.
  - eauto.
  - exists "". split; [done|]. by exists [].
  - destruct Hl2 as (ws & -> & Hws). exists (w1 +:+ fold_right String.append "" ws).
    rewrite app_assoc_str, <- Hw2. split; [done|]. exists (w1 :: ws). split; [done|].
    by constructor.
  - eauto.
  - by exists "".
  - by exists "".
  - by exists "".
Qed.

Lemma consumed_word st st' w :
  rest st = w +:+ rest st' → consumed st st' = w.
Proof. unfold consumed. intros ->. apply take_app_exact. Qed.

(** What a match does to the group: nothing, or a text of the group's
    language that occurs in the subject. *)
Lemma denotes_group r st st' :
  denotes icase r st st' →
  grp st' = grp st
  ∨ ∃ g, grp st' = Some g ∧ group_lang icase r g ∧ occurs_in g (rest st).
Proof.
  induction 1 as [st|c x s st Hrest Hc|p x s st Hrest Hp
                 |r1 r2 st st1 st2 H1 IH1 H2 IH2
                 |r1 r2 st st' _ IH|r1 r2 st st' _ IH
                 |r st|r st st1 st2 H1 IH1 H2 IH2
                 |r st st' Hd _|st Hb|st Hp|st He]; simpl; try by left.
  - apply denotes_word in H1 as (w1 & Hw1 & _).
    destruct IH2 as [->|(g & Hg & Hl & (a & b & Hocc))].
    + destruct IH1 as [->|(g & Hg & Hl & Hocc)]; [by left|]. right. eauto 10.
    + right. exists g. split; [done|]. split; [by right|].
      exists (w1 +:+ a), b. by rewrite Hw1, Hocc, app_assoc_str.
  - destruct IH as [->|(g & Hg & Hl & Hocc)]; [by left|]. right. eauto 10.
  - destruct IH as [->|(g & Hg & Hl & Hocc)]; [by left|]. right. eauto 10.
  - apply denotes_word in H1 as (w1 & Hw1 & _).
    destruct IH2 as [->|(g & Hg & Hl & (a & b & Hocc))].
    + destruct IH1 as [->|(g & Hg & Hl & Hocc)]; [by left|]. right. eauto 10.
    + right. exists g. split; [done|]. split; [done|].
      exists (w1 +:+ a), b. by rewrite Hw1, Hocc, app_assoc_str.
  - right. apply denotes_word in Hd as (w & Hw & Hl).
    exists w. split; [by rewrite (consumed_word _ _ w)|]. split; [done|].
    exists "", (rest st'). by rewrite append_nil_l.
Qed.

Lemma denotes_sets_group r st st' :
  denotes icase r st st' → sets_group r = true →
  ∃ g, grp st' = Some g ∧ group_lang icase r g ∧ occurs_in g (rest st).
Proof.
  induction 1 as [st|c x s st Hrest Hc|p x s st Hrest Hp
                 |r1 r2 st st1 st2 H1 IH1 H2 IH2
                 |r1 r2 st st' _ IH|r1 r2 st st' _ IH
                 |r st|r st st1 st2 H1 IH1 H2 IH2
                 |r st st' Hd _|st Hb|st Hp|st He]; simpl; try done.
  - intros Hsets. pose proof (denotes_word _ _ _ H1) as (w1 & Hw1 & _).
    destruct (denotes_group _ _ _ H2) as [Heq|(g & Hg & Hl & (a & b & Hocc))].
    + destruct (sets_group r1) eqn:Hs1.
      * destruct (IH1 eq_refl) as (g & Hg & Hl & Hocc).
        exists g. rewrite Heq. eauto.
      * destruct (IH2 Hsets) as (g & Hg & Hl & (a & b & Hocc)).
        exists g. split; [done|]. split; [by right|].
        exists (w1 +:+ a), b. by rewrite Hw1, Hocc, app_assoc_str.
    + exists g. split; [done|]. split; [by right|].
      exists (w1 +:+ a), b. by rewrite Hw1, Hocc, app_assoc_str.
  - intros [Hs1 Hs2]%andb_true_iff. destruct (IH Hs1) as (g & Hg & Hl & Hocc). eauto 10.
  - intros [Hs1 Hs2]%andb_true_iff. destruct (IH Hs2) as (g & Hg & Hl & Hocc). eauto 10.
  - intros _. apply denotes_word in Hd as (w & Hw & Hl).
    exists w. split; [by rewrite (consumed_word _ _ w)|]. split; [done|].
    exists "", (rest st'). by rewrite append_nil_l.
Qed.

(** Every element of a scan comes from a match at some position of the
    subject. *)
Lemma scan_sound r x s skip prev :
  x ∈ scan icase r skip prev s →
  ∃ before s' prev' st',
    s = before +:+ s' ∧ match_at icase r prev' s' = Some st'
    ∧ x = item r s' st'.
Proof.
  revert skip prev. induction s as [|c s IH]; intros skip prev Hin.
  - destruct skip as [|n]; simpl in Hin; [|by apply elem_of_nil in Hin].
    destruct (match_at icase r prev "") as [st'|] eqn:Hm;
      [|by apply elem_of_nil in Hin].
    apply list_elem_of_singleton in Hin as ->.
    by exists "", "", prev, st'.
  - assert (∀ n p, x ∈ scan icase r n p s →
             ∃ before s' prev' st',
               String c s = before +:+ s' ∧ match_at icase r prev' s' = Some st'
               ∧ x = item r s' st') as Hrec.
    { intros n p Hx. apply IH in Hx as (b & s' & p' & st' & -> & Hm & Hx).
      by exists (String c b), s', p', st'. }
    destruct skip as [|n]; simpl in Hin; [|by eapply Hrec].
    destruct (match_at icase r prev (String c s)) as [st'|] eqn:Hm;
      [|by eapply Hrec].
    apply elem_of_cons in Hin as [->|Hin]; [|by eapply Hrec].
    by exists "", (String c s), prev, st'.
Qed.

(** [findall] on a pattern without a group: every element is a text of the
    pattern's language that occurs in the subject. *)
Lemma scan_whole_match r x s :
  has_group r = false → x ∈ scan icase r 0 None s →
  lang icase r x ∧ occurs_in x s.
Proof.
  intros Hg Hin. apply scan_sound in Hin as (b & s' & p & st' & -> & Hm & ->).
  apply match_at_sound, denotes_word in Hm as (w & Hw & Hl). simpl in Hw.
  unfold item. rewrite Hg, Hw, take_app_exact. split; [done|].
  by exists b, (rest st').
Qed.

(** [findall] on a pattern whose group takes part in every match: every
    element is a text of the group's language that occurs in the subject. *)
Lemma scan_group_match r x s :
  has_group r = true → sets_group r = true → x ∈ scan icase r 0 None s →
  group_lang icase r x ∧ occurs_in x s.
Proof.
  intros Hg Hs Hin. apply scan_sound in Hin as (b & s' & p & st' & -> & Hm & ->).
  apply match_at_sound in Hm.
  apply denotes_sets_group in Hm as (g & Hgrp & Hl & (a & c & Hocc)); [|done].
  simpl in Hocc. unfold item. rewrite Hg, Hgrp. simpl. split; [done|].
  exists (b +:+ a), c. by rewrite Hocc, app_assoc_str.
Qed.

Lemma denotes_no_group r st st' :
  has_group r = false → denotes icase r st st' → grp st' = grp st.
Proof.
  intros Hg Hd. induction Hd as [st|c x s st Hrest Hc|p x s st Hrest Hp
                 |r1 r2 st st1 st2 H1 IH1 H2 IH2
                 |r1 r2 st st' _ IH|r1 r2 st st' _ IH
                 |r st|r st st1 st2 H1 IH1 H2 IH2
                 |r st st' Hd _|st Hb|st Hp|st He]; simpl in *; try done.
  - apply orb_false_iff in Hg as [Hg1 Hg2]. by rewrite IH2, IH1.
  - apply orb_false_iff in Hg as [Hg1 Hg2]. auto.
  - apply orb_false_iff in Hg as [Hg1 Hg2]. auto.
  - by rewrite IH2, IH1.
Qed.

Lemma around_group_has_group r a g b :
  around_group r = Some (a, g, b) → has_group r = true.
Proof.
  revert a g b. induction r as [|c|p|r1 IH1 r2 IH2|r1 IH1 r2 IH2|r IH|r IH| | |];
    intros a g b Hr; simpl in *; try done.
  destruct (has_group r1); [done|]. simpl.
  destruct (around_group r2) as [[[a' g'] b']|]; [|done]. by eapply IH2.
Qed.

(** With the group along a sequence, a match consumes a text of what stands
    before the group, then the captured text, then a text of what stands
    after it. *)
Lemma around_group_sound r a g b st st' :
  around_group r = Some (a, g, b) → denotes icase r st st' →
  ∃ wa wg wb,
    rest st = wa +:+ wg +:+ wb +:+ rest st'
    ∧ lang icase a wa ∧ lang icase g wg ∧ lang icase b wb
    ∧ grp st' = Some wg.
Proof.
  revert a g b st st'.
  induction r as [|c|p|r1 IH1 r2 IH2|r1 IH1 r2 IH2|r IH|r IH| | |];
    intros a g b st st' Hr Hd; simpl in Hr; try done.
  - inversion Hd as [| | |? ? ? st1 ? Hd1 Hd2| | | | | | | |]; subst.
    destruct (has_group r1) eqn:Hg1.
    + destruct (has_group r2) eqn:Hg2; [done|].
      destruct (around_group r1) as [[[a' g'] b']|] eqn:Hr1; [|done].
      injection Hr as <- <- <-.
      destruct (IH1 _ _ _ _ _ eq_refl Hd1) as (wa & wg & wb & Hw & Ha & Hg & Hb & Hgrp).
      pose proof (denotes_word _ _ _ Hd2) as (w2 & Hw2 & Hl2).
      exists wa, wg, (wb +:+ w2). rewrite Hw, Hw2, !app_assoc_str.
      split; [done|]. split; [done|]. split; [done|]. split; [by exists wb, w2|].
      by rewrite (denotes_no_group _ _ _ Hg2 Hd2).
    + destruct (around_group r2) as [[[a' g'] b']|] eqn:Hr2; [|done].
      injection Hr as <- <- <-.
      destruct (IH2 _ _ _ _ _ eq_refl Hd2) as (wa & wg & wb & Hw & Ha & Hg & Hb & Hgrp).
      pose proof (denotes_word _ _ _ Hd1) as (w1 & Hw1 & Hl1).
      exists (w1 +:+ wa), wg, wb. rewrite Hw1, Hw, !app_assoc_str.
      split; [done|]. split; [by exists w1, wa|]. done.
  - destruct (has_group r) eqn:Hg; [done|]. injection Hr as <- <- <-.
    inversion Hd as [| | | | | | | |? ? st1 Hd1| | |]; subst.
    apply denotes_word in Hd1 as (w & Hw & Hl).
    exists "", w, "". push_app. simpl.
    split; [done|]. split; [done|]. split; [done|]. split; [done|].
    by rewrite (consumed_word _ _ w).
Qed.

(** [findall] on such a pattern: every element stands in the subject between
    a text of what precedes the group and a text of what follows it. *)
Lemma scan_group_context r a g b x s :
  around_group r = Some (a, g, b) → x ∈ scan icase r 0 None s →
  ∃ before wa wb after,
    s = before +:+ wa +:+ x +:+ wb +:+ after
    ∧ lang icase a wa ∧ lang icase g x ∧ lang icase b wb.
Proof.
  intros Hr Hin. apply scan_sound in Hin as (bf & s' & p & st' & -> & Hm & ->).
  apply match_at_sound in Hm.
  destruct (around_group_sound _ _ _ _ _ _ Hr Hm)
    as (wa & wg & wb & Hw & Ha & Hg & Hb & Hgrp).
  simpl in Hw. unfold item.
  rewrite (around_group_has_group _ _ _ _ Hr), Hgrp. simpl.
  exists bf, wa, wb, (rest st'). by rewrite Hw.
Qed.

End matcher_sound.

(** ** Path tree *)

Section path_tree_facts.
Context {HC : HostCheck}.

Lemma leaf_in_empty u : ¬ leaf_in ∅ u.
Proof. inversion 1; simplify_map_eq. Qed.

Lemma leaf_in_insert m k n u :
  leaf_in (<[k := n]> m) u →
  (n = Leaf u) ∨ (∃ d, n = Dir d ∧ leaf_in d u) ∨ leaf_in m u.
Proof.
  inversion 1 as [m' k' u' Hk | m' k' d u' Hk Hd]; subst.
  - destruct (decide (k = k')) as [->|Hne].
    + rewrite lookup_insert_eq in Hk. left. congruence.
    + rewrite lookup_insert_ne in Hk by done.
      right; right. by eapply leaf_here.
  - destruct (decide (k = k')) as [->|Hne].
    + rewrite lookup_insert_eq in Hk. right; left. exists d. split; congruence.
    + rewrite lookup_insert_ne in Hk by done.
      right; right. by eapply leaf_below.
Qed.

(** Inserting one URL adds no file value other than that URL. *)
Lemma leaf_in_insert_parts parts url m u :
  leaf_in (insert_parts parts url m) u → u = url ∨ leaf_in m u.
Proof.
  revert m. induction parts as [|part rest IH]; intros m Hin; [by right|].
  destruct rest as [|part' rest'].
  - simpl in Hin. apply leaf_in_insert in Hin as [Heq|[(d & Heq & _)|Hm]];
      [left; congruence | done | by right].
  - change (insert_parts (part :: part' :: rest') url m) with
      (match m !! part with
       | None => <[part := Dir (insert_parts (part' :: rest') url ∅)]> m
       | Some (Dir d) => <[part := Dir (insert_parts (part' :: rest') url d)]> m
       | Some (Leaf _) => insert_parts (part' :: rest') url m
       end) in Hin.
    destruct (m !! part) as [[v|d]|] eqn:Hpart.
    + by apply IH.
    + apply leaf_in_insert in Hin as [Heq|[(d' & Heq & Hd')|Hm]];
        [done | | by right].
      injection Heq as <-. apply IH in Hd' as [->|Hd']; [by left|].
      right. by eapply leaf_below.
    + apply leaf_in_insert in Hin as [Heq|[(d' & Heq & Hd')|Hm]];
        [done | | by right].
      injection Heq as <-. apply IH in Hd' as [->|Hd']; [by left|].
      by apply leaf_in_empty in Hd'.
Qed.

Lemma leaf_in_add_url s url u :
  leaf_in (add_url s url) u → u = url ∨ leaf_in s u.
Proof.
  unfold add_url. destruct (stripped_path url) as [p|]; [|by right].
  destruct (Str.is_empty p); [by right|]. apply leaf_in_insert_parts.
Qed.

Lemma leaf_in_fold urls s u :
  leaf_in (fold_left add_url urls s) u → u ∈ urls ∨ leaf_in s u.
Proof.
  revert s. induction urls as [|url urls IH]; intros s Hin; [by right|].
  simpl in Hin. apply IH in Hin as [Hin|Hin].
  - left. by apply list_elem_of_further.
  - apply leaf_in_add_url in Hin as [->|Hin]; [left; apply list_elem_of_here | by right].
Qed.

(** A URL whose stripped path is empty leaves the tree as it is. *)
Lemma add_url_empty_path s url :
  stripped_path url = Some "" → add_url s url = s.
Proof. unfold add_url. by intros ->. Qed.

(** A key holding a file keeps holding a file when a URL is inserted. *)
Lemma insert_parts_keeps_leaf parts url m k v :
  m !! k = Some (Leaf v) →
  ∃ v', insert_parts parts url m !! k = Some (Leaf v') ∧ (v' = v ∨ v' = url).
Proof.
  revert m. induction parts as [|part rest IH]; intros m Hk; [by eauto|].
  destruct rest as [|part' rest'].
  - simpl. destruct (decide (part = k)) as [->|Hne].
    + rewrite lookup_insert_eq. eauto.
    + rewrite lookup_insert_ne by done. eauto.
  - change (insert_parts (part :: part' :: rest') url m) with
      (match m !! part with
       | None => <[part := Dir (insert_parts (part' :: rest') url ∅)]> m
       | Some (Dir d) => <[part := Dir (insert_parts (part' :: rest') url d)]> m
       | Some (Leaf _) => insert_parts (part' :: rest') url m
       end).
    destruct (m !! part) as [[w|d]|] eqn:Hpart.
    + by apply IH.
    + assert (part ≠ k) by congruence. rewrite lookup_insert_ne by done. eauto.
    + assert (part ≠ k) by congruence. rewrite lookup_insert_ne by done. eauto.
Qed.

End path_tree_facts.


Section path_tree_claims.
Context {HC : HostCheck}.

(** C10. Every file value of the tree returned by [build_file_structure] is
    an element of the input list; a URL whose path is empty once the slashes
    are stripped contributes no entry, wherever it stands in the list; and
    the empty list gives the empty mapping. *)
Theorem build_file_structure_leaves (file_urls : list string) :
  (∀ u, leaf_in (build_file_structure file_urls) u → u ∈ file_urls)
  ∧ (∀ before url after,
       stripped_path url = Some "" →
       build_file_structure (before ++ url :: after)
       = build_file_structure (before ++ after))
  ∧ build_file_structure [] = ∅.
Proof.
  split; [|split].
  - intros u Hu. apply leaf_in_fold in Hu as [Hu|Hu]; [done|].
    by apply leaf_in_empty in Hu.
  - intros before url after Hp. unfold build_file_structure.
    rewrite !fold_left_app. simpl. by rewrite add_url_empty_path.
  - reflexivity.
Qed.

(** C1, as the code has it.  A key that holds a file is never turned into a
    directory: when a later URL uses that segment as a directory prefix, no
    error is raised, the walk stays in the node that holds the file, the
    remaining segments are inserted there, and the key still holds a file
    (its own URL, or the later one when the later URL ends at that key). *)
Theorem insert_parts_leaf_prefix (part : string) (rest : list string)
    (url v : string) (current : gmap string node) :
  current !! part = Some (Leaf v) →
  rest ≠ [] →
  insert_parts (part :: rest) url current = insert_parts rest url current
  ∧ ∃ v', insert_parts (part :: rest) url current !! part = Some (Leaf v')
          ∧ (v' = v ∨ v' = url).
Proof.
  intros Hpart Hrest. destruct rest as [|part' rest']; [done|].
  assert (insert_parts (part :: part' :: rest') url current
          = insert_parts (part' :: rest') url current) as Heq.
  { change (insert_parts (part :: part' :: rest') url current) with
      (match current !! part with
       | None => <[part := Dir (insert_parts (part' :: rest') url ∅)]> current
       | Some (Dir d) => <[part := Dir (insert_parts (part' :: rest') url d)]> current
       | Some (Leaf _) => insert_parts (part' :: rest') url current
       end).
    by rewrite Hpart. }
  split; [done|]. rewrite Heq. by apply insert_parts_keeps_leaf.
Qed.

End path_tree_claims.

Section path_tree_examples.
#[local] Existing Instance no_bracketed_hosts.

Lemma build_file_structure_leaves_witness :
  stripped_path "https://x.com/" = Some ""
  ∧ build_file_structure (["https://x.com/a.css"] ++ "https://x.com/" :: ["https://x.com/b/c.js"])
    = build_file_structure (["https://x.com/a.css"] ++ ["https://x.com/b/c.js"]).
Proof.
  assert (stripped_path "https://x.com/" = Some "") as Hp by (vm_compute; reflexivity).
  split; [exact Hp|].
  exact (proj1 (proj2 (build_file_structure_leaves []))
           ["https://x.com/a.css"] "https://x.com/" ["https://x.com/b/c.js"] Hp).
Defined.

(** The tree of the specification's example. *)
Example build_file_structure_spec_example :
  build_file_structure
    ["https://x.com/css/a.css"; "https://x.com/css/b.css"; "https://x.com/img/c.png"]
  = {[ "css" := Dir {[ "a.css" := Leaf "https://x.com/css/a.css";
                       "b.css" := Leaf "https://x.com/css/b.css" ]};
       "img" := Dir {[ "c.png" := Leaf "https://x.com/img/c.png" ]} ]}.
Proof. vm_compute. reflexivity. Qed.

(** C1 as stated fails: [a] holds a file when [a/b.css] arrives; the file is
    kept and [b.css] lands next to it, not under it. *)
Lemma build_file_structure_leaf_not_overwritten :
  build_file_structure ["https://x.com/a"; "https://x.com/a/b.css"]
  = {[ "a" := Leaf "https://x.com/a"; "b.css" := Leaf "https://x.com/a/b.css" ]}
  ∧ build_file_structure ["https://x.com/a"; "https://x.com/a/b.css"] !! "a"
    ≠ Some (Dir {[ "b.css" := Leaf "https://x.com/a/b.css" ]}).
Proof.
  assert (build_file_structure ["https://x.com/a"; "https://x.com/a/b.css"]
          = {[ "a" := Leaf "https://x.com/a";
               "b.css" := Leaf "https://x.com/a/b.css" ]}) as Heq
    by (vm_compute; reflexivity).
  split; [exact Heq|]. rewrite Heq. vm_compute. discriminate.
Qed.

Lemma insert_parts_leaf_prefix_witness :
  insert_parts ["a"; "b.css"] "https://x.com/a/b.css" {[ "a" := Leaf "https://x.com/a" ]}
  = insert_parts ["b.css"] "https://x.com/a/b.css" {[ "a" := Leaf "https://x.com/a" ]}
  ∧ ∃ v', insert_parts ["a"; "b.css"] "https://x.com/a/b.css"
            {[ "a" := Leaf "https://x.com/a" ]} !! "a" = Some (Leaf v')
          ∧ (v' = "https://x.com/a" ∨ v' = "https://x.com/a/b.css").
Proof.
  apply (insert_parts_leaf_prefix "a" ["b.css"] "https://x.com/a/b.css"
           "https://x.com/a" {[ "a" := Leaf "https://x.com/a" ]}).
  - vm_compute. reflexivity.
  - discriminate.
Defined.

End path_tree_examples.


(** ** Sets listed in an arbitrary order, and [sorted] *)

Section set_order_facts.
Context {SO : SetOrder}.

Lemma elem_of_dedup l x : x ∈ dedup l ↔ x ∈ l.
Proof. unfold dedup. rewrite set_to_list_elem. apply elem_of_list_to_set. Qed.

Lemma NoDup_dedup l : NoDup (dedup l).
Proof. apply set_to_list_NoDup. Qed.

End set_order_facts.

(** Two orders list the same set as two permutations of one list. *)
Lemma set_to_list_perm (O1 O2 : SetOrder) (X : gset string) :
  @set_to_list O1 X ≡ₚ @set_to_list O2 X.
Proof.
  apply NoDup_Permutation; [apply set_to_list_NoDup..|].
  intros x. by rewrite !set_to_list_elem.
Qed.

Lemma dedup_perm (O1 O2 : SetOrder) (l1 l2 : list string) :
  (∀ x, x ∈ l1 ↔ x ∈ l2) → @dedup O1 l1 ≡ₚ @dedup O2 l2.
Proof.
  intros Hl. apply NoDup_Permutation; [apply NoDup_dedup..|].
  intros x. by rewrite !elem_of_dedup.
Qed.

Lemma sorted_perm l : sorted l ≡ₚ l.
Proof. apply merge_sort_Permutation. Qed.

Lemma elem_of_sorted l x : x ∈ sorted l ↔ x ∈ l.
Proof. by rewrite sorted_perm. Qed.

Lemma sorted_StronglySorted l : StronglySorted String.le (sorted l).
Proof. apply (StronglySorted_merge_sort _). Qed.

Lemma NoDup_sorted l : NoDup l → NoDup (sorted l).
Proof. by rewrite sorted_perm. Qed.

(** Sorting forgets the order of its argument. *)
Lemma sorted_unique l1 l2 : l1 ≡ₚ l2 → sorted l1 = sorted l2.
Proof.
  intros Hl. apply (StronglySorted_unique String.le);
    [apply sorted_StronglySorted..|].
  by rewrite !sorted_perm.
Qed.


(** ** Extraction before a fetch, and extraction run twice *)

Section extraction_claims.
Context {HC : HostCheck}.

(** A new extractor has no parsed document.  A fetch that raises leaves the
    parsed document as it was, and the whole extractor when what it raises is
    a [ConnectionError]. *)
Lemma init_no_soup u self : init u = Some self → soup self = None.
Proof.
  unfold init. destruct (get_base_url u); [|done]. simpl. by intros [= <-].
Qed.

Lemma fetch_html_failure {World} {Net : Network World} self e self'
    (w w' : World) :
  fetch_html self w = (Raised e, self', w') →
  soup self' = soup self
  ∧ (∀ message, e = ConnectionError message → self' = self).
Proof.
  unfold fetch_html. destruct (http_get (url self) w) as [[r|[|text]] w1].
  - destruct (html_parser (body r)); [done|]. intros [= <- <- _].
    split; [done|]. intros message Hm. discriminate Hm.
  - by intros [= <- <- _].
  - by intros [= <- <- _].
Qed.

(** C7. On an extractor without a parsed document each of the six
    extraction operations returns the empty list, and none raises. *)
Theorem extract_without_soup (SO : SetOrder) (self : extractor) :
  soup self = None →
  extract_css_files self = Some []
  ∧ extract_js_files self = Some []
  ∧ extract_images self = Some []
  ∧ extract_other_files self = Some []
  ∧ extract_colors self = []
  ∧ extract_fonts self = [].
Proof.
  intros Hsoup.
  unfold extract_css_files, extract_js_files, extract_images,
    extract_other_files, extract_colors, extract_fonts.
  by rewrite Hsoup.
Qed.

Lemma raw_colors_clean_perm (O1 O2 : SetOrder) doc :
  ∀ x, x ∈ map clean_color (@set_to_list O1 (raw_colors doc))
     ↔ x ∈ map clean_color (@set_to_list O2 (raw_colors doc)).
Proof. intros x. by rewrite (set_to_list_perm O1 O2). Qed.

(** C9. Running an extraction operation again on the same extractor, even
    with sets listed in another order, gives the same outcome: for the four
    URL operations both runs raise or both return, and the two lists are
    permutations of each other; the colour and font lists are equal. *)
Theorem extraction_twice (O1 O2 : SetOrder) (self : extractor) :
  option_Forall2 (≡ₚ) (@extract_css_files HC O1 self) (@extract_css_files HC O2 self)
  ∧ option_Forall2 (≡ₚ) (@extract_js_files HC O1 self) (@extract_js_files HC O2 self)
  ∧ option_Forall2 (≡ₚ) (@extract_images HC O1 self) (@extract_images HC O2 self)
  ∧ option_Forall2 (≡ₚ) (@extract_other_files HC O1 self)
      (@extract_other_files HC O2 self)
  ∧ @extract_colors O1 self = @extract_colors O2 self
  ∧ @extract_fonts O1 self = @extract_fonts O2 self.
Proof.
  unfold extract_css_files, extract_js_files, extract_images,
    extract_other_files, extract_colors, extract_fonts.
  destruct (soup self) as [doc|]; [|by repeat split; constructor].
  repeat split.
  - destruct (join_all self (css_link_refs doc)); simpl; [|constructor].
    destruct (join_all self (css_import_refs doc)); simpl; constructor.
    by apply dedup_perm.
  - destruct (join_all self _); simpl; constructor. by apply dedup_perm.
  - destruct (join_all self (img_src_refs doc)); simpl; [|constructor].
    destruct (source_srcset_urls self doc); simpl; [|constructor].
    destruct (background_urls self doc); simpl; constructor.
    by apply dedup_perm.
  - destruct (join_all self (other_anchor_refs doc)); simpl; [|constructor].
    destruct (join_all self (other_font_refs doc)); simpl; [|constructor].
    destruct (join_all self (other_video_refs doc)); simpl; [|constructor].
    destruct (join_all self (other_audio_refs doc)); simpl; constructor.
    by apply dedup_perm.
  - apply sorted_unique, dedup_perm, raw_colors_clean_perm.
  - apply sorted_unique, set_to_list_perm.
Qed.

(** C2, as the code has it.  No URL appears twice in any one of the four
    result lists. *)
Theorem extract_lists_NoDup (SO : SetOrder) (self : extractor) (l : list string) :
  extract_css_files self = Some l ∨ extract_js_files self = Some l
  ∨ extract_images self = Some l ∨ extract_other_files self = Some l →
  NoDup l.
Proof.
  unfold extract_css_files, extract_js_files, extract_images,
    extract_other_files.
  destruct (soup self) as [doc|].
  - intros [Hl|[Hl|[Hl|Hl]]];
      repeat match type of Hl with
        | context [mbind _ ?m] => destruct m; simpl in Hl; [|done]
        end;
      injection Hl as <-; apply NoDup_dedup.
  - intros [Hl|[Hl|[Hl|Hl]]]; injection Hl as <-; constructor.
Qed.

End extraction_claims.


(** ** Languages of the patterns *)

Section pattern_languages.
Import Re.
Variable icase : bool.

Lemma lang_star_cls p w : lang icase (Star (Cls p)) w → Str.all p w = true.
Proof.
  intros (ws & -> & Hws). induction Hws as [|w ws (x & -> & Hx) _ IH]; [done|].
  simpl. rewrite ?append_cons, ?append_nil_l. simpl. by rewrite Hx, IH.
Qed.

Lemma lang_plus_cls p w :
  lang icase (Plus (Cls p)) w → w ≠ "" ∧ Str.all p w = true.
Proof.
  intros (w1 & w2 & -> & (x & -> & Hx) & Hstar%lang_star_cls).
  rewrite ?append_cons, ?append_nil_l. simpl. by rewrite Hx, Hstar.
Qed.

(** A pattern that starts with a literal character consumes a text that
    starts with that character, up to case under [re.IGNORECASE]. *)
Lemma lang_chr_first c r w :
  lang icase (Seq (Chr c) r) w →
  ∃ x w', w = String x w' ∧ chr_eq icase c x = true ∧ lang icase r w'.
Proof. intros (w1 & w2 & -> & (x & -> & Hx) & Hr). by exists x, w2. Qed.

Lemma lang_seq_assoc r1 r2 r3 w :
  lang icase (Seq (Seq r1 r2) r3) w → lang icase (Seq r1 (Seq r2 r3)) w.
Proof.
  intros (w12 & w3 & -> & (w1 & w2 & -> & H1 & H2) & H3).
  exists w1, (w2 +:+ w3). rewrite app_assoc_str. split; [done|].
  split; [done|]. by exists w2, w3.
Qed.

End pattern_languages.

Lemma chr_eq_exact c x : Re.chr_eq false c x = true → x = c.
Proof. unfold Re.chr_eq. by intros ->%Ascii.eqb_eq. Qed.

(** A token of an [img srcset] starts with [http://] or [https://]. *)
Lemma srcset_abs_prefix u :
  Re.group_lang false Pat.srcset_abs_re u →
  Str.startswith u "http://" = true ∨ Str.startswith u "https://" = true.
Proof.
  unfold Pat.srcset_abs_re, Pat.seqs, Re.Opt.
  cbn [Re.group_lang Re.lang Re.Lit Re.Rep].
  intros (w1 & w2 & -> & Hhttp & (w3 & w4 & -> & Hs & (w5 & w6 & -> & Hsep & _))).
  destruct Hhttp as (h1 & h2 & -> & (x1 & -> & ->%chr_eq_exact) &
    (h3 & h4 & -> & (x2 & -> & ->%chr_eq_exact) &
    (h5 & h6 & -> & (x3 & -> & ->%chr_eq_exact) &
    (h7 & h8 & -> & (x4 & -> & ->%chr_eq_exact) & ->)))).
  destruct Hsep as (s1 & s2 & -> & (y1 & -> & ->%chr_eq_exact) &
    (s3 & s4 & -> & (y2 & -> & ->%chr_eq_exact) &
    (s5 & s6 & -> & (y3 & -> & ->%chr_eq_exact) & ->))).
  destruct Hs as [(o1 & o2 & -> & (z & -> & ->%chr_eq_exact) & ->)| ->].
  - right. repeat (rewrite append_cons || rewrite append_nil_l). reflexivity.
  - left. repeat (rewrite append_cons || rewrite append_nil_l). reflexivity.
Qed.

(** A token of a [source srcset] is not empty and has no blank, so
    [split()[0]] gives it back. *)
Lemma srcset_tok_first_word tok v :
  tok ∈ Re.findall Pat.srcset_tok_re v → first_word tok = Some tok.
Proof.
  intros [Hl _]%scan_group_match; [|done..].
  apply lang_plus_cls in Hl as [Hne Hall].
  unfold first_word. rewrite split_ws_no_space; [done..|].
  eapply all_impl_str; [|done]. unfold Pat.srcset_char.
  by intros c [? _]%andb_true_iff.
Qed.

(** ** Membership in the lists of the extractor *)

Lemma elem_of_mapM {A B} (f : A → option B) l k y :
  mapM f l = Some k → y ∈ k ↔ ∃ x, x ∈ l ∧ f x = Some y.
Proof.
  intros Hm%mapM_Some_1. induction Hm as [|x z l k Hx _ IH].
  - split; [by intros ?%elem_of_nil | by intros (x & ?%elem_of_nil & _)].
  - rewrite elem_of_cons, IH. split.
    + intros [->|(x' & Hin & Hf)]; [exists x | exists x'];
        (split; [|done]); [apply list_elem_of_here | by apply list_elem_of_further].
    + intros (x' & [->|Hin]%elem_of_cons & Hf); [left; congruence | right; eauto].
Qed.

Lemma elem_of_find_all_with names attr doc e :
  e ∈ find_all_with names attr doc
  ↔ e ∈ doc ∧ el_name e ∈ names ∧ ∃ v, get e attr = Some v.
Proof.
  unfold find_all_with. rewrite list_elem_of_filter.
  unfold named, has_attr. split.
  - intros [[(n & Hn%list_elem_of_In & ->%String.eqb_eq)%Is_true_true%existsb_exists
               Hattr%bool_decide_unpack]%andb_True Hin]. done.
  - intros (Hin & Hn & Hv). split; [|done]. apply andb_True. split.
    + apply Is_true_true, existsb_exists. exists (el_name e).
      split; [by apply list_elem_of_In | apply String.eqb_refl].
    + by apply bool_decide_pack.
Qed.

Lemma get_or_empty_Some e attr v : get e attr = Some v → get_or_empty e attr = v.
Proof. unfold get_or_empty. by intros ->. Qed.

Section srcset.
Context {HC : HostCheck} {SO : SetOrder}.

Lemma elem_of_img_srcset_urls doc u :
  u ∈ img_srcset_urls doc
  ↔ ∃ img v, img ∈ doc ∧ el_name img = "img" ∧ get img "srcset" = Some v
             ∧ u ∈ Re.findall Pat.srcset_abs_re v.
Proof.
  unfold img_srcset_urls. rewrite list_elem_of_bind. split.
  - intros (img & Hu & (Hin & Hn%list_elem_of_singleton & (v & Hv))%elem_of_find_all_with).
    exists img, v. by rewrite (get_or_empty_Some _ _ _ Hv) in Hu.
  - intros (img & v & Hin & Hn & Hv & Hu). exists img.
    rewrite (get_or_empty_Some _ _ _ Hv). split; [done|].
    apply elem_of_find_all_with. rewrite Hn.
    split; [done|]. split; [apply list_elem_of_here | eauto].
Qed.

Lemma elem_of_source_srcset_urls_of self source l u :
  source_srcset_urls_of self source = Some l →
  u ∈ l ↔ ∃ tok, tok ∈ Re.findall Pat.srcset_tok_re (get_or_empty source "srcset")
               ∧ Url.urljoin (url self) tok = Some u
               ∧ has_extension image_extensions u = true.
Proof.
  unfold source_srcset_urls_of.
  destruct (mapM _ _) as [resolved|] eqn:Hm; [|done]. simpl. intros [= <-].
  rewrite list_elem_of_filter, (elem_of_mapM _ _ _ _ Hm), Is_true_true. split.
  - intros (Hext & tok & Htok & Hj). exists tok.
    by rewrite (srcset_tok_first_word _ _ Htok) in Hj.
  - intros (tok & Htok & Hj & Hext). split; [done|]. exists tok.
    by rewrite (srcset_tok_first_word _ _ Htok).
Qed.

Lemma elem_of_source_srcset_urls self doc l u :
  source_srcset_urls self doc = Some l →
  u ∈ l ↔ ∃ source v tok,
            source ∈ doc ∧ el_name source = "source"
            ∧ get source "srcset" = Some v
            ∧ tok ∈ Re.findall Pat.srcset_tok_re v
            ∧ Url.urljoin (url self) tok = Some u
            ∧ has_extension image_extensions u = true.
Proof.
  unfold source_srcset_urls.
  destruct (mapM _ _) as [per_tag|] eqn:Hm; [|done]. simpl. intros [= <-].
  rewrite list_elem_of_In, in_concat. split.
  - intros (l' & Hl'%list_elem_of_In & Hu%list_elem_of_In).
    apply (elem_of_mapM _ _ _ _ Hm) in Hl' as (source & Hs & Hl').
    apply elem_of_find_all_with in Hs as (Hin & Hn%list_elem_of_singleton & (v & Hv)).
    apply (elem_of_source_srcset_urls_of _ _ _ _ Hl') in Hu as (tok & Htok & Hj & Hext).
    rewrite (get_or_empty_Some _ _ _ Hv) in Htok. by exists source, v, tok.
  - intros (source & v & tok & Hin & Hn & Hv & Htok & Hj & Hext).
    assert (source ∈ find_all_with ["source"] "srcset" doc) as Hs.
    { apply elem_of_find_all_with. rewrite Hn.
      split; [done|]. split; [apply list_elem_of_here | eauto]. }
    assert (∃ l', source_srcset_urls_of self source = Some l' ∧ l' ∈ per_tag)
      as (l' & Hl' & Hin').
    { clear -Hm Hs. apply mapM_Some_1 in Hm.
      induction Hm as [|x y l k Hx _ IH]; [by apply elem_of_nil in Hs|].
      apply elem_of_cons in Hs as [->|Hs].
      - exists y. split; [done | apply list_elem_of_here].
      - destruct (IH Hs) as (l' & ? & ?). exists l'.
        split; [done | by apply list_elem_of_further]. }
    exists l'. split; [by apply list_elem_of_In|]. apply list_elem_of_In.
    apply (elem_of_source_srcset_urls_of _ _ _ _ Hl'). exists tok.
    by rewrite (get_or_empty_Some _ _ _ Hv).
Qed.

(** C3. A URL taken from the [srcset] of an [img] tag starts with [http://]
    or [https://], occurs as it is in the attribute value, and is in the
    result as it is, whatever the page URL.  A URL taken from the [srcset]
    of a [source] tag is a token resolved against the page URL, kept exactly
    when the resolved URL, in lower case, ends with an image extension. *)
Theorem srcset_asymmetry (self : extractor) (doc : list element) :
  soup self = Some doc →
  (∀ u, u ∈ img_srcset_urls doc →
     (Str.startswith u "http://" = true ∨ Str.startswith u "https://" = true)
     ∧ (∃ img v, img ∈ doc ∧ el_name img = "img"
                 ∧ get img "srcset" = Some v ∧ Re.occurs_in u v)
     ∧ (∀ images, extract_images self = Some images → u ∈ images))
  ∧ (∀ images, extract_images self = Some images →
       ∃ sources,
         source_srcset_urls self doc = Some sources
         ∧ (∀ u, u ∈ sources → u ∈ images)
         ∧ (∀ u, u ∈ sources ↔
              ∃ source v tok ext before,
                source ∈ doc ∧ el_name source = "source"
                ∧ get source "srcset" = Some v
                ∧ tok ∈ Re.findall Pat.srcset_tok_re v
                ∧ Url.urljoin (url self) tok = Some u
                ∧ ext ∈ image_extensions
                ∧ Str.lower u = before +:+ ext)).
Proof.
  intros Hsoup. split.
  - intros u Hu. split; [|split].
    + apply elem_of_img_srcset_urls in Hu as (img & v & _ & _ & _ & Hu).
      apply scan_group_match in Hu as [Hl _]; [|done..].
      by apply srcset_abs_prefix.
    + apply elem_of_img_srcset_urls in Hu as (img & v & Hin & Hn & Hv & Hu).
      apply scan_group_match in Hu as [_ Hocc]; [|done..].
      by exists img, v.
    + intros images. unfold extract_images. rewrite Hsoup.
      destruct (join_all self (img_src_refs doc)); [|done]. simpl.
      destruct (source_srcset_urls self doc); [|done]. simpl.
      destruct (background_urls self doc); [|done]. simpl.
      intros [= <-]. rewrite elem_of_dedup, !elem_of_app. auto.
  - intros images. unfold extract_images. rewrite Hsoup.
    destruct (join_all self (img_src_refs doc)); [|done]. simpl.
    destruct (source_srcset_urls self doc) as [sources|] eqn:Hsrc; [|done]. simpl.
    destruct (background_urls self doc); [|done]. simpl.
    intros [= <-]. exists sources. split; [done|]. split.
    + intros u Hu. rewrite elem_of_dedup, !elem_of_app. auto.
    + intros u. rewrite (elem_of_source_srcset_urls _ _ _ _ Hsrc). split.
      * intros (source & v & tok & ? & ? & ? & ? & ? &
                (ext & before & ? & ?)%has_extension_spec).
        by exists source, v, tok, ext, before.
      * intros (source & v & tok & ext & before & ? & ? & ? & ? & ? & ? & ?).
        exists source, v, tok. repeat (split; [done|]).
        apply has_extension_spec. eauto.
Qed.

End srcset.


(** ** Colours *)

Lemma hex_group_digits h :
  Re.group_lang false Pat.hex_pattern h → hex_digits h.
Proof.
  unfold Pat.hex_pattern, Pat.seqs.
  cbn [Re.group_lang Re.lang Re.Rep].
  intros [[]|[[Hsix|Hthree]|[]]].
  - destruct Hsix as (? & ? & -> & (a & -> & Ha) & (? & ? & -> & (b & -> & Hb) &
      (? & ? & -> & (c & -> & Hc) & (? & ? & -> & (d & -> & Hd) &
      (? & ? & -> & (e & -> & He) & (? & ? & -> & (f & -> & Hf) & ->)))))).
    push_app. split; [|by right]. simpl. by rewrite Ha, Hb, Hc, Hd, He, Hf.
  - destruct Hthree as (? & ? & -> & (a & -> & Ha) & (? & ? & -> & (b & -> & Hb) &
      (? & ? & -> & (c & -> & Hc) & ->))).
    push_app. split; [|by left]. simpl. by rewrite Ha, Hb, Hc.
Qed.

Lemma hexdigit_not_hash a : Pat.hexdigit a = true → Ascii.eqb "#" a = false.
Proof.
  intros Ha. destruct (Ascii.eqb "#" a) eqn:Heq; [|done].
  apply Ascii.eqb_eq in Heq as <-. done.
Qed.

(** The clean-up loop puts [#] in front of bare hex digits. *)
Lemma clean_color_bare_hex h : hex_digits h → clean_color h = "#" +:+ h.
Proof.
  intros [Hall Hlen]. unfold clean_color.
  destruct h as [|a [|b [|c h]]]; [simpl in Hlen; lia..|].
  simpl in Hall.
  apply andb_true_iff in Hall as [Ha Hall].
  apply andb_true_iff in Hall as [Hb Hall].
  apply andb_true_iff in Hall as [Hc Hall].
  assert (Str.startswith (String a (String b (String c h))) "#" = false) as ->.
  { cbn [Str.startswith]. by rewrite (hexdigit_not_hash a Ha). }
  assert (Re.matches Pat.bare_hex_re (String a (String b (String c h))) = true)
    as ->; [|done].
  destruct Hlen as [Hlen|Hlen].
  - destruct h; [|simpl in Hlen; lia].
    unfold Re.matches, Re.match_at, Pat.bare_hex_re, Pat.seqs.
    cbn [Re.run Re.Rep Re.rest Re.prev Re.advance Re.grp]. by rewrite Ha, Hb, Hc.
  - destruct h as [|d [|e [|f [|]]]]; try (simpl in Hlen; lia).
    simpl in Hall.
    apply andb_true_iff in Hall as [Hd Hall].
    apply andb_true_iff in Hall as [He Hall].
    apply andb_true_iff in Hall as [Hf _].
    unfold Re.matches, Re.match_at, Pat.bare_hex_re, Pat.seqs.
    cbn [Re.run Re.Rep Re.rest Re.prev Re.advance Re.grp].
    by rewrite Ha, Hb, Hc, Hd, He, Hf.
Qed.

Lemma clean_color_hash s : clean_color ("#" +:+ s) = "#" +:+ s.
Proof. reflexivity. Qed.

(** A text that starts with neither [#] nor a hex digit is left as it is. *)
Lemma clean_color_other c0 s :
  Ascii.eqb "#" c0 = false → Pat.hexdigit c0 = false →
  clean_color (String c0 s) = String c0 s.
Proof.
  intros Hhash Hhex. unfold clean_color. cbn [Str.startswith]. rewrite Hhash.
  cbn [andb].
  unfold Re.matches, Re.match_at, Pat.bare_hex_re, Pat.seqs.
  cbn [Re.run Re.Rep Re.rest Re.prev Re.advance Re.grp]. by rewrite Hhex.
Qed.

Lemma lang_lit_first icase c s r x :
  Re.lang icase (Re.Seq (Re.Lit (String c s)) r) x →
  ∃ c0 x', x = String c0 x' ∧ Re.chr_eq icase c c0 = true.
Proof.
  cbn [Re.lang Re.Lit].
  intros (w1 & w2 & -> & (a & b & -> & (c0 & -> & Hc) & _) & _).
  exists c0, (b +:+ w2). by push_app.
Qed.

(** Under [re.IGNORECASE] the letters [r] and [h] are matched by themselves
    and by their capitals only. *)
Lemma icase_r_or_h c0 :
  Re.chr_eq true "r" c0 = true ∨ Re.chr_eq true "h" c0 = true →
  Ascii.eqb "#" c0 = false ∧ Pat.hexdigit c0 = false.
Proof.
  destruct c0 as [[] [] [] [] [] [] [] []];
    vm_compute; intros [?|?]; (done || by split).
Qed.

Lemma functional_match_spec p text c :
  p ∈ functional_patterns → c ∈ Re.findall_i p text →
  Re.occurs_in c text ∧ clean_color c = c.
Proof.
  intros Hp Hc.
  assert (Re.has_group p = false) as Hg.
  { unfold functional_patterns in Hp.
    repeat (apply elem_of_cons in Hp as [->|Hp]; [done|]).
    by apply elem_of_nil in Hp. }
  apply scan_whole_match in Hc as [Hl Hocc]; [|done]. split; [done|].
  assert (∃ c0 x', c = String c0 x'
            ∧ (Re.chr_eq true "r" c0 = true ∨ Re.chr_eq true "h" c0 = true))
    as (c0 & x' & -> & Hc0).
  { unfold functional_patterns in Hp.
    apply elem_of_cons in Hp as [->|Hp];
      [|apply elem_of_cons in Hp as [->|Hp];
        [|apply list_elem_of_singleton in Hp as ->]];
      apply lang_lit_first in Hl as (c0 & x' & -> & Hc0); eauto. }
  apply icase_r_or_h in Hc0 as [? ?]. by apply clean_color_other.
Qed.

(** A loop that only adds to a set: what is in the set at the end. *)
Lemma elem_of_fold_left_add {A} (f : gset string → A → gset string)
    (P : A → string → Prop) :
  (∀ X y x, x ∈ f X y ↔ x ∈ X ∨ P y x) →
  ∀ l X x, x ∈ fold_left f l X ↔ x ∈ X ∨ ∃ y, y ∈ l ∧ P y x.
Proof.
  intros Hf l. induction l as [|y l IH]; intros X x; simpl.
  - split; [by left|]. intros [?|(y & ?%elem_of_nil & _)]; done.
  - rewrite IH, Hf. split.
    + intros [[?|?]|(y' & ? & ?)]; [by left| |].
      * right. exists y. split; [apply list_elem_of_here | done].
      * right. exists y'. split; [by apply list_elem_of_further | done].
    + intros [?|(y' & [->|?]%elem_of_cons & ?)]; [by left; left|by left; right|].
      right. by exists y'.
Qed.

Lemma elem_of_update colors l x : x ∈ update colors l ↔ x ∈ colors ∨ x ∈ l.
Proof. unfold update. by rewrite elem_of_union, elem_of_list_to_set. Qed.

Lemma elem_of_functional (Q : Re.regex → Prop) :
  (∃ p, p ∈ functional_patterns ∧ Q p)
  ↔ Q Pat.rgb_pattern ∨ Q Pat.rgba_pattern ∨ Q Pat.hsl_pattern.
Proof.
  unfold functional_patterns. split.
  - intros (p & Hp & HQ).
    repeat (apply elem_of_cons in Hp as [->|Hp]; [by auto|]).
    by apply elem_of_nil in Hp.
  - intros [?|[?|?]]; eexists; (split; [|done]); set_solver.
Qed.

Lemma elem_of_add_inline_colors X style x :
  x ∈ add_inline_colors X style ↔ x ∈ X ∨ inline_color style x.
Proof.
  unfold add_inline_colors, inline_color.
  rewrite !elem_of_update, elem_of_functional. tauto.
Qed.

Lemma elem_of_add_block_colors X content x :
  x ∈ add_block_colors X content ↔ x ∈ X ∨ block_color content x.
Proof.
  unfold add_block_colors, block_color.
  rewrite !elem_of_update, elem_of_functional, list_elem_of_fmap.
  split.
  - intros [[[[?|(h & -> & ?)]|?]|?]|?]; eauto 10.
  - intros [?|[(h & ? & ->)|[?|[?|?]]]]; eauto 10.
Qed.

Lemma elem_of_raw_colors doc x :
  x ∈ raw_colors doc
  ↔ (∃ style, style ∈ inline_styles doc ∧ inline_color style x)
    ∨ (∃ content, content ∈ style_blocks doc ∧ block_color content x).
Proof.
  unfold raw_colors.
  rewrite (elem_of_fold_left_add _ block_color elem_of_add_block_colors).
  rewrite (elem_of_fold_left_add _ inline_color elem_of_add_inline_colors).
  rewrite elem_of_empty. tauto.
Qed.

Lemma hex_match_spec text h :
  h ∈ Re.findall Pat.hex_pattern text →
  hex_digits h ∧ Re.occurs_in ("#" +:+ h) text.
Proof.
  intros Hin. split.
  - apply scan_group_match in Hin as [Hl _]; [|done..]. by apply hex_group_digits.
  - assert (Re.around_group Pat.hex_pattern
            = Some (Re.Seq (Re.Chr "#") Re.Eps,
                    Re.Alt (Re.Rep 6 6 (Re.Cls Pat.hexdigit))
                      (Re.Rep 3 3 (Re.Cls Pat.hexdigit)),
                    Re.Seq Re.Eps Re.WordB)) as Hr by reflexivity.
    destruct (scan_group_context false _ _ _ _ _ _ Hr Hin)
      as (before & wa & wb & after & -> & Ha & _ & Hb).
    destruct Ha as (? & ? & -> & (x & -> & ->%chr_eq_exact) & ->).
    destruct Hb as (? & ? & -> & -> & ->).
    exists before, after. by push_app.
Qed.

Lemma extract_colors_any_order (O1 O2 : SetOrder) self :
  @extract_colors O1 self = @extract_colors O2 self.
Proof.
  unfold extract_colors. destruct (soup self) as [doc|]; [|done].
  apply sorted_unique, dedup_perm. intros x.
  by rewrite (set_to_list_perm O1 O2).
Qed.

Lemma elem_of_extract_colors (SO : SetOrder) self doc c :
  soup self = Some doc →
  c ∈ extract_colors self ↔ ∃ x, x ∈ raw_colors doc ∧ c = clean_color x.
Proof.
  intros Hsoup. unfold extract_colors. rewrite Hsoup.
  rewrite elem_of_sorted, elem_of_dedup, list_elem_of_fmap.
  split; intros (x & Hx & Hc); exists x.
  - by apply set_to_list_elem in Hc.
  - split; [done|]. by apply set_to_list_elem.
Qed.

(** C4. [extract_colors] returns a list without duplicates, in
    lexicographic order, whose elements are exactly the hex colours found,
    each with [#] in front of its digits (three or six, as they stand in the
    text), and the [rgb], [rgba] and [hsl] matches, each as it stands in the
    text; on the example of the specification the list is
    [#112233], [#FFF], [rgb(1, 2, 3)]. *)
Theorem extract_colors_spec (SO : SetOrder) (page : string) (t : nat)
    (doc : list element) (html : option string) (base : string) :
  let self := Extractor page t (Some doc) html base in
  NoDup (extract_colors self)
  ∧ StronglySorted String.le (extract_colors self)
  ∧ (∀ c, c ∈ extract_colors self ↔
       (∃ text h, text ∈ inline_styles doc ++ style_blocks doc
                  ∧ h ∈ Re.findall Pat.hex_pattern text ∧ c = "#" +:+ h)
       ∨ (∃ text p, text ∈ inline_styles doc ++ style_blocks doc
                    ∧ p ∈ functional_patterns ∧ c ∈ Re.findall_i p text))
  ∧ (∀ text h, h ∈ Re.findall Pat.hex_pattern text →
       hex_digits h ∧ Re.occurs_in ("#" +:+ h) text)
  ∧ (∀ text p c, p ∈ functional_patterns → c ∈ Re.findall_i p text →
       Re.occurs_in c text)
  ∧ extract_colors (Extractor page t (Some colors_example_doc) html base)
    = ["#112233"; "#FFF"; "rgb(1, 2, 3)"].
Proof.
  intros self. split; [|split; [|split; [|split; [|split]]]].
  - unfold extract_colors. simpl. apply NoDup_sorted, NoDup_dedup.
  - apply sorted_StronglySorted.
  - intros c. rewrite (elem_of_extract_colors SO self doc c eq_refl). split.
    + intros (x & Hx & ->). apply elem_of_raw_colors in Hx
        as [(style & Hin & [Hh|(p & Hp & Hx)])
           |(content & Hin & [(h & Hh & ->)|(p & Hp & Hx)])].
      * left. exists style, x. split; [by apply elem_of_app; left|].
        split; [done|]. apply clean_color_bare_hex. by apply hex_match_spec in Hh as [? _].
      * right. exists style, p. split; [by apply elem_of_app; left|].
        split; [done|]. by rewrite (proj2 (functional_match_spec _ _ _ Hp Hx)).
      * left. exists content, h. split; [by apply elem_of_app; right|]. done.
      * right. exists content, p. split; [by apply elem_of_app; right|].
        split; [done|]. by rewrite (proj2 (functional_match_spec _ _ _ Hp Hx)).
    + intros [(text & h & [Hin|Hin]%elem_of_app & Hh & ->)
             |(text & p & [Hin|Hin]%elem_of_app & Hp & Hx)].
      * exists h. split.
        -- apply elem_of_raw_colors. left. exists text. split; [done|]. by left.
        -- symmetry. apply clean_color_bare_hex. by apply hex_match_spec in Hh as [? _].
      * exists ("#" +:+ h). split; [|done].
        apply elem_of_raw_colors. right. exists text. split; [done|]. left. eauto.
      * exists c. split.
        -- apply elem_of_raw_colors. left. exists text. split; [done|]. right. eauto.
        -- by rewrite (proj2 (functional_match_spec _ _ _ Hp Hx)).
      * exists c. split.
        -- apply elem_of_raw_colors. right. exists text. split; [done|]. right. eauto.
        -- by rewrite (proj2 (functional_match_spec _ _ _ Hp Hx)).
  - apply hex_match_spec.
  - intros text p c Hp Hc. by apply (functional_match_spec _ _ _ Hp Hc).
  - rewrite (extract_colors_any_order SO elements_order). vm_compute. reflexivity.
Qed.


(** No pattern given to [findall] matches the empty text, so the scan never
    meets the case of an empty match. *)
Lemma findall_patterns_consume icase r prev s st' :
  (icase, r) ∈ findall_patterns →
  Re.match_at icase r prev s = Some st' →
  String.length (Re.rest st') < String.length s.
Proof.
  intros Hin Hm. apply match_at_sound, denotes_word in Hm as (w & Hw & Hl).
  simpl in Hw. rewrite Hw, length_app_str.
  assert (w ≠ "") as Hne; [|destruct w; [done | simpl; lia]].
  unfold findall_patterns in Hin.
  repeat (apply elem_of_cons in Hin as [[= -> ->]|Hin];
          [cbv [Pat.import_re Pat.srcset_abs_re Pat.srcset_tok_re
                Pat.bg_url_re Pat.hex_pattern Pat.rgb_pattern
                Pat.rgba_pattern Pat.hsl_pattern Pat.font_family_inline_re
                Pat.font_family_block_re Pat.font_face_re
                Pat.font_family_head Pat.font_face_head Pat.seqs] in Hl;
           first
             [ by apply lang_lit_first in Hl as (? & ? & -> & _)
             | by apply lang_chr_first in Hl as (? & ? & -> & _)
             | by apply lang_plus_cls in Hl as [? _]
             | by apply lang_seq_assoc, lang_lit_first in Hl as (? & ? & -> & _) ]|]).
  by apply elem_of_nil in Hin.
Qed.

(** ** Fonts *)

Lemma lstrip_spec p s :
  ∃ a, s = a +:+ Str.lstrip p s ∧ Str.all p a = true
       ∧ ∀ c, Str.first_char (Str.lstrip p s) = Some c → p c = false.
Proof.
  induction s as [|x s (a & Ha & Hall & Hfirst)]; simpl.
  - by exists "".
  - destruct (p x) eqn:Hx.
    + exists (String x a). rewrite append_cons, <- Ha. simpl. by rewrite Hx, Hall.
    + exists "". split; [done|]. split; [done|]. simpl. by intros c [= <-].
Qed.

Lemma rstrip_spec p s :
  ∃ b, s = Str.rstrip p s +:+ b ∧ Str.all p b = true
       ∧ (∀ c, Str.last_char (Str.rstrip p s) = Some c → p c = false)
       ∧ (∀ c, Str.first_char s = Some c → p c = false →
               Str.first_char (Str.rstrip p s) = Some c).
Proof.
  induction s as [|x s (b & Hb & Hall & Hlast & _)]; simpl.
  - by exists "".
  - destruct (Str.rstrip p s) as [|y r] eqn:Hr.
    + destruct (p x) eqn:Hx.
      * rewrite append_nil_l in Hb. subst b. exists (String x s). push_app.
        simpl. rewrite Hx, Hall. split; [done|]. split; [done|].
        split; [done|]. intros c [= <-]. congruence.
      * rewrite append_nil_l in Hb. subst b. exists s. push_app.
        split; [done|]. split; [done|]. simpl.
        split; [by intros c [= <-]|done].
    + exists b. rewrite append_cons, <- Hb. split; [done|]. split; [done|].
      split; [|done]. intros c Hc. apply Hlast. by destruct r.
Qed.

(** [s.strip(chars)] removes characters of [chars] at both ends and leaves
    a text that neither starts nor ends with one. *)
Lemma strip_spec p s :
  ∃ a b, s = a +:+ Str.strip p s +:+ b
         ∧ Str.all p a = true ∧ Str.all p b = true
         ∧ Str.trimmed p (Str.strip p s).
Proof.
  unfold Str.strip.
  destruct (lstrip_spec p s) as (a & Ha & Halla & Hfirst).
  destruct (rstrip_spec p (Str.lstrip p s)) as (b & Hb & Hallb & Hlast & Hkeep).
  exists a, b. rewrite <- Hb. split; [done|]. split; [done|]. split; [done|].
  split; [|done]. intros c Hc.
  destruct (Str.lstrip p s) as [|x l] eqn:Hl; [done|].
  pose proof (Hfirst x eq_refl) as Hx.
  pose proof (Hkeep x eq_refl Hx) as Hfx. congruence.
Qed.

(** [family.split(',')] cuts at the commas and nowhere else. *)
Lemma split_nonempty c s : Str.split c s ≠ [].
Proof.
  destruct s as [|x s]; simpl; [done|].
  destruct (Ascii.eqb x c); [done|]. by destruct (Str.split c s).
Qed.

Lemma join_split c s : Str.join (String c "") (Str.split c s) = s.
Proof.
  induction s as [|x s IH]; simpl; [done|].
  pose proof (split_nonempty c s) as Hne.
  destruct (Ascii.eqb x c) eqn:Hx.
  - apply Ascii.eqb_eq in Hx as ->.
    destruct (Str.split c s) as [|h t]; [done|].
    change (Str.join (String c "") ("" :: h :: t))
      with ("" +:+ String c "" +:+ Str.join (String c "") (h :: t)).
    rewrite IH. by push_app.
  - destruct (Str.split c s) as [|h t]; [done|].
    destruct t as [|h' t]; simpl in *; [by rewrite IH|].
    rewrite append_cons. by rewrite IH.
Qed.

Lemma split_no_sep c s :
  Forall (fun part => Str.contains c part = false) (Str.split c s).
Proof.
  induction s as [|x s IH]; simpl; [by repeat constructor|].
  destruct (Ascii.eqb x c) eqn:Hx; [by constructor|].
  destruct (Str.split c s) as [|h t].
  { constructor; [simpl; by rewrite Hx | constructor]. }
  inversion IH as [|? ? Hh Ht]; subst. constructor; [|done].
  simpl. by rewrite Hx, Hh.
Qed.

Lemma is_empty_spec s : Str.is_empty s = true ↔ s = "".
Proof. by destruct s. Qed.

Lemma elem_of_add_cleaned (clean : string → string) (X : gset string) y x :
  x ∈ (let cleaned_font := clean y in
       if Str.is_empty cleaned_font then X else X ∪ {[ cleaned_font ]})
  ↔ x ∈ X ∨ (x = clean y ∧ x ≠ "").
Proof.
  simpl. destruct (Str.is_empty (clean y)) eqn:He.
  - apply is_empty_spec in He. split; [by left|].
    intros [?|[-> ?]]; done.
  - assert (clean y ≠ "") as Hne.
    { intros Heq%is_empty_spec. congruence. }
    rewrite elem_of_union, elem_of_singleton. split.
    + intros [?| ->]; [by left | by right].
    + intros [?|[-> _]]; [by left | by right].
Qed.

Lemma elem_of_add_family X family f :
  f ∈ add_family X family ↔ f ∈ X ∨ family_font family f.
Proof.
  unfold add_family, family_font.
  rewrite (elem_of_fold_left_add _ (fun font f => f = clean_family font ∧ f ≠ "")).
  - done.
  - intros X' y x. apply (elem_of_add_cleaned clean_family).
Qed.

Lemma elem_of_add_families X families f :
  f ∈ fold_left add_family families X
  ↔ f ∈ X ∨ ∃ family, family ∈ families ∧ family_font family f.
Proof. apply elem_of_fold_left_add, elem_of_add_family. Qed.

Lemma elem_of_add_font_faces X content f :
  f ∈ add_font_faces X content
  ↔ f ∈ X ∨ ∃ name, name ∈ Re.findall_i Pat.font_face_re content
                     ∧ face_font name f.
Proof.
  unfold add_font_faces, face_font.
  apply (elem_of_fold_left_add _
           (fun name f => f = Str.strip Str.is_space name ∧ f ≠ "")).
  intros X' y x. apply (elem_of_add_cleaned (Str.strip Str.is_space)).
Qed.

Lemma elem_of_raw_fonts doc f :
  f ∈ raw_fonts doc
  ↔ (∃ style family, style ∈ inline_styles doc
       ∧ family ∈ Re.findall_i Pat.font_family_inline_re style
       ∧ family_font family f)
    ∨ (∃ content family, content ∈ style_blocks doc
         ∧ family ∈ Re.findall_i Pat.font_family_block_re content
         ∧ family_font family f)
    ∨ (∃ content name, content ∈ style_blocks doc
         ∧ name ∈ Re.findall_i Pat.font_face_re content
         ∧ face_font name f).
Proof.
  unfold raw_fonts.
  rewrite (elem_of_fold_left_add _ _ elem_of_add_font_faces).
  rewrite (elem_of_fold_left_add add_block_fonts
             (fun content f => ∃ family,
                family ∈ Re.findall_i Pat.font_family_block_re content
                ∧ family_font family f));
    [|intros; apply elem_of_add_families].
  rewrite (elem_of_fold_left_add add_inline_fonts
             (fun style f => ∃ family,
                family ∈ Re.findall_i Pat.font_family_inline_re style
                ∧ family_font family f));
    [|intros; apply elem_of_add_families].
  rewrite elem_of_empty. split.
  - intros [[[[]|(style & ? & family & ? & ?)]
            |(content & ? & family & ? & ?)]
           |(content & ? & name & ? & ?)]; eauto 10.
  - intros [(style & family & ? & ? & ?)
           |[(content & family & ? & ? & ?)|(content & name & ? & ? & ?)]];
      eauto 10.
Qed.

Lemma extract_fonts_any_order (O1 O2 : SetOrder) self :
  @extract_fonts O1 self = @extract_fonts O2 self.
Proof.
  unfold extract_fonts. destruct (soup self) as [doc|]; [|done].
  apply sorted_unique, set_to_list_perm.
Qed.

Lemma lang_seq_eps icase r w : Re.lang icase (Re.Seq r Re.Eps) w → Re.lang icase r w.
Proof. intros (w1 & w2 & -> & Hr & ->). by rewrite append_nil_r. Qed.

(** A name found by the [@font-face] pattern stands in the style block right
    after a text of the pattern's head: the rule's opening, any characters
    other than the closing brace, and the [font-family] property. *)
Lemma font_face_context content name :
  name ∈ Re.findall_i Pat.font_face_re content →
  ∃ before decl after,
    content = before +:+ decl +:+ name +:+ after
    ∧ Re.lang true Pat.font_face_head decl.
Proof.
  intros Hin.
  assert (Re.around_group Pat.font_face_re
          = Some (Re.Seq Pat.font_face_head Re.Eps,
                  Re.Plus (Re.Cls Pat.font_name_char), Re.Eps)) as Hr
    by reflexivity.
  destruct (scan_group_context true _ _ _ _ _ _ Hr Hin)
    as (before & wa & wb & after & -> & Ha%lang_seq_eps & _ & Hb).
  simpl in Hb. subst wb.
  exists before, wa, after. split; [by push_app | done].
Qed.

(** A value found by a [font-family] pattern stands right after the property
    name, the colon and the blanks around it. *)
Lemma font_family_context text family :
  family ∈ Re.findall_i Pat.font_family_inline_re text
  ∨ family ∈ Re.findall_i Pat.font_family_block_re text →
  ∃ before decl after,
    text = before +:+ decl +:+ family +:+ after
    ∧ Re.lang true Pat.font_family_head decl.
Proof.
  intros [Hin|Hin].
  - assert (Re.around_group Pat.font_family_inline_re
            = Some (Re.Seq Pat.font_family_head Re.Eps,
                    Re.Plus (Re.Cls (Pat.none_of ";")), Re.Eps)) as Hr
      by reflexivity.
    destruct (scan_group_context true _ _ _ _ _ _ Hr Hin)
      as (before & wa & wb & after & -> & Ha%lang_seq_eps & _ & Hb).
  simpl in Hb. subst wb.
    exists before, wa, after. split; [by push_app | done].
  - assert (Re.around_group Pat.font_family_block_re
            = Some (Re.Seq Pat.font_family_head Re.Eps,
                    Re.Plus (Re.Cls (Pat.none_of ";}")), Re.Eps)) as Hr
      by reflexivity.
    destruct (scan_group_context true _ _ _ _ _ _ Hr Hin)
      as (before & wa & wb & after & -> & Ha%lang_seq_eps & _ & Hb).
  simpl in Hb. subst wb.
    exists before, wa, after. split; [by push_app | done].
Qed.

(** [font.strip()] and then the [strip] of the quotes: blanks go at both
    ends, then quotes at both ends, and what is left neither starts nor ends
    with a quote. *)
Lemma clean_family_spec font :
  ∃ a q1 q2 b,
    font = a +:+ q1 +:+ clean_family font +:+ q2 +:+ b
    ∧ Str.all Str.is_space a = true ∧ Str.all Str.is_space b = true
    ∧ Str.all Pat.quote q1 = true ∧ Str.all Pat.quote q2 = true
    ∧ Str.trimmed Pat.quote (clean_family font).
Proof.
  unfold clean_family.
  destruct (strip_spec Str.is_space font) as (a & b & Hf & Ha & Hb & _).
  destruct (strip_spec Pat.quote (Str.strip Str.is_space font))
    as (q1 & q2 & Hq & Hq1 & Hq2 & Htrim).
  exists a, q1, q2, b. split; [|done].
  rewrite Hf at 1. rewrite Hq at 1. by rewrite !app_assoc_str.
Qed.

(** C5. [extract_fonts] returns a list without duplicates, in lexicographic
    order.  Its elements are the non-empty texts obtained from a
    [font-family] value of an inline style or a style block by cutting the
    value at its commas and removing, from each piece, the blanks and then
    the quotes at both ends, together with the non-empty names, blanks
    removed, that follow the [font-family] property anywhere inside an
    [@font-face] rule of a style block. *)
Theorem extract_fonts_spec (SO : SetOrder) (page : string) (t : nat)
    (doc : list element) (html : option string) (base : string) :
  let self := Extractor page t (Some doc) html base in
  NoDup (extract_fonts self)
  ∧ StronglySorted String.le (extract_fonts self)
  ∧ (∀ f, f ∈ extract_fonts self ↔
       (∃ style family, style ∈ inline_styles doc
          ∧ family ∈ Re.findall_i Pat.font_family_inline_re style
          ∧ family_font family f)
       ∨ (∃ content family, content ∈ style_blocks doc
            ∧ family ∈ Re.findall_i Pat.font_family_block_re content
            ∧ family_font family f)
       ∨ (∃ content name, content ∈ style_blocks doc
            ∧ name ∈ Re.findall_i Pat.font_face_re content
            ∧ face_font name f))
  ∧ (∀ family,
       Str.join "," (Str.split ","%char family) = family
       ∧ Forall (fun font => Str.contains ","%char font = false)
           (Str.split ","%char family))
  ∧ (∀ font, ∃ a q1 q2 b,
       font = a +:+ q1 +:+ clean_family font +:+ q2 +:+ b
       ∧ Str.all Str.is_space a = true ∧ Str.all Str.is_space b = true
       ∧ Str.all Pat.quote q1 = true ∧ Str.all Pat.quote q2 = true
       ∧ Str.trimmed Pat.quote (clean_family font))
  ∧ (∀ name, Str.trimmed Str.is_space (Str.strip Str.is_space name))
  ∧ (∀ content name, name ∈ Re.findall_i Pat.font_face_re content →
       ∃ before decl after,
         content = before +:+ decl +:+ name +:+ after
         ∧ Re.lang true Pat.font_face_head decl)
  ∧ extract_fonts (Extractor page t (Some fonts_example_doc) html base)
    = ["Arial"; "Open Sans"]
  ∧ extract_fonts (Extractor page t (Some font_face_example_doc) html base)
    = ["My Font"].
Proof.
  intros self. repeat split.
  - unfold extract_fonts. simpl. apply NoDup_sorted, set_to_list_NoDup.
  - apply sorted_StronglySorted.
  - unfold extract_fonts. simpl.
    rewrite elem_of_sorted, set_to_list_elem. apply elem_of_raw_fonts.
  - unfold extract_fonts. simpl.
    rewrite elem_of_sorted, set_to_list_elem. apply elem_of_raw_fonts.
  - apply join_split.
  - apply split_no_sep.
  - apply clean_family_spec.
  - by destruct (strip_spec Str.is_space name) as (? & ? & _ & _ & _ & [? ?]).
  - by destruct (strip_spec Str.is_space name) as (? & ? & _ & _ & _ & [? ?]).
  - apply font_face_context.
  - rewrite (extract_fonts_any_order SO elements_order). vm_compute. reflexivity.
  - rewrite (extract_fonts_any_order SO elements_order). vm_compute. reflexivity.
Qed.


(** ** The archive *)

Section archive_facts.
Context {World : Type} {Net : Network World}.

Lemma add_file_spec c (z : zip_state World) u :
  ∃ r, attempts (add_file c z u) = attempts z ++ [Attempt c u r]
       ∧ entries (add_file c z u)
         = entries z ++ option_list (entry_of (Attempt c u r)).
Proof.
  unfold add_file. destruct (download_file u (world z)) as [[[content ct]|] w].
  - by exists (Some content).
  - exists None. simpl. by rewrite app_nil_r.
Qed.

(** One loop asks for the first [cap] URLs of its list, in order, and
    writes one entry for each download that succeeded. *)
Lemma add_category_spec c urls (z : zip_state World) :
  ∃ new, attempts (add_category c urls z) = attempts z ++ new
         ∧ asked <$> new = (fun u => (c, u)) <$> take (cap c) urls
         ∧ entries (add_category c urls z) = entries z ++ omap entry_of new.
Proof.
  unfold add_category. generalize (take (cap c) urls) as l. clear urls.
  intros l. revert z. induction l as [|u l IH]; intros z; simpl.
  - exists []. by rewrite !app_nil_r.
  - destruct (add_file_spec c z u) as (r & Ha & He).
    destruct (IH (add_file c z u)) as (new & Ha' & Hasked & He').
    exists (Attempt c u r :: new). rewrite Ha', Ha, He', He, <- !app_assoc.
    split; [done|]. split; [by rewrite fmap_cons, Hasked|].
    simpl. unfold entry_of at 2. simpl. by destruct r.
Qed.

Lemma write_archive_attempts html css js images others (w : World) :
  let z := write_archive html css js images others w in
  asked <$> attempts z
  = ((fun u => (Css, u)) <$> take 20 css)
    ++ ((fun u => (Js, u)) <$> take 20 js)
    ++ ((fun u => (Images, u)) <$> take 30 images)
    ++ ((fun u => (Others, u)) <$> take 10 others)
  ∧ entries z = ("index.html", html) :: omap entry_of (attempts z).
Proof.
  unfold write_archive.
  set (z0 := ZipState [("index.html", html)] [] [] w).
  destruct (add_category_spec Css css z0) as (n1 & A1 & K1 & E1).
  set (z1 := add_category Css css z0) in *.
  destruct (add_category_spec Js js z1) as (n2 & A2 & K2 & E2).
  set (z2 := add_category Js js z1) in *.
  destruct (add_category_spec Images images z2) as (n3 & A3 & K3 & E3).
  set (z3 := add_category Images images z2) in *.
  destruct (add_category_spec Others others z3) as (n4 & A4 & K4 & E4).
  set (z4 := add_category Others others z3) in *.
  simpl. rewrite A4, A3, A2, A1, E4, E3, E2, E1. simpl.
  rewrite !fmap_app, K1, K2, K3, K4, !omap_app, <- !app_assoc. done.
Qed.

Lemma length_omap_entry_of (l : list attempt) :
  length (omap entry_of l) + length (filter failed l) = length l.
Proof.
  induction l as [|[c u [content|]] l IH]; [done| |].
  - rewrite filter_cons_False by (intros []). simpl. f_equal. exact IH.
  - rewrite filter_cons_True by exact I. simpl. rewrite Nat.add_succ_r.
    f_equal. exact IH.
Qed.

End archive_facts.

Section archive_claims.
Context {World : Type} {Net : Network World} {HC : HostCheck} {SO : SetOrder}.

Lemma entries_of_category (c : category) (l : list attempt) :
  Forall (fun a => at_category a = c) l →
  Forall (fun e => Str.startswith (fst e) (folder c +:+ "/") = true)
    (omap entry_of l).
Proof.
  induction 1 as [|[c' u [content|]] l Hc _ IH]; simpl in *; [constructor| |done].
  subst c'. constructor; [|done]. simpl. unfold entry_name.
  by destruct c.
Qed.

(** C6. The archive starts with the entry [index.html]; the downloads
    attempted are the first 20 style sheets, the first 20 scripts, the first
    30 images and the first 10 other files, in this order; every attempt that
    succeeded left one entry and every attempt that failed left none; the
    endpoint returns the archive whenever the page was fetched and its
    resources were extracted, whatever the downloads did; with 25 style
    sheets and nothing else, 20 are attempted, and when 3 of them fail the
    archive is [index.html] followed by 17 entries under [css/]. *)
Theorem download_all_files_spec (html : string)
    (css js images others : list string) (w : World) :
  let z := write_archive html css js images others w in
  asked <$> attempts z
  = ((fun u => (Css, u)) <$> take 20 css)
    ++ ((fun u => (Js, u)) <$> take 20 js)
    ++ ((fun u => (Images, u)) <$> take 30 images)
    ++ ((fun u => (Others, u)) <$> take 10 others)
  ∧ entries z = ("index.html", html) :: omap entry_of (attempts z)
  ∧ length (entries z) + length (filter failed (attempts z))
    = 1 + length (attempts z)
  ∧ (∀ url w0 self self',
       init url = Some self →
       fetch_html self w0 = (Returned html, self', w) →
       extract_css_files self' = Some css →
       extract_js_files self' = Some js →
       extract_images self' = Some images →
       extract_other_files self' = Some others →
       download_all_files url w0 = (Some z, world z))
  ∧ (length css = 25 → js = [] → images = [] → others = [] →
     length (attempts z) = 20
     ∧ (length (filter failed (attempts z)) = 3 →
        ∃ stored, entries z = ("index.html", html) :: stored
                  ∧ length stored = 17
                  ∧ Forall (fun e => Str.startswith (fst e) "css/" = true)
                      stored)).
Proof.
  intros z. destruct (write_archive_attempts html css js images others w)
    as [Hasked Hentries]. fold z in Hasked, Hentries.
  split; [done|]. split; [done|]. split; [|split].
  - rewrite Hentries. simpl.
    pose proof (length_omap_entry_of (attempts z)). lia.
  - intros url w0 self self' Hinit Hfetch Hcss Hjs Himg Hoth.
    unfold download_all_files. by rewrite Hinit, Hfetch, Hcss, Hjs, Himg, Hoth.
  - intros Hlen -> -> ->. simpl in Hasked. rewrite !app_nil_r in Hasked.
    assert (length (attempts z) = 20) as Hatt.
    { rewrite <- (length_fmap asked), Hasked, length_fmap, length_take. lia. }
    split; [done|]. intros Hfailed.
    exists (omap entry_of (attempts z)). split; [done|]. split.
    + pose proof (length_omap_entry_of (attempts z)). lia.
    + apply (entries_of_category Css). apply Forall_forall. intros a Ha.
      assert (asked a ∈ (fun u => (Css, u)) <$> take 20 css) as Hin.
      { rewrite <- Hasked. by apply list_elem_of_fmap_2. }
      apply list_elem_of_fmap in Hin as (u & Hu & _).
      unfold asked in Hu. congruence.
Qed.

End archive_claims.


(** ** Reference resolution *)

Section resolution.
Context {HC : HostCheck}.
Import Url.

Lemma split_scheme_explicit d u s r :
  split_scheme "" u = (s, r) → s ≠ "" → split_scheme d u = (s, r).
Proof.
  unfold split_scheme. destruct (Str.contains ":" u); [|by intros [= <- _]].
  destruct (Str.cut (Str.is_char ":") u) as [pre rest'].
  destruct pre as [|c0 pre']; [by intros [= <- _]|].
  destruct (Str.is_alpha c0 && Str.all scheme_chars (String c0 pre'));
    [done | by intros [= <- _]].
Qed.

(** A reference that carries its own scheme is parsed in the same way
    whatever the default scheme. *)
Lemma urlparse_explicit_scheme ref d u :
  urlparse ref "" = Some u → scheme u ≠ "" → urlparse ref d = Some u.
Proof.
  unfold urlparse, urlsplit.
  change (remove_unsafe (Str.strip c0_or_space "")) with "".
  destruct (split_scheme "" (remove_unsafe (Str.lstrip c0_or_space ref)))
    as [s r] eqn:Hs.
  intros Hu Hne.
  assert (s ≠ "") as Hs'.
  { intros ->. apply Hne. revert Hu. clear.
    repeat (case_match; simplify_eq/=; try done); by intros [= <-]. }
  by rewrite (split_scheme_explicit _ _ _ _ Hs Hs').
Qed.

Lemma uses_relative_netloc s : mem s uses_relative = true → mem s uses_netloc = true.
Proof.
  unfold mem at 1. intros (x & Hx & ->%String.eqb_eq)%existsb_exists.
  unfold uses_relative in Hx. simpl in Hx.
  repeat (destruct Hx as [<-|Hx]; [reflexivity|]). done.
Qed.


End resolution.


(** ** The models of [urllib.parse] and [re] on sample inputs

    The values on the right are those of the Python library. *)

Section library_examples.
#[local] Existing Instance no_bracketed_hosts.

Example urljoin_example_1 :
  Url.urljoin "https://x.com/dir/page.html" "../b.css?x=1#f"
  = Some "https://x.com/b.css?x=1#f".
Proof. vm_compute. reflexivity. Qed.

Example urljoin_example_2 :
  Url.urljoin "https://x.com/dir/page.html" "//cdn.y.org/z.js"
  = Some "https://cdn.y.org/z.js".
Proof. vm_compute. reflexivity. Qed.

Example urljoin_example_3 :
  Url.urljoin "https://x.com/dir/page.html" "HTTP://Other.com/a/../b"
  = Some "HTTP://Other.com/a/../b".
Proof. vm_compute. reflexivity. Qed.

Example urljoin_example_4 :
  Url.urljoin "https://x.com/dir/page.html" "?q"
  = Some "https://x.com/dir/page.html?q".
Proof. vm_compute. reflexivity. Qed.

Example urljoin_example_5 :
  Url.urljoin "https://x.com/dir/page.html" "a/./b/../../c;p"
  = Some "https://x.com/dir/c;p".
Proof. vm_compute. reflexivity. Qed.

Example urljoin_example_6 :
  Url.urljoin "https://x.com/dir/page.html" "https:b.css"
  = Some "https://x.com/dir/b.css".
Proof. vm_compute. reflexivity. Qed.

Example urljoin_example_7 :
  Url.urljoin "https://x.com/dir/page.html" "mailto:a@b"
  = Some "mailto:a@b".
Proof. vm_compute. reflexivity. Qed.

Example urljoin_example_8 :
  Url.urljoin "https://x.com/dir/page.html" "x//y///z"
  = Some "https://x.com/dir/x/y/z".
Proof. vm_compute. reflexivity. Qed.

Example urljoin_example_9 :
  Url.urljoin "https://x.com/dir/page.html" "../../.."
  = Some "https://x.com/".
Proof. vm_compute. reflexivity. Qed.

Example urljoin_example_10 :
  Url.urljoin "https://x.com/dir/page.html" " sp.css"
  = Some "https://x.com/dir/sp.css".
Proof. vm_compute. reflexivity. Qed.

Example urljoin_example_11 :
  Url.urljoin "https://x.com" "a.css"
  = Some "https://x.com/a.css".
Proof. vm_compute. reflexivity. Qed.

Example urljoin_example_12 :
  Url.urljoin "x.com/a" "/a.css"
  = Some "/a.css".
Proof. vm_compute. reflexivity. Qed.

Example urljoin_example_raises :
  Url.urljoin "https://x.com/dir/page.html" "//[bad/z.js" = None.
Proof. vm_compute. reflexivity. Qed.

Example import_re_example :
  Re.findall Pat.import_re
    "@import 'a.css'; @import  'b.css' x @import'c' @IMPORT 'f'"
  = ["a.css"; "b.css"].
Proof. vm_compute. reflexivity. Qed.

Example srcset_abs_re_example :
  Re.findall Pat.srcset_abs_re
    "a.png 1x, https://x.com/b.png 2x,http://y/c.jpg,https:/bad, HTTPS://no,,https://"
  = ["https://x.com/b.png"; "http://y/c.jpg"].
Proof. vm_compute. reflexivity. Qed.

Example srcset_tok_re_example :
  Re.findall Pat.srcset_tok_re
    "  a.webp   b.png 2x ,, c "
  = ["a.webp"; "b.png"; "2x"; "c"].
Proof. vm_compute. reflexivity. Qed.

Example bg_url_re_example :
  Re.findall Pat.bg_url_re
    "background:url(a.png);x: url('b.jpg') ; url( 'c.gif' ) url() url(d.svg') URL(e.png)"
  = ["a.png"; "b.jpg"; "d.svg"].
Proof. vm_compute. reflexivity. Qed.

Example hex_pattern_example :
  Re.findall Pat.hex_pattern
    "color:#FFF;background:#112233; #abcd #abcdef0 #12 #1234567 #fff- #ggg #abc#def"
  = ["FFF"; "112233"; "fff"; "abc"; "def"].
Proof. vm_compute. reflexivity. Qed.

Example rgb_pattern_example :
  Re.findall_i Pat.rgb_pattern
    "rgb(1, 2, 3) RGB( 10,20 ,30 ) rgb (1,2,3) rgb(1,2) rgba(1,2,3,0.5)"
  = ["rgb(1, 2, 3)"; "RGB( 10,20 ,30 )"; "rgb (1,2,3)"].
Proof. vm_compute. reflexivity. Qed.

Example rgba_pattern_example :
  Re.findall_i Pat.rgba_pattern
    "rgba(1,2,3,0.5) rgba(1,2,3,.5.5) rgba(1,2,3) Rgba (1 , 2 , 3 , 1 )"
  = ["rgba(1,2,3,0.5)"; "rgba(1,2,3,.5.5)"; "Rgba (1 , 2 , 3 , 1 )"].
Proof. vm_compute. reflexivity. Qed.

Example hsl_pattern_example :
  Re.findall_i Pat.hsl_pattern
    "hsl(1, 2%, 3%) HSL( 10,20% ,30% ) hsl(1,2,3) hsl(1,2 %,3%)"
  = ["hsl(1, 2%, 3%)"; "HSL( 10,20% ,30% )"].
Proof. vm_compute. reflexivity. Qed.

Example font_family_inline_re_example :
  Re.findall_i Pat.font_family_inline_re
    "color:red; FONT-FAMILY :Helvetica Neue , sans-serif ;font-family:;font-family: x}y"
  = ["Helvetica Neue , sans-serif "; "x}y"].
Proof. vm_compute. reflexivity. Qed.

Example font_family_block_re_example :
  Re.findall_i Pat.font_family_block_re
    ".a{font-family: A, 'B C' } .b{font-family:x;}"
  = ["A, 'B C' "; "x"].
Proof. vm_compute. reflexivity. Qed.

Example font_face_re_example :
  Re.findall_i Pat.font_face_re
    "@font-face { src: url(x.woff); font-family: 'My Font'; font-family: Other } @font-face{font-family:Z} @font-face { src: url(x) } .b { font-family: Q }"
  = ["Other "; "Z"].
Proof. vm_compute. reflexivity. Qed.

Example bare_hex_re_abc :
  Re.matches Pat.bare_hex_re "abc" = true.
Proof. vm_compute. reflexivity. Qed.

Example bare_hex_re_ABCDEF :
  Re.matches Pat.bare_hex_re "ABCDEF" = true.
Proof. vm_compute. reflexivity. Qed.

Example bare_hex_re_12 :
  Re.matches Pat.bare_hex_re "12" = false.
Proof. vm_compute. reflexivity. Qed.

Example bare_hex_re_1234567 :
  Re.matches Pat.bare_hex_re "1234567" = false.
Proof. vm_compute. reflexivity. Qed.

Example bare_hex_re_abcg :
  Re.matches Pat.bare_hex_re "abcg" = false.
Proof. vm_compute. reflexivity. Qed.

Example bare_hex_re_abcd :
  Re.matches Pat.bare_hex_re "abcd" = true.
Proof. vm_compute. reflexivity. Qed.

End library_examples.


(** ** The properties on example pages *)

Section examples.
#[local] Existing Instance no_bracketed_hosts.
#[local] Existing Instance elements_order.
#[local] Existing Instance example_network.

(** C2 as stated fails: the URL of a style sheet link that ends in [.woff]
    is in the style sheet list and in the list of other files. *)
Lemma css_and_other_overlap :
  extract_css_files (example_extractor font_link_doc)
  = Some ["https://x.com/dir/fonts/a.woff"]
  ∧ extract_other_files (example_extractor font_link_doc)
    = Some ["https://x.com/dir/fonts/a.woff"].
Proof. split; vm_compute; reflexivity. Qed.

Lemma extract_lists_NoDup_witness :
  extract_css_files (example_extractor font_link_doc)
  = Some ["https://x.com/dir/fonts/a.woff"]
  ∧ NoDup ["https://x.com/dir/fonts/a.woff"].
Proof.
  assert (extract_css_files (example_extractor font_link_doc)
          = Some ["https://x.com/dir/fonts/a.woff"]) as Hcss
    by (vm_compute; reflexivity).
  split; [exact Hcss|].
  exact (extract_lists_NoDup elements_order (example_extractor font_link_doc)
           ["https://x.com/dir/fonts/a.woff"] (or_introl Hcss)).
Defined.

Lemma srcset_asymmetry_witness :
  soup (example_extractor srcset_doc) = Some srcset_doc
  ∧ (Str.startswith "https://cdn.x/c.PNG?x" "http://" = true
     ∨ Str.startswith "https://cdn.x/c.PNG?x" "https://" = true)
  ∧ (∀ images, extract_images (example_extractor srcset_doc) = Some images →
               "https://cdn.x/c.PNG?x" ∈ images).
Proof.
  split; [reflexivity|].
  assert ("https://cdn.x/c.PNG?x" ∈ img_srcset_urls srcset_doc) as Hu.
  { apply list_elem_of_In. vm_compute. left. reflexivity. }
  destruct (proj1 (srcset_asymmetry (example_extractor srcset_doc) srcset_doc
                     eq_refl) _ Hu) as (Hprefix & _ & Hin).
  split; [exact Hprefix | exact Hin].
Defined.

Example extract_images_srcset_doc :
  extract_images (example_extractor srcset_doc)
  = Some ["https://cdn.x/c.PNG?x"; "https://x.com/f.JPG";
          "https://x.com/dir/a.png"; "https://x.com/dir/d.webp"].
Proof. vm_compute. reflexivity. Qed.

Lemma extract_without_soup_witness :
  soup (Extractor example_page 30 None None "https://x.com") = None
  ∧ extract_css_files (Extractor example_page 30 None None "https://x.com")
    = Some []
  ∧ extract_colors (Extractor example_page 30 None None "https://x.com") = [].
Proof.
  split; [reflexivity|].
  destruct (extract_without_soup elements_order
              (Extractor example_page 30 None None "https://x.com") eq_refl)
    as (Hcss & _ & _ & _ & Hcolors & _).
  split; [exact Hcss | exact Hcolors].
Defined.


Lemma download_all_files_spec_witness :
  length example_css_files = 25
  ∧ length (filter failed
              (attempts (write_archive "<html></html>" example_css_files
                           [] [] [] ()))) = 3
  ∧ ∃ stored,
      entries (write_archive "<html></html>" example_css_files [] [] [] ())
      = ("index.html", "<html></html>") :: stored
      ∧ length stored = 17
      ∧ Forall (fun e => Str.startswith (fst e) "css/" = true) stored.
Proof.
  assert (length (filter failed
                    (attempts (write_archive (Net := example_network)
                                 "<html></html>" example_css_files
                                 [] [] [] ()))) = 3) as Hfailed
    by (vm_compute; reflexivity).
  split; [reflexivity|]. split; [exact Hfailed|].
  exact (proj2 (proj2 (proj2 (proj2 (proj2
           (download_all_files_spec (Net := example_network) "<html></html>"
              example_css_files [] [] [] ())))) eq_refl eq_refl eq_refl
           eq_refl) Hfailed).
Defined.

End examples.


(** * Further properties *)

#[local] Set Warnings "-clear-no-such-hyp".

(** ** Path tree: what an insertion changes *)

Lemma insert_parts_cons part part' rest url m :
  insert_parts (part :: part' :: rest) url m
  = match m !! part with
    | None => <[part := Dir (insert_parts (part' :: rest) url ∅)]> m
    | Some (Dir d) => <[part := Dir (insert_parts (part' :: rest) url d)]> m
    | Some (Leaf _) => insert_parts (part' :: rest) url m
    end.
Proof. reflexivity. Qed.

(** Two insertions along the same segments: the second alone decides. *)
Lemma insert_parts_same_path (parts : list string) (url1 url2 : string)
    (m : gmap string node) :
  insert_parts parts url2 (insert_parts parts url1 m)
  = insert_parts parts url2 m.
Proof.
  revert m. induction parts as [|part rest IH]; intros m; [done|].
  destruct rest as [|part' rest'].
  - simpl. apply insert_insert_eq.
  - rewrite !insert_parts_cons.
    destruct (m !! part) as [[v|d]|] eqn:Hpart.
    + destruct (insert_parts_keeps_leaf (part' :: rest') url1 m part v Hpart)
        as (v' & -> & _).
      apply IH.
    + rewrite lookup_insert_eq, insert_insert_eq. by rewrite IH.
    + rewrite lookup_insert_eq, insert_insert_eq. by rewrite IH.
Qed.

Lemma split_not_nil c s : Str.split c s ≠ [].
Proof. apply split_nonempty. Qed.

(** The URL just inserted is a file of the tree. *)
Lemma leaf_in_insert_parts_new parts url m :
  parts ≠ [] → leaf_in (insert_parts parts url m) url.
Proof.
  revert m. induction parts as [|part rest IH]; intros m Hne; [done|].
  destruct rest as [|part' rest'].
  - simpl. eapply leaf_here. apply lookup_insert_eq.
  - rewrite insert_parts_cons.
    destruct (m !! part) as [[v|d]|] eqn:Hpart.
    + by apply IH.
    + eapply leaf_below; [apply lookup_insert_eq | by apply IH].
    + eapply leaf_below; [apply lookup_insert_eq | by apply IH].
Qed.

(** An insertion leaves alone every top-level key that is not one of the
    segments, and removes no top-level key. *)
Lemma insert_parts_other_key parts url m k :
  k ∉ parts → insert_parts parts url m !! k = m !! k.
Proof.
  revert m. induction parts as [|part rest IH]; intros m Hk; [done|].
  apply not_elem_of_cons in Hk as [Hne Hk].
  destruct rest as [|part' rest'].
  - simpl. by rewrite lookup_insert_ne.
  - rewrite insert_parts_cons.
    destruct (m !! part) as [[v|d]|] eqn:Hpart.
    + by apply IH.
    + by rewrite lookup_insert_ne.
    + by rewrite lookup_insert_ne.
Qed.

Lemma insert_parts_keeps_key parts url m k :
  is_Some (m !! k) → is_Some (insert_parts parts url m !! k).
Proof.
  revert m. induction parts as [|part rest IH]; intros m Hk; [done|].
  destruct rest as [|part' rest'].
  - simpl. destruct (decide (part = k)) as [->|Hne].
    + rewrite lookup_insert_eq. eauto.
    + by rewrite lookup_insert_ne.
  - rewrite insert_parts_cons.
    destruct (m !! part) as [[v|d]|] eqn:Hpart.
    + by apply IH.
    + destruct (decide (part = k)) as [->|Hne].
      * rewrite lookup_insert_eq. eauto.
      * by rewrite lookup_insert_ne.
    + destruct (decide (part = k)) as [->|Hne].
      * rewrite lookup_insert_eq. eauto.
      * by rewrite lookup_insert_ne.
Qed.

Lemma key_in_empty k : ¬ key_in ∅ k.
Proof. inversion 1; simplify_map_eq. Qed.

Lemma key_in_insert m k0 n k :
  key_in (<[k0 := n]> m) k →
  k = k0 ∨ (∃ d, n = Dir d ∧ key_in d k) ∨ key_in m k.
Proof.
  inversion 1 as [m' k' n' Hk | m' k' d k'' Hk Hd]; subst.
  - destruct (decide (k0 = k)) as [->|Hne]; [by left|].
    rewrite lookup_insert_ne in Hk by done. right; right. by eapply key_here.
  - destruct (decide (k0 = k')) as [->|Hne].
    + rewrite lookup_insert_eq in Hk. right; left. exists d. split; congruence.
    + rewrite lookup_insert_ne in Hk by done.
      right; right. by eapply key_below.
Qed.

(** An insertion adds no key other than its segments, at any depth. *)
Lemma key_in_insert_parts parts url m k :
  key_in (insert_parts parts url m) k → k ∈ parts ∨ key_in m k.
Proof.
  revert m. induction parts as [|part rest IH]; intros m Hin; [by right|].
  destruct rest as [|part' rest'].
  - simpl in Hin. apply key_in_insert in Hin as [->|[(d & Heq & _)|Hm]];
      [left; apply list_elem_of_here | done | by right].
  - rewrite insert_parts_cons in Hin.
    destruct (m !! part) as [[v|d]|] eqn:Hpart.
    + apply IH in Hin as [Hin|Hin]; [|by right].
      left. by apply list_elem_of_further.
    + apply key_in_insert in Hin as [->|[(d' & Heq & Hd')|Hm]];
        [left; apply list_elem_of_here | | by right].
      injection Heq as <-. apply IH in Hd' as [Hd'|Hd'].
      * left. by apply list_elem_of_further.
      * right. by eapply key_below.
    + apply key_in_insert in Hin as [->|[(d' & Heq & Hd')|Hm]];
        [left; apply list_elem_of_here | | by right].
      injection Heq as <-. apply IH in Hd' as [Hd'|Hd'].
      * left. by apply list_elem_of_further.
      * by apply key_in_empty in Hd'.
Qed.

(** With no file on the way, the inserted URL is found by following its
    segments. *)
Lemma lookup_path_insert_parts parts url m :
  parts ≠ [] → clear_path parts m →
  lookup_path parts (insert_parts parts url m) = Some (Leaf url).
Proof.
  revert m. induction parts as [|part rest IH]; intros m Hne Hclear; [done|].
  destruct rest as [|part' rest'].
  - simpl. apply lookup_insert_eq.
  - rewrite insert_parts_cons.
    change (clear_path (part :: part' :: rest') m) with
      (match m !! part with
       | None => True
       | Some (Dir d) => clear_path (part' :: rest') d
       | Some (Leaf _) => False
       end) in Hclear.
    destruct (m !! part) as [[v|d]|] eqn:Hpart; [done| |].
    + change (lookup_path (part :: part' :: rest') ?t) with
        (match t !! part with
         | Some (Dir d) => lookup_path (part' :: rest') d
         | _ => None
         end).
      rewrite lookup_insert_eq. by apply IH.
    + change (lookup_path (part :: part' :: rest') ?t) with
        (match t !! part with
         | Some (Dir d) => lookup_path (part' :: rest') d
         | _ => None
         end).
      rewrite lookup_insert_eq. apply IH; [done|]. by destruct rest'.
Qed.

Section path_tree_extras.
Context {HC : HostCheck}.

(** X1. The tree is keyed by path alone: when two URLs have the same
    stripped path (whatever their hosts and queries), adding the second
    after the first gives the same tree as adding the second only. *)
Theorem add_url_same_path (s : gmap string node) (url1 url2 : string) :
  stripped_path url1 = stripped_path url2 →
  add_url (add_url s url1) url2 = add_url s url2.
Proof.
  intros Hsame. unfold add_url. rewrite Hsame.
  destruct (stripped_path url2) as [p|]; [|done].
  destruct (Str.is_empty p); [done|]. apply insert_parts_same_path.
Qed.

(** X2. A URL with a non-empty stripped path is a file of the tree right
    after it was added; so the last such URL of the input list is always a
    file of the result. *)
Theorem add_url_leaf (s : gmap string node) (url p : string)
    (urls : list string) :
  stripped_path url = Some p → p ≠ "" →
  leaf_in (add_url s url) url
  ∧ leaf_in (build_file_structure (urls ++ [url])) url.
Proof.
  intros Hp Hne.
  assert (∀ s', leaf_in (add_url s' url) url) as Hleaf.
  { intros s'. unfold add_url. rewrite Hp.
    destruct (Str.is_empty p) eqn:He; [by apply is_empty_spec in He|].
    apply leaf_in_insert_parts_new, split_not_nil. }
  split; [done|]. unfold build_file_structure. rewrite fold_left_app. apply Hleaf.
Qed.

(** X3. Adding a URL removes no top-level key, and leaves every top-level
    entry whose key is not a segment of the URL's path exactly as it was. *)
Theorem add_url_frame (s : gmap string node) (url k : string) :
  (is_Some (s !! k) → is_Some (add_url s url !! k))
  ∧ ((∀ p, stripped_path url = Some p → k ∉ Str.split "/"%char p) →
     add_url s url !! k = s !! k).
Proof.
  unfold add_url. split.
  - intros Hk. destruct (stripped_path url) as [p|]; [|done].
    destruct (Str.is_empty p); [done|]. by apply insert_parts_keeps_key.
  - intros Hk. destruct (stripped_path url) as [p|]; [|done].
    destruct (Str.is_empty p); [done|]. apply insert_parts_other_key. by apply Hk.
Qed.

Lemma key_in_fold urls s k :
  key_in (fold_left add_url urls s) k →
  key_in s k
  ∨ ∃ url p, url ∈ urls ∧ stripped_path url = Some p ∧ p ≠ ""
             ∧ k ∈ Str.split "/"%char p.
Proof.
  revert s. induction urls as [|url urls IH]; intros s Hin; [by left|].
  simpl in Hin. apply IH in Hin as [Hin|(url' & p & Hu & Hp & Hne & Hk)].
  - unfold add_url in Hin. destruct (stripped_path url) as [p|] eqn:Hp; [|by left].
    destruct (Str.is_empty p) eqn:He; [by left|].
    apply key_in_insert_parts in Hin as [Hin|Hin]; [|by left].
    right. exists url, p. split; [apply list_elem_of_here|].
    split; [done|]. split; [|done]. intros ->. done.
  - right. exists url', p. split; [by apply list_elem_of_further | done].
Qed.

(** X4. Every key of the result, at any depth, is a segment of the stripped
    path of one of the input URLs. *)
Theorem build_file_structure_keys (file_urls : list string) (k : string) :
  key_in (build_file_structure file_urls) k →
  ∃ url p, url ∈ file_urls ∧ stripped_path url = Some p ∧ p ≠ ""
           ∧ k ∈ Str.split "/"%char p.
Proof.
  intros Hk. apply key_in_fold in Hk as [Hk|Hk]; [|done].
  by apply key_in_empty in Hk.
Qed.

(** X5. When no file of the tree stands on the way of a URL's path, the URL
    is found after its insertion by following the segments of its path. *)
Theorem add_url_lookup_path (s : gmap string node) (url p : string) :
  stripped_path url = Some p → p ≠ "" →
  clear_path (Str.split "/"%char p) s →
  lookup_path (Str.split "/"%char p) (add_url s url) = Some (Leaf url).
Proof.
  intros Hp Hne Hclear. unfold add_url. rewrite Hp.
  destruct (Str.is_empty p) eqn:He; [by apply is_empty_spec in He|].
  apply lookup_path_insert_parts; [apply split_not_nil | done].
Qed.

End path_tree_extras.


(** ** The document queries *)

Lemma elem_of_find_all_named name doc e :
  e ∈ find_all_named name doc ↔ e ∈ doc ∧ el_name e = name.
Proof.
  unfold find_all_named. rewrite list_elem_of_filter. unfold named. simpl.
  rewrite orb_false_r, Is_true_true, String.eqb_eq. tauto.
Qed.

Lemma elem_of_find_all_attr attr doc e :
  e ∈ find_all_attr attr doc ↔ e ∈ doc ∧ ∃ v, get e attr = Some v.
Proof.
  unfold find_all_attr. rewrite list_elem_of_filter. unfold has_attr.
  rewrite bool_decide_spec. unfold is_Some. tauto.
Qed.

Lemma elem_of_find_all_rel name wanted doc e :
  e ∈ find_all_rel name wanted doc
  ↔ e ∈ doc ∧ el_name e = name ∧ rel_matches wanted e = true.
Proof.
  unfold find_all_rel. rewrite list_elem_of_filter, andb_True. unfold named.
  simpl. rewrite orb_false_r, !Is_true_true, String.eqb_eq. tauto.
Qed.

Lemma elem_of_truthy_attrs attr els v :
  v ∈ truthy_attrs attr els
  ↔ ∃ e, e ∈ els ∧ get e attr = Some v ∧ v ≠ "".
Proof.
  unfold truthy_attrs. rewrite list_elem_of_filter, list_elem_of_omap.
  rewrite Is_true_true, negb_true_iff. split.
  - intros (Hne & e & Hin & Hv). exists e. split; [done|]. split; [done|].
    intros ->. done.
  - intros (e & Hin & Hv & Hne). split; [by destruct v|]. eauto.
Qed.

Lemma contains_app c s t :
  Str.contains c (s +:+ t) = Str.contains c s || Str.contains c t.
Proof.
  induction s as [|x s IH]; [done|]. rewrite append_cons. simpl.
  by rewrite IH, orb_assoc.
Qed.

Lemma join_space_single l w :
  Str.contains " " w = false → w ≠ "" → Str.join " " l = w → l = [w].
Proof.
  intros Hw Hne Hj. destruct l as [|a [|b t]].
  - simpl in Hj. congruence.
  - simpl in Hj. congruence.
  - exfalso. change (Str.join " " (a :: b :: t))
      with (a +:+ " " +:+ Str.join " " (b :: t)) in Hj.
    rewrite <- Hj, !contains_app in Hw. simpl in Hw.
    by rewrite orb_true_r in Hw.
Qed.

(** A [rel] search for a value without blanks: one of the blank-separated
    values of the attribute is that value. *)
Lemma rel_matches_spec wanted e :
  Str.contains " " wanted = false → wanted ≠ "" →
  rel_matches wanted e = true
  ↔ ∃ v, get e "rel" = Some v ∧ wanted ∈ Str.split_ws v.
Proof.
  intros Hw Hne. unfold rel_matches. destruct (get e "rel") as [v|]; split.
  - intros [Hex|Hj]%orb_true_iff; exists v; (split; [done|]).
    + apply existsb_exists in Hex as (x & Hx%list_elem_of_In & ->%String.eqb_eq).
      done.
    + apply String.eqb_eq in Hj.
      rewrite (join_space_single _ _ Hw Hne Hj). apply list_elem_of_here.
  - intros (v' & [= <-] & Hin). apply orb_true_iff. left.
    apply existsb_exists. exists wanted.
    split; [by apply list_elem_of_In | apply String.eqb_refl].
  - done.
  - by intros (v' & ? & _).
Qed.


(** ** What the four resource operations return *)

Section resource_lists.
Context {HC : HostCheck} {SO : SetOrder}.

Lemma elem_of_join_all self refs l u :
  join_all self refs = Some l →
  u ∈ l ↔ ∃ ref, ref ∈ refs ∧ Url.urljoin (url self) ref = Some u.
Proof. apply elem_of_mapM. Qed.

Lemma elem_of_css_link_refs doc ref :
  ref ∈ css_link_refs doc
  ↔ ∃ link rel, link ∈ doc ∧ el_name link = "link"
       ∧ get link "rel" = Some rel ∧ "stylesheet" ∈ Str.split_ws rel
       ∧ get link "href" = Some ref ∧ ref ≠ "".
Proof.
  unfold css_link_refs. rewrite elem_of_truthy_attrs. split.
  - intros (link & (Hin & Hn & Hrel)%elem_of_find_all_rel & Hhref & Hne).
    apply rel_matches_spec in Hrel as (rel & Hrel & Hst); [|done..].
    by exists link, rel.
  - intros (link & rel & Hin & Hn & Hrel & Hst & Hhref & Hne).
    exists link. split; [|done]. apply elem_of_find_all_rel.
    split; [done|]. split; [done|]. apply rel_matches_spec; [done..|]. eauto.
Qed.

Lemma elem_of_css_import_refs doc ref :
  ref ∈ css_import_refs doc
  ↔ ∃ style, style ∈ doc ∧ el_name style = "style"
       ∧ ref ∈ Re.findall Pat.import_re (style_content style).
Proof.
  unfold css_import_refs. rewrite list_elem_of_bind. split.
  - intros (style & Href & (Hin & Hn)%elem_of_find_all_named). eauto.
  - intros (style & Hin & Hn & Href). exists style. split; [done|].
    by apply elem_of_find_all_named.
Qed.

(** X6. The list of [extract_css_files] holds exactly: the resolved [href]
    of every [link] tag one of whose blank-separated [rel] values is
    [stylesheet] and whose [href] is not empty, and the resolved target of
    every [@import] of a quoted name found in the text of a [style] tag. *)
Theorem extract_css_files_members (self : extractor) (doc : list element)
    (l : list string) (u : string) :
  soup self = Some doc → extract_css_files self = Some l →
  u ∈ l ↔
    (∃ link rel ref, link ∈ doc ∧ el_name link = "link"
       ∧ get link "rel" = Some rel ∧ "stylesheet" ∈ Str.split_ws rel
       ∧ get link "href" = Some ref ∧ ref ≠ ""
       ∧ Url.urljoin (url self) ref = Some u)
    ∨ (∃ style ref, style ∈ doc ∧ el_name style = "style"
         ∧ ref ∈ Re.findall Pat.import_re (style_content style)
         ∧ Url.urljoin (url self) ref = Some u).
Proof.
  intros Hsoup. unfold extract_css_files. rewrite Hsoup.
  destruct (join_all self (css_link_refs doc)) as [links|] eqn:Hl; [|done].
  destruct (join_all self (css_import_refs doc)) as [imports|] eqn:Hi; [|done].
  simpl. intros [= <-]. rewrite elem_of_dedup, elem_of_app.
  rewrite (elem_of_join_all _ _ _ _ Hl), (elem_of_join_all _ _ _ _ Hi). split.
  - intros [(ref & (link & rel & Hin & Hn & Hrel & Hst & Hhref & Hne)%elem_of_css_link_refs & Hj)
           |(ref & (style & Hin & Hn & Href)%elem_of_css_import_refs & Hj)].
    + left. by exists link, rel, ref.
    + right. by exists style, ref.
  - intros [(link & rel & ref & ? & ? & ? & ? & ? & ? & Hj)
           |(style & ref & ? & ? & ? & Hj)].
    + left. exists ref. split; [|done]. apply elem_of_css_link_refs.
      by exists link, rel.
    + right. exists ref. split; [|done]. apply elem_of_css_import_refs.
      by exists style.
Qed.

Lemma elem_of_tag_attr_refs names attr doc ref :
  ref ∈ truthy_attrs attr (find_all_with names attr doc)
  ↔ ∃ e, e ∈ doc ∧ el_name e ∈ names ∧ get e attr = Some ref ∧ ref ≠ "".
Proof.
  rewrite elem_of_truthy_attrs. split.
  - intros (e & (Hin & Hn & _)%elem_of_find_all_with & Hv & Hne). eauto.
  - intros (e & Hin & Hn & Hv & Hne). exists e. split; [|done].
    apply elem_of_find_all_with. eauto.
Qed.

(** X7. The list of [extract_js_files] holds exactly the resolved [src] of
    the [script] tags whose [src] is not empty. *)
Theorem extract_js_files_members (self : extractor) (doc : list element)
    (l : list string) (u : string) :
  soup self = Some doc → extract_js_files self = Some l →
  u ∈ l ↔ ∃ script ref, script ∈ doc ∧ el_name script = "script"
            ∧ get script "src" = Some ref ∧ ref ≠ ""
            ∧ Url.urljoin (url self) ref = Some u.
Proof.
  intros Hsoup. unfold extract_js_files. rewrite Hsoup.
  destruct (join_all self _) as [js|] eqn:Hj; [|done].
  simpl. intros [= <-]. rewrite elem_of_dedup, (elem_of_join_all _ _ _ _ Hj).
  split.
  - intros (ref & (e & Hin & Hn%list_elem_of_singleton & Hv & Hne)%elem_of_tag_attr_refs & Hu).
    by exists e, ref.
  - intros (e & ref & Hin & Hn & Hv & Hne & Hu). exists ref. split; [|done].
    apply elem_of_tag_attr_refs. exists e. rewrite Hn.
    split; [done|]. split; [apply list_elem_of_here | done].
Qed.

Lemma elem_of_background_urls self doc l u :
  background_urls self doc = Some l →
  u ∈ l ↔ ∃ e style ref, e ∈ doc ∧ get e "style" = Some style
            ∧ ref ∈ Re.findall Pat.bg_url_re style
            ∧ Url.urljoin (url self) ref = Some u
            ∧ has_extension image_extensions u = true.
Proof.
  unfold background_urls.
  destruct (join_all self _) as [resolved|] eqn:Hj; [|done].
  simpl. intros [= <-].
  rewrite list_elem_of_filter, (elem_of_join_all _ _ _ _ Hj), Is_true_true.
  split.
  - intros (Hext & ref & (e & Href & (Hin & style & Hs)%elem_of_find_all_attr)%list_elem_of_bind & Hu).
    rewrite (get_or_empty_Some _ _ _ Hs) in Href. by exists e, style, ref.
  - intros (e & style & ref & Hin & Hs & Href & Hu & Hext). split; [done|].
    exists ref. split; [|done]. apply list_elem_of_bind. exists e.
    rewrite (get_or_empty_Some _ _ _ Hs). split; [done|].
    apply elem_of_find_all_attr. eauto.
Qed.

(** X8. The list of [extract_images] holds exactly: the resolved [src] of
    the [img] tags; the absolute tokens of their [srcset], unresolved; the
    resolved tokens of the [srcset] of the [source] tags that end in an image
    extension; and the resolved [url(...)] references of the inline styles
    that end in an image extension.  An [img src] is kept whatever its
    extension. *)
Theorem extract_images_members (self : extractor) (doc : list element)
    (l : list string) (u : string) :
  soup self = Some doc → extract_images self = Some l →
  u ∈ l ↔
    (∃ img ref, img ∈ doc ∧ el_name img = "img"
       ∧ get img "src" = Some ref ∧ ref ≠ ""
       ∧ Url.urljoin (url self) ref = Some u)
    ∨ (∃ img v, img ∈ doc ∧ el_name img = "img"
         ∧ get img "srcset" = Some v
         ∧ u ∈ Re.findall Pat.srcset_abs_re v)
    ∨ (∃ source v tok, source ∈ doc ∧ el_name source = "source"
         ∧ get source "srcset" = Some v
         ∧ tok ∈ Re.findall Pat.srcset_tok_re v
         ∧ Url.urljoin (url self) tok = Some u
         ∧ has_extension image_extensions u = true)
    ∨ (∃ e style ref, e ∈ doc ∧ get e "style" = Some style
         ∧ ref ∈ Re.findall Pat.bg_url_re style
         ∧ Url.urljoin (url self) ref = Some u
         ∧ has_extension image_extensions u = true).
Proof.
  intros Hsoup. unfold extract_images. rewrite Hsoup.
  destruct (join_all self (img_src_refs doc)) as [srcs|] eqn:H1; [|done].
  destruct (source_srcset_urls self doc) as [sources|] eqn:H2; [|done].
  destruct (background_urls self doc) as [bgs|] eqn:H3; [|done].
  simpl. intros [= <-]. rewrite elem_of_dedup, !elem_of_app.
  rewrite (elem_of_join_all _ _ _ _ H1), elem_of_img_srcset_urls,
    (elem_of_source_srcset_urls _ _ _ _ H2), (elem_of_background_urls _ _ _ _ H3).
  unfold img_src_refs. split.
  - intros [(ref & (e & Hin & Hn%list_elem_of_singleton & Hv & Hne)%elem_of_tag_attr_refs & Hu)|[?|[?|?]]];
      [left; by exists e, ref | by right; left | by right; right; left
      | by right; right; right].
  - intros [(e & ref & Hin & Hn & Hv & Hne & Hu)|[?|[?|?]]];
      [left | by right; left | by right; right; left | by right; right; right].
    exists ref. split; [|done]. apply elem_of_tag_attr_refs. exists e.
    rewrite Hn. split; [done|]. split; [apply list_elem_of_here | done].
Qed.

Lemma elem_of_filter_ext exts (refs : list string) ref :
  ref ∈ filter (has_extension exts) refs
  ↔ has_extension exts ref = true ∧ ref ∈ refs.
Proof. by rewrite list_elem_of_filter, Is_true_true. Qed.

(** X9. The list of [extract_other_files] holds exactly: the resolved
    [href] of the [a] tags whose [href], as written, ends in a document,
    archive, font or media extension; the resolved [href] of the [link]
    tags whose [href], as written, ends in a font extension; and the
    resolved [src] of the [video], [audio] and [source] tags.  The extension
    is tested on the reference before resolution. *)
Theorem extract_other_files_members (self : extractor) (doc : list element)
    (l : list string) (u : string) :
  soup self = Some doc → extract_other_files self = Some l →
  u ∈ l ↔
    (∃ a ref, a ∈ doc ∧ el_name a = "a"
       ∧ get a "href" = Some ref ∧ ref ≠ ""
       ∧ has_extension other_extensions ref = true
       ∧ Url.urljoin (url self) ref = Some u)
    ∨ (∃ link ref, link ∈ doc ∧ el_name link = "link"
         ∧ get link "href" = Some ref ∧ ref ≠ ""
         ∧ has_extension font_extensions ref = true
         ∧ Url.urljoin (url self) ref = Some u)
    ∨ (∃ e ref, e ∈ doc ∧ el_name e ∈ ["video"; "audio"; "source"]
         ∧ get e "src" = Some ref ∧ ref ≠ ""
         ∧ Url.urljoin (url self) ref = Some u).
Proof.
  intros Hsoup. unfold extract_other_files. rewrite Hsoup.
  destruct (join_all self (other_anchor_refs doc)) as [l1|] eqn:H1; [|done].
  destruct (join_all self (other_font_refs doc)) as [l2|] eqn:H2; [|done].
  destruct (join_all self (other_video_refs doc)) as [l3|] eqn:H3; [|done].
  destruct (join_all self (other_audio_refs doc)) as [l4|] eqn:H4; [|done].
  simpl. intros [= <-]. rewrite elem_of_dedup, !elem_of_app.
  rewrite (elem_of_join_all _ _ _ _ H1), (elem_of_join_all _ _ _ _ H2),
    (elem_of_join_all _ _ _ _ H3), (elem_of_join_all _ _ _ _ H4).
  unfold other_anchor_refs, other_font_refs, other_video_refs, other_audio_refs.
  split.
  - intros [(ref & [Hext (e & Hin & Hn%list_elem_of_singleton & Hv & Hne)%elem_of_tag_attr_refs]%elem_of_filter_ext & Hu)
           |[(ref & [Hext (e & Hin & Hn%list_elem_of_singleton & Hv & Hne)%elem_of_tag_attr_refs]%elem_of_filter_ext & Hu)
           |[(ref & (e & Hin & Hn & Hv & Hne)%elem_of_tag_attr_refs & Hu)
           |(ref & (e & Hin & Hn & Hv & Hne)%elem_of_tag_attr_refs & Hu)]]].
    + left. by exists e, ref.
    + right; left. by exists e, ref.
    + right; right. exists e, ref. split; [done|]. split; [|done].
      revert Hn. rewrite !elem_of_cons, !elem_of_nil. tauto.
    + right; right. exists e, ref. split; [done|]. split; [|done].
      revert Hn. rewrite !elem_of_cons, !elem_of_nil. tauto.
  - intros [(e & ref & Hin & Hn & Hv & Hne & Hext & Hu)
           |[(e & ref & Hin & Hn & Hv & Hne & Hext & Hu)
           |(e & ref & Hin & Hn & Hv & Hne & Hu)]].
    + left. exists ref. split; [|done]. apply elem_of_filter_ext.
      split; [done|]. apply elem_of_tag_attr_refs. exists e. rewrite Hn.
      split; [done|]. split; [apply list_elem_of_here | done].
    + right; left. exists ref. split; [|done]. apply elem_of_filter_ext.
      split; [done|]. apply elem_of_tag_attr_refs. exists e. rewrite Hn.
      split; [done|]. split; [apply list_elem_of_here | done].
    + apply elem_of_cons in Hn as [Hn|Hn].
      * right; right; left. exists ref. split; [|done].
        apply elem_of_tag_attr_refs. exists e. rewrite Hn.
        split; [done|]. split; [apply list_elem_of_here | done].
      * right; right; right. exists ref. split; [|done].
        apply elem_of_tag_attr_refs. exists e. split; [done|]. split; [|done].
        done.
Qed.

End resource_lists.


(** ** When resolution raises *)

Lemma contains_span_fst c p s :
  Str.contains c (fst (Str.span p s)) = true → Str.contains c s = true.
Proof.
  induction s as [|x s IH]; simpl; [done|].
  destruct (p x); [done|]. destruct (Str.span p s) as [a b]. simpl in *.
  intros [->|H]%orb_true_iff; [done|]. by rewrite IH, orb_true_r.
Qed.

Lemma contains_cut_snd c p s :
  Str.contains c (snd (Str.cut p s)) = true → Str.contains c s = true.
Proof.
  induction s as [|x s IH]; simpl; [done|].
  destruct (p x); simpl.
  - intros ->. apply orb_true_r.
  - destruct (Str.cut p s) as [a b]. simpl in *. intros H.
    by rewrite IH, orb_true_r.
Qed.

Lemma contains_drop c n s :
  Str.contains c (Str.drop n s) = true → Str.contains c s = true.
Proof.
  revert s. induction n as [|n IH]; intros [|x s]; simpl; try done.
  intros H. by rewrite IH, orb_true_r.
Qed.

Lemma contains_filter c p s :
  Str.contains c (Str.filter p s) = true → Str.contains c s = true.
Proof.
  induction s as [|x s IH]; simpl; [done|].
  destruct (p x); simpl.
  - intros [->|H]%orb_true_iff; [done|]. by rewrite IH, orb_true_r.
  - intros H. by rewrite IH, orb_true_r.
Qed.

Lemma contains_lstrip c p s :
  Str.contains c (Str.lstrip p s) = true → Str.contains c s = true.
Proof.
  induction s as [|x s IH]; simpl; [done|].
  destruct (p x); [|done]. intros H. by rewrite IH, orb_true_r.
Qed.

Lemma all_not_contains (q : ascii → bool) c s :
  q c = false → Str.all q s = true → Str.contains c s = false.
Proof.
  intros Hc. induction s as [|x s IH]; [done|]. cbn [Str.all Str.contains].
  intros [Hx Hs]%andb_true_iff. rewrite (IH Hs), orb_false_r.
  destruct (Ascii.eqb_spec x c) as [->|]; [congruence|done].
Qed.

Lemma filter_all_id (q : ascii → bool) s :
  Str.all q s = true → Str.filter q s = s.
Proof.
  induction s as [|x s IH]; [done|]. cbn [Str.all Str.filter].
  intros [-> Hs]%andb_true_iff. by rewrite (IH Hs).
Qed.

Section resolution_errors.
Context {HC : HostCheck}.
Import Url.

Lemma netloc_not_ok_bracket n : netloc_ok n = false → has_bracket n = true.
Proof.
  unfold netloc_ok, bad_brackets, has_bracket.
  destruct (Str.contains "[" n), (Str.contains "]" n); simpl; done.
Qed.

Lemma split_scheme_contains c d u s r :
  split_scheme d u = (s, r) → Str.contains c r = true →
  Str.contains c u = true.
Proof.
  unfold split_scheme. destruct (Str.contains ":" u); [|by intros [= _ <-]].
  destruct (Str.cut (Str.is_char ":") u) as [pre rest'] eqn:Hcut.
  assert (rest' = snd (Str.cut (Str.is_char ":") u)) as Hrest by by rewrite Hcut.
  destruct pre as [|c0 pre']; [by intros [= _ <-]|].
  destruct (Str.is_alpha c0 && Str.all scheme_chars (String c0 pre'));
    [|by intros [= _ <-]].
  intros [= _ <-]. rewrite Hrest. apply contains_cut_snd.
Qed.

Lemma urlparse_None_urlsplit u d : urlparse u d = None → urlsplit u d = None.
Proof.
  unfold urlparse. destruct (urlsplit u d) as [[[[[s n] p] q] f]|]; [|done].
  cbn [mbind option_bind]. by case_match.
Qed.

Lemma all_false_contains (q : ascii → bool) s :
  Str.all q s = false → ∃ c, Str.contains c s = true ∧ q c = false.
Proof.
  induction s as [|x s IH]; [done|]. cbn [Str.all Str.contains].
  destruct (q x) eqn:Hx.
  - intros (c & Hc & Hq)%IH. exists c. by rewrite Hc, orb_true_r.
  - intros _. exists x. by rewrite Ascii.eqb_refl.
Qed.

Lemma contains_all_false (q : ascii → bool) c s :
  Str.contains c s = true → q c = false → Str.all q s = false.
Proof.
  intros Hc Hq. destruct (Str.all q s) eqn:Hall; [|done].
  by rewrite (all_not_contains q c s Hq Hall) in Hc.
Qed.

(** [urlparse] raises only on a text with a square bracket or with a
    character that is not ASCII. *)
Lemma urlparse_None_bracket u d :
  urlparse u d = None → has_bracket u = true ∨ isascii u = false.
Proof.
  intros Hnone%urlparse_None_urlsplit. revert Hnone. unfold urlsplit.
  set (u' := remove_unsafe (Str.lstrip c0_or_space u)).
  destruct (split_scheme _ u') as [s r] eqn:Hs.
  destruct (Str.startswith r "//") eqn:Hstart.
  - unfold splitnetloc. destruct (Str.span netloc_delim (Str.drop 2 r))
      as [n rest'] eqn:Hspan.
    assert (∀ c, Str.contains c n = true → Str.contains c u = true) as Hsub.
    { intros c Hc. apply (contains_lstrip _ c0_or_space).
      apply (contains_filter _ (fun c => negb (unsafe_byte c))).
      apply (split_scheme_contains _ _ _ _ _ Hs).
      apply (contains_drop _ 2). apply (contains_span_fst _ netloc_delim).
      by rewrite Hspan. }
    destruct (netloc_ok n) eqn:Hok.
    + cbn [mbind option_bind]. intros Hnone. right.
      assert (checknetloc n = false) as Hcheck.
      { revert Hnone. by repeat case_match. }
      unfold checknetloc in Hcheck.
      apply orb_false_iff in Hcheck as [[_ Hall]%orb_false_iff _].
      apply all_false_contains in Hall as (c & Hc & Hq).
      exact (contains_all_false _ c u (Hsub c Hc) Hq).
    + intros _. left. apply netloc_not_ok_bracket in Hok.
      unfold has_bracket in *.
      apply orb_true_iff in Hok as [Hc|Hc]; apply Hsub in Hc; rewrite Hc;
        [done | apply orb_true_r].
  - cbn [mbind option_bind]. change (checknetloc "") with true.
    by repeat case_match.
Qed.

(** [urljoin] raises only when the base or the reference has a square
    bracket or a character that is not ASCII. *)
Lemma urljoin_None_bracket base ref :
  urljoin base ref = None →
  (has_bracket base = true ∨ isascii base = false)
  ∨ (has_bracket ref = true ∨ isascii ref = false).
Proof.
  unfold urljoin. destruct (Str.is_empty base); [done|].
  destruct (Str.is_empty ref); [done|].
  destruct (urlparse base "") as [b|] eqn:Hb;
    [|left; by eapply urlparse_None_bracket].
  cbn [mbind option_bind]. destruct (urlparse ref (scheme b)) as [u|] eqn:Hu;
    [|right; by eapply urlparse_None_bracket].
  cbn [mbind option_bind]. by repeat case_match.
Qed.

End resolution_errors.

Section extraction_errors.
Context {HC : HostCheck} {SO : SetOrder}.

Lemma join_all_None self refs :
  join_all self refs = None
  ↔ ∃ ref, ref ∈ refs ∧ Url.urljoin (url self) ref = None.
Proof. unfold join_all. by rewrite mapM_None, Exists_exists. Qed.

Lemma join_all_app_None self refs1 refs2 :
  join_all self (refs1 ++ refs2) = None
  ↔ join_all self refs1 = None ∨ join_all self refs2 = None.
Proof.
  rewrite !join_all_None. setoid_rewrite elem_of_app. naive_solver.
Qed.

Lemma source_srcset_urls_None self doc :
  source_srcset_urls self doc = None
  ↔ ∃ tok, tok ∈ source_srcset_refs doc
           ∧ Url.urljoin (url self) tok = None.
Proof.
  unfold source_srcset_urls, source_srcset_refs.
  destruct (mapM _ _) as [per_tag|] eqn:Hm; simpl.
  - split; [done|]. intros (tok & (source & Htok & Hs)%list_elem_of_bind & Hj).
    exfalso.
    assert (is_Some (source_srcset_urls_of self source)) as [l Hl].
    { assert (is_Some (Some per_tag)) as Hsome by eauto. rewrite <- Hm in Hsome.
      apply mapM_is_Some_1 in Hsome.
      by apply (proj1 (Forall_forall _ _) Hsome source). }
    unfold source_srcset_urls_of in Hl.
    destruct (mapM (fun tok => first_word tok ≫= Url.urljoin (url self))
                (Re.findall Pat.srcset_tok_re (get_or_empty source "srcset")))
      as [resolved|] eqn:Hr; [|done].
    assert (is_Some (Some resolved)) as Hsome by eauto. rewrite <- Hr in Hsome.
    apply mapM_is_Some_1 in Hsome.
    pose proof (proj1 (Forall_forall _ _) Hsome tok Htok) as [y Hy].
    simpl in Hy. rewrite (srcset_tok_first_word _ _ Htok) in Hy.
    simpl in Hy. congruence.
  - split; [|done]. intros _.
    apply mapM_None, Exists_exists in Hm as (source & Hs & Hnone).
    unfold source_srcset_urls_of in Hnone.
    destruct (mapM (fun tok => first_word tok ≫= Url.urljoin (url self))
                (Re.findall Pat.srcset_tok_re (get_or_empty source "srcset")))
      as [resolved|] eqn:Hr; [done|].
    apply mapM_None, Exists_exists in Hr as (tok & Htok & Hj).
    rewrite (srcset_tok_first_word _ _ Htok) in Hj. simpl in Hj.
    exists tok. split; [|done]. apply list_elem_of_bind. eauto.
Qed.

Lemma background_urls_None self doc :
  background_urls self doc = None
  ↔ ∃ ref, ref ∈ background_refs doc ∧ Url.urljoin (url self) ref = None.
Proof.
  unfold background_urls, background_refs. rewrite <- join_all_None.
  by destruct (join_all self _).
Qed.

Lemma extract_css_files_None self doc :
  soup self = Some doc →
  extract_css_files self = None
  ↔ ∃ ref, ref ∈ css_refs doc ∧ Url.urljoin (url self) ref = None.
Proof.
  intros Hsoup. unfold extract_css_files, css_refs. rewrite Hsoup.
  rewrite <- join_all_None, join_all_app_None.
  destruct (join_all self (css_link_refs doc));
    destruct (join_all self (css_import_refs doc)); simpl; naive_solver.
Qed.

Lemma extract_js_files_None self doc :
  soup self = Some doc →
  extract_js_files self = None
  ↔ ∃ ref, ref ∈ js_refs doc ∧ Url.urljoin (url self) ref = None.
Proof.
  intros Hsoup. unfold extract_js_files, js_refs. rewrite Hsoup.
  rewrite <- join_all_None. by destruct (join_all self _).
Qed.

Lemma extract_images_None self doc :
  soup self = Some doc →
  extract_images self = None
  ↔ ∃ ref, ref ∈ image_refs doc ∧ Url.urljoin (url self) ref = None.
Proof.
  intros Hsoup. unfold extract_images, image_refs. rewrite Hsoup.
  pose proof (join_all_None self (img_src_refs doc)) as H1.
  pose proof (source_srcset_urls_None self doc) as H2.
  pose proof (background_urls_None self doc) as H3.
  setoid_rewrite elem_of_app. setoid_rewrite elem_of_app.
  destruct (join_all self (img_src_refs doc));
    destruct (source_srcset_urls self doc);
    destruct (background_urls self doc); simpl; naive_solver.
Qed.

Lemma extract_other_files_None self doc :
  soup self = Some doc →
  extract_other_files self = None
  ↔ ∃ ref, ref ∈ other_refs doc ∧ Url.urljoin (url self) ref = None.
Proof.
  intros Hsoup. unfold extract_other_files, other_refs. rewrite Hsoup.
  rewrite <- join_all_None, !join_all_app_None.
  destruct (join_all self (other_anchor_refs doc));
    destruct (join_all self (other_font_refs doc));
    destruct (join_all self (other_video_refs doc));
    destruct (join_all self (other_audio_refs doc)); simpl; naive_solver.
Qed.

(** X10. Each of the four resource operations raises exactly when
    [urljoin] raises on one of the references it resolves: one bad
    reference anywhere in the page makes the whole operation fail. *)
Theorem extraction_raises (self : extractor) (doc : list element) :
  soup self = Some doc →
  (extract_css_files self = None
   ↔ ∃ ref, ref ∈ css_refs doc ∧ Url.urljoin (url self) ref = None)
  ∧ (extract_js_files self = None
     ↔ ∃ ref, ref ∈ js_refs doc ∧ Url.urljoin (url self) ref = None)
  ∧ (extract_images self = None
     ↔ ∃ ref, ref ∈ image_refs doc ∧ Url.urljoin (url self) ref = None)
  ∧ (extract_other_files self = None
     ↔ ∃ ref, ref ∈ other_refs doc ∧ Url.urljoin (url self) ref = None).
Proof.
  intros Hsoup. split; [by apply extract_css_files_None|].
  split; [by apply extract_js_files_None|].
  split; [by apply extract_images_None | by apply extract_other_files_None].
Qed.

(** X11. When the page URL and every reference the document hands to
    [urljoin] are ASCII texts without square bracket, the four resource
    operations return a list: [urljoin] raises only from the checks of a
    bracketed host and of a host that is not ASCII. *)
Theorem extraction_returns (self : extractor) (doc : list element) :
  soup self = Some doc →
  has_bracket (url self) = false → isascii (url self) = true →
  (∀ ref, ref ∈ css_refs doc ++ js_refs doc ++ image_refs doc
                ++ other_refs doc →
          has_bracket ref = false ∧ isascii ref = true) →
  is_Some (extract_css_files self) ∧ is_Some (extract_js_files self)
  ∧ is_Some (extract_images self) ∧ is_Some (extract_other_files self).
Proof.
  intros Hsoup Hurl Hascii Hrefs.
  assert (∀ ref, ref ∈ css_refs doc ++ js_refs doc ++ image_refs doc
                       ++ other_refs doc →
                 Url.urljoin (url self) ref ≠ None) as Hok.
  { intros ref Hin [[Hb|Hb]|[Hb|Hb]]%urljoin_None_bracket; [congruence..| |].
    - destruct (Hrefs ref Hin) as [Hr _]. congruence.
    - destruct (Hrefs ref Hin) as [_ Hr]. congruence. }
  repeat split; apply not_eq_None_Some.
  - intros (ref & Hin & Hj)%(extract_css_files_None _ _ Hsoup).
    apply (Hok ref); [|done]. rewrite !elem_of_app. auto.
  - intros (ref & Hin & Hj)%(extract_js_files_None _ _ Hsoup).
    apply (Hok ref); [|done]. rewrite !elem_of_app. auto.
  - intros (ref & Hin & Hj)%(extract_images_None _ _ Hsoup).
    apply (Hok ref); [|done]. rewrite !elem_of_app. auto.
  - intros (ref & Hin & Hj)%(extract_other_files_None _ _ Hsoup).
    apply (Hok ref); [|done]. rewrite !elem_of_app. auto.
Qed.

End extraction_errors.


(** ** The life of an extractor *)

Section extractor_life.
Context {World : Type} {Net : Network World} {HC : HostCheck}.

(** What [fetch_html] does, read off the answer of the network and of the
    parser. *)
Lemma fetch_html_connection self (w : World) :
  (∃ message, (fetch_html self w).1.1 = Raised (ConnectionError message))
  ↔ ∃ e w', http_get (url self) w = (Raised e, w').
Proof.
  unfold fetch_html. destruct (http_get (url self) w) as [[r|[|text]] w1].
  - destruct (html_parser (body r)); simpl.
    + split; [by intros [? ?] | by intros (? & ? & ?)].
    + split; [by intros [? ?] | by intros (? & ? & ?)].
  - simpl. split; eauto.
  - simpl. split; eauto.
Qed.

Lemma fetch_html_parser self (w : World) :
  (fetch_html self w).1.1 = Raised ParserError
  ↔ ∃ r w', http_get (url self) w = (Returned r, w')
            ∧ html_parser (body r) = None.
Proof.
  unfold fetch_html. destruct (http_get (url self) w) as [[r|[|text]] w1].
  - destruct (html_parser (body r)) eqn:Hp; simpl.
    + split; [done|]. intros (r' & w' & [= <- _] & Hr). congruence.
    + split; [eauto|done].
  - simpl. split; [done | by intros (? & ? & ? & _)].
  - simpl. split; [done | by intros (? & ? & ? & _)].
Qed.

Lemma fetch_html_returned self (w : World) html self' w' :
  fetch_html self w = (Returned html, self', w') →
  url self' = url self ∧ timeout self' = timeout self
  ∧ base_url self' = base_url self
  ∧ html_content self' = Some html
  ∧ ∃ doc, soup self' = Some doc ∧ html_parser html = Some doc.
Proof.
  unfold fetch_html. destruct (http_get (url self) w) as [[r|[|text]] w1];
    [|done..].
  destruct (html_parser (body r)) as [doc|] eqn:Hp; [|done].
  intros [= <- <- _]. simpl. eauto 10.
Qed.

(** X12. Whatever fetches were made on an extractor built for [u], and
    however they ended, its URL is [u], its timeout 30 and its base URL the
    scheme and host of [u]; when it has a parsed document it has a page
    text, and the document is the parse of some text.  The page text is
    assigned before the parser runs, so the document need not be the parse
    of the page text held: only after a fetch that returns is it so. *)
Theorem reachable_invariant (u : string) (self : extractor) :
  reachable u self →
  url self = u ∧ timeout self = 30
  ∧ get_base_url u = Some (base_url self)
  ∧ (∀ doc, soup self = Some doc →
       is_Some (html_content self) ∧ ∃ html, html_parser html = Some doc)
  ∧ (∀ w html self' w',
       fetch_html self w = (Returned html, self', w') →
       html_content self' = Some html
       ∧ ∃ doc, soup self' = Some doc ∧ html_parser html = Some doc).
Proof.
  intros Hreach.
  assert (url self = u ∧ timeout self = 30
          ∧ get_base_url u = Some (base_url self)
          ∧ (∀ doc, soup self = Some doc →
               is_Some (html_content self)
               ∧ ∃ html, html_parser html = Some doc)) as Hinv.
  { induction Hreach as [self Hinit|self w r self' w' _ IH Hfetch].
    - unfold init in Hinit. destruct (get_base_url u) as [base|]; [|done].
      simpl in Hinit. by injection Hinit as <-.
    - destruct IH as (Hu & Ht & Hb & Hdoc). unfold fetch_html in Hfetch.
      destruct (http_get (url self) w) as [[resp|[|text]] w1].
      + destruct (html_parser (body resp)) as [doc|] eqn:Hp;
          injection Hfetch as <- <- <-; simpl.
        * split; [done|]. split; [done|]. split; [done|].
          intros doc' [= <-]. split; [done|]. by exists (body resp).
        * split; [done|]. split; [done|]. split; [done|].
          intros doc' Hdoc'. split; [done|]. by apply (Hdoc doc').
      + by injection Hfetch as <- <- <-.
      + by injection Hfetch as <- <- <-. }
  destruct Hinv as (Hu & Ht & Hb & Hdoc).
  split; [done|]. split; [done|]. split; [done|]. split; [done|].
  intros w html self' w' Hfetch.
  destruct (fetch_html_returned _ _ _ _ _ Hfetch) as (_ & _ & _ & Hc & Hd).
  by split.
Qed.

End extractor_life.


(** ** The analysis endpoint *)

Section analysis_facts.
Context {World : Type} {Net : Network World} {HC : HostCheck} {SO : SetOrder}.

(** X13. A successful analysis answers with the text it fetched and with
    the results of the six operations on the parse of that text; every file
    value of the path tree is one of the URLs of the four lists, each of
    which is free of duplicates, and the four counts are their lengths. *)
Theorem analyze_website_ok (page : string) (w w' : World)
    (r : analyze_response) :
  analyze_website page w = (Ok r, w') →
  (∃ self, reachable page self
     ∧ html_content self = Some (r_html_source r)
     ∧ (∃ doc, html_parser (r_html_source r) = Some doc
               ∧ soup self = Some doc)
     ∧ extract_css_files self = Some (r_css_files r)
     ∧ extract_js_files self = Some (r_js_files r)
     ∧ extract_images self = Some (r_images r)
     ∧ extract_other_files self = Some (r_others r)
     ∧ extract_colors self = r_colors r
     ∧ extract_fonts self = r_fonts r)
  ∧ (∀ u, leaf_in (r_structure r) u →
          u ∈ r_css_files r ∨ u ∈ r_js_files r ∨ u ∈ r_images r
          ∨ u ∈ r_others r)
  ∧ NoDup (r_css_files r) ∧ NoDup (r_js_files r)
  ∧ NoDup (r_images r) ∧ NoDup (r_others r)
  ∧ r_summary r !! "total_css" = Some (length (r_css_files r))
  ∧ r_summary r !! "total_js" = Some (length (r_js_files r))
  ∧ r_summary r !! "total_images" = Some (length (r_images r))
  ∧ r_summary r !! "total_others" = Some (length (r_others r)).
Proof.
  unfold analyze_website. destruct (init page) as [self0|] eqn:Hinit; [|done].
  destruct (fetch_html self0 w) as [[[html|[message|]] self] w1] eqn:Hfetch;
    [|done..].
  destruct (extract_css_files self) as [css|] eqn:Hcss; [|done].
  destruct (extract_js_files self) as [js|] eqn:Hjs; [|done].
  destruct (extract_images self) as [images|] eqn:Himg; [|done].
  destruct (extract_other_files self) as [others|] eqn:Hoth; [|done].
  intros [= <- <-]. simpl.
  assert (reachable page self) as Hreach.
  { eapply reach_fetch; [by apply reach_init | done]. }
  destruct (fetch_html_returned _ _ _ _ _ Hfetch)
    as (_ & _ & _ & Hc & doc & Hs & Hp).
  split; [exists self; eauto 12|]. split.
  - intros u Hu. apply leaf_in_fold in Hu as [Hu|Hu].
    + rewrite !elem_of_app in Hu. tauto.
    + by apply leaf_in_empty in Hu.
  - assert (∀ l, extract_css_files self = Some l ∨ extract_js_files self = Some l
                 ∨ extract_images self = Some l
                 ∨ extract_other_files self = Some l → NoDup l) as Hnodup.
    { unfold extract_css_files, extract_js_files, extract_images,
        extract_other_files. rewrite Hs.
      intros l [Hl|[Hl|[Hl|Hl]]];
        repeat match type of Hl with
          | context [mbind _ ?m] => destruct m; simpl in Hl; [|done]
          end;
        injection Hl as <-; apply NoDup_dedup. }
    repeat split; auto.
Qed.

Lemma init_url page self : init page = Some self → url self = page.
Proof.
  unfold init. destruct (get_base_url page); [|done]. simpl.
  by intros [= <-].
Qed.

(** X14. The analysis answers 503 exactly when the extractor could be built
    and the request for the page raised; 500 exactly when the page was
    received and the parser raised on its text; 400 exactly when the
    extractor could not be built or, the page once fetched and parsed, one
    of the four resource operations raised.  The archive endpoint fails on
    the same requests. *)
Theorem analyze_website_errors (page : string) (w : World) :
  (fst (analyze_website page w) = HttpError 503
   ↔ ∃ self e w', init page = Some self
                  ∧ http_get page w = (Raised e, w'))
  ∧ (fst (analyze_website page w) = HttpError 500
     ↔ ∃ self resp w', init page = Some self
                       ∧ http_get page w = (Returned resp, w')
                       ∧ html_parser (body resp) = None)
  ∧ (fst (analyze_website page w) = HttpError 400
     ↔ init page = None
       ∨ ∃ self html self' w',
           init page = Some self
           ∧ fetch_html self w = (Returned html, self', w')
           ∧ (extract_css_files self' = None ∨ extract_js_files self' = None
              ∨ extract_images self' = None
              ∨ extract_other_files self' = None))
  ∧ (fst (download_all_files page w) = None
     ↔ ∃ status, fst (analyze_website page w) = HttpError status).
Proof.
  unfold analyze_website, download_all_files.
  destruct (init page) as [self0|] eqn:Hinit.
  2: { simpl. split; [|split; [|split]].
       - split; [done|]. by intros (s & ? & ? & Hs & _).
       - split; [done|]. by intros (s & ? & ? & Hs & _).
       - split; [by left | done].
       - split; [eauto | done]. }
  pose proof (init_url _ _ Hinit) as Hurl.
  pose proof (fetch_html_connection self0 w) as Hconn.
  pose proof (fetch_html_parser self0 w) as Hpars.
  rewrite Hurl in Hconn, Hpars.
  destruct (fetch_html self0 w) as [[[html|[message|]] self] w1] eqn:Hfetch;
    simpl in Hconn, Hpars.
  - (* the fetch returned *)
    assert (¬ ∃ e w', http_get page w = (Raised e, w')) as Hno503.
    { intros [message Hm]%Hconn. done. }
    assert (¬ ∃ r w', http_get page w = (Returned r, w')
                      ∧ html_parser (body r) = None) as Hno500.
    { by intros ?%Hpars. }
    destruct (extract_css_files self) as [css|] eqn:Hcss;
      destruct (extract_js_files self) as [js|] eqn:Hjs;
      destruct (extract_images self) as [images|] eqn:Himg;
      destruct (extract_other_files self) as [others|] eqn:Hoth; simpl;
      (split; [split; [done | intros (s & e & w' & _ & He); destruct Hno503;
                                eauto]|]);
      (split; [split; [done | intros (s & r & w' & _ & He); destruct Hno500;
                                eauto]|]);
      (split;
         [split;
            [first [done
                   |intros _; right; exists self0, html, self, w1;
                    split; [done|]; split; [done|]; auto]
            |intros [?|(s0 & h & s & w2 & [= <-] & Hf & Hx)]; [done|];
             rewrite Hfetch in Hf; injection Hf as <- <- <-;
             first [done | destruct Hx as [?|[?|[?|?]]]; congruence]]|]);
      (split; [first [done | intros _; by exists 400]
              |first [done | by intros (status & ?)]]).
  - (* ConnectionError *)
    simpl. split; [|split; [|split]].
    + split; [|done]. intros _.
      destruct (proj1 Hconn) as (e & w' & He); [eauto|].
      by exists self0, e, w'.
    + split; [done|]. intros (s & r & w' & _ & He).
      assert (@Raised fetch_error string (ConnectionError message)
              = Raised ParserError) as [=].
      apply Hpars. eauto.
    + split; [done|].
      intros [?|(s0 & h & s & w2 & [= <-] & Hf & _)]; [done|].
      by rewrite Hfetch in Hf.
    + split; [eauto | done].
  - (* the parser raised *)
    simpl. split; [|split; [|split]].
    + split; [done|]. intros (s & e & w' & _ & He).
      assert (∃ m, @Raised fetch_error string ParserError
                   = Raised (ConnectionError m)) as [m [=]].
      apply Hconn. eauto.
    + split; [|done]. intros _.
      destruct (proj1 Hpars) as (r & w' & Hr & Hp); [done|].
      by exists self0, r, w'.
    + split; [done|].
      intros [?|(s0 & h & s & w2 & [= <-] & Hf & _)]; [done|].
      by rewrite Hfetch in Hf.
    + split; [eauto | done].
Qed.

End analysis_facts.


(** ** File names in the archive *)

Lemma split_app_sep c s t :
  Str.split c (s +:+ String c t) = Str.split c s ++ Str.split c t.
Proof.
  induction s as [|x s IH].
  - rewrite append_nil_l. simpl. by rewrite Ascii.eqb_refl.
  - rewrite append_cons. simpl. rewrite IH.
    destruct (Ascii.eqb x c); [done|].
    pose proof (split_nonempty c s) as Hne.
    by destruct (Str.split c s).
Qed.

Lemma split_no_sep_id c s : Str.contains c s = false → Str.split c s = [s].
Proof.
  induction s as [|x s IH]; simpl; [done|].
  intros [Hx Hs]%orb_false_iff. rewrite Hx, IH by done. done.
Qed.

Lemma last_app_nonempty (l1 l2 : list string) d :
  l2 ≠ [] → List.last (l1 ++ l2) d = List.last l2 d.
Proof.
  intros Hne. induction l1 as [|x l1 IH]; [done|].
  simpl. rewrite IH. destruct (l1 ++ l2) eqn:Happ; [|done].
  by apply app_eq_nil in Happ as [_ ->].
Qed.

(** The pieces of a split are made of characters of the text. *)
Lemma split_piece_contains c c' s x :
  x ∈ Str.split c s → Str.contains c' x = true → Str.contains c' s = true.
Proof.
  revert x. induction s as [|y s IH]; intros x; simpl.
  - by intros ->%list_elem_of_singleton.
  - destruct (Ascii.eqb y c) eqn:Hy.
    + intros [->|Hin]%elem_of_cons Hx; [done|].
      by rewrite (IH x Hin Hx), orb_true_r.
    + pose proof (split_nonempty c s) as Hne.
      destruct (Str.split c s) as [|h t]; [done|].
      intros [->|Hin]%elem_of_cons Hx.
      * simpl in Hx. apply orb_true_iff in Hx as [->|Hx]; [done|].
        rewrite (IH h); [apply orb_true_r | apply list_elem_of_here | done].
      * rewrite (IH x); [apply orb_true_r | by apply list_elem_of_further | done].
Qed.

Lemma last_split_elem c s : List.last (Str.split c s) "" ∈ Str.split c s.
Proof.
  pose proof (split_nonempty c s) as Hne.
  induction (Str.split c s) as [|x l IH]; [done|].
  destruct l as [|y l]; [apply list_elem_of_here|].
  apply list_elem_of_further. by apply IH.
Qed.

Lemma hd_split_elem c s : hd "" (Str.split c s) ∈ Str.split c s.
Proof.
  pose proof (split_nonempty c s) as Hne.
  destruct (Str.split c s); [done | apply list_elem_of_here].
Qed.

Lemma filename_safe (c : category) (url : string) :
  filename c url ≠ ""
  ∧ Str.contains "/" (filename c url) = false
  ∧ Str.contains "?" (filename c url) = false.
Proof.
  unfold filename.
  set (seg := List.last (Str.split "/" url) "").
  set (name := hd "" (Str.split "?" seg)).
  assert (Str.contains "/" name = false) as Hslash.
  { destruct (Str.contains "/" name) eqn:Hc; [|done].
    pose proof (split_piece_contains "?" "/" seg name (hd_split_elem _ _) Hc) as Hseg.
    pose proof (split_no_sep "/" url) as Hall.
    rewrite Forall_forall in Hall.
    rewrite (Hall seg (last_split_elem _ _)) in Hseg. done. }
  assert (Str.contains "?" name = false) as Hq.
  { pose proof (split_no_sep "?" seg) as Hall. rewrite Forall_forall in Hall.
    apply Hall, hd_split_elem. }
  split; [|split].
  - unfold or_else. destruct (Str.is_empty name) eqn:He; [by destruct c|].
    intros Heq. by rewrite Heq in He.
  - unfold or_else. destruct (Str.is_empty name); [by destruct c | done].
  - unfold or_else. destruct (Str.is_empty name); [by destruct c | done].
Qed.

(** X15. The file name derived from a URL is never empty and has neither a
    slash nor a question mark.  It is read after the last slash of the whole
    URL text: for a URL that ends in [/name] or [/name?query], with no slash
    in the query, it is [name], or the default name when [name] is empty. *)
Theorem filename_spec (c : category) (url : string) :
  filename c url ≠ ""
  ∧ Str.contains "/" (filename c url) = false
  ∧ Str.contains "?" (filename c url) = false
  ∧ (∀ dir name query,
       Str.contains "/" name = false → Str.contains "?" name = false →
       Str.contains "/" query = false →
       filename c (dir +:+ "/" +:+ name) = or_else name (default_name c)
       ∧ filename c (dir +:+ "/" +:+ name +:+ "?" +:+ query)
         = or_else name (default_name c)).
Proof.
  destruct (filename_safe c url) as (H1 & H2 & H3).
  split; [done|]. split; [done|]. split; [done|]. unfold filename.
  intros dir nm query Hn1 Hn2 Hq1. split.
  + push_app. rewrite split_app_sep, last_app_nonempty by apply split_nonempty.
    rewrite (split_no_sep_id _ _ Hn1). simpl.
    by rewrite (split_no_sep_id _ _ Hn2).
  + assert (Str.contains "/" (nm +:+ "?" +:+ query) = false) as Hn3.
    { rewrite !contains_app, Hn1, Hq1. done. }
    push_app. rewrite split_app_sep, last_app_nonempty by apply split_nonempty.
    revert Hn3. push_app. intros Hn3.
    rewrite (split_no_sep_id _ _ Hn3). simpl.
    rewrite split_app_sep, (split_no_sep_id _ _ Hn2). done.
Qed.

Section archive_entries.
Context {World : Type} {Net : Network World}.

(** X16. The archive never has more than 81 entries.  Every entry is the
    page under [index.html], or the content of a successful attempt under
    [folder/name], where [name] is not empty and has no slash: it sits
    directly in one of the four folders, and no downloaded file can take
    the name [index.html]. *)
Theorem write_archive_entries (html : string)
    (css js images others : list string) (w : World) :
  let z := write_archive html css js images others w in
  length (entries z) ≤ 81
  ∧ (∀ name content, (name, content) ∈ entries z →
       (name = "index.html" ∧ content = html)
       ∨ ∃ a, a ∈ attempts z ∧ at_content a = Some content
              ∧ name = folder (at_category a) +:+ "/"
                       +:+ filename (at_category a) (at_url a)
              ∧ filename (at_category a) (at_url a) ≠ ""
              ∧ Str.contains "/" (filename (at_category a) (at_url a)) = false)
  ∧ (∀ content, ("index.html", content) ∈ entries z → content = html).
Proof.
  intros z. destruct (write_archive_attempts html css js images others w)
    as [Hasked Hentries]. fold z in Hasked, Hentries.
  assert (∀ name content, (name, content) ∈ entries z →
            (name = "index.html" ∧ content = html)
            ∨ ∃ a, a ∈ attempts z ∧ at_content a = Some content
                   ∧ name = folder (at_category a) +:+ "/"
                            +:+ filename (at_category a) (at_url a)) as Hshape.
  { intros name content. rewrite Hentries.
    intros [[= -> ->]|Hin]%elem_of_cons; [by left|]. right.
    apply list_elem_of_omap in Hin as (a & Ha & He). exists a.
    split; [done|]. unfold entry_of in He.
    destruct (at_content a) as [content'|]; [|done]. simpl in He.
    by injection He as <- <-. }
  split; [|split].
  - rewrite Hentries. simpl.
    pose proof (length_omap_entry_of (attempts z)) as Hlen.
    assert (length (attempts z) ≤ 80); [|lia].
    rewrite <- (length_fmap asked), Hasked, !length_app, !length_fmap,
      !length_take. lia.
  - intros name content Hin.
    destruct (Hshape name content Hin) as [?|(a & Ha & Hc & Hn)]; [by left|].
    right. exists a. destruct (filename_safe (at_category a) (at_url a))
      as (? & ? & _). done.
  - intros content Hin.
    destruct (Hshape _ content Hin) as [[_ ?]|(a & Ha & Hc & Hn)]; [done|].
    exfalso. destruct (at_category a); discriminate Hn.
Qed.

End archive_entries.


(** ** Content types guessed from the extension *)

Lemma app_eq_app_str p1 a p2 b :
  p1 +:+ a = p2 +:+ b →
  ∃ k, (p1 = p2 +:+ k ∧ b = k +:+ a) ∨ (p2 = p1 +:+ k ∧ a = k +:+ b).
Proof.
  revert p2. induction p1 as [|x p1 IH]; intros p2 Heq.
  - exists p2. right. by rewrite !append_nil_l in *.
  - destruct p2 as [|y p2].
    + exists (String x p1). left. by rewrite !append_nil_l in *.
    + rewrite !append_cons in Heq. injection Heq as -> Heq.
      destruct (IH _ Heq) as (k & [[-> ->]|[-> ->]]); exists k; [left|right];
        by rewrite append_cons.
Qed.

(** Of two texts that end the same text, one ends the other. *)
Lemma endswith_comparable s a b :
  Str.endswith s a = true → Str.endswith s b = true →
  Str.endswith a b = true ∨ Str.endswith b a = true.
Proof.
  intros [p1 ->]%endswith_spec [p2 Heq]%endswith_spec.
  apply app_eq_app_str in Heq as (k & [[_ ->]|[_ ->]]).
  - right. apply endswith_spec. by exists k.
  - left. apply endswith_spec. by exists k.
Qed.

Lemma endswith_refl s : Str.endswith s s = true.
Proof. apply endswith_spec. by exists "". Qed.

Lemma extension_map_unique s e1 t1 e2 t2 :
  (e1, t1) ∈ extension_map → (e2, t2) ∈ extension_map →
  Str.endswith s e1 = true → Str.endswith s e2 = true →
  t1 = t2.
Proof.
  intros H1 H2 Hs1 Hs2.
  assert (no_extension_ends_another = true) as Hno by (vm_compute; reflexivity).
  assert (one_type_per_extension = true) as Hone by (vm_compute; reflexivity).
  unfold no_extension_ends_another in Hno. unfold one_type_per_extension in Hone.
  rewrite forallb_forall in Hno, Hone.
  pose proof (Hno _ (proj1 (list_elem_of_In _ _) H1)) as Hno1.
  pose proof (Hno _ (proj1 (list_elem_of_In _ _) H2)) as Hno2.
  pose proof (Hone _ (proj1 (list_elem_of_In _ _) H1)) as Hone1.
  cbv beta iota in Hno1, Hno2, Hone1.
  rewrite forallb_forall in Hno1, Hno2, Hone1.
  pose proof (Hno1 _ (proj1 (list_elem_of_In _ _) H2)) as Hn12.
  pose proof (Hno2 _ (proj1 (list_elem_of_In _ _) H1)) as Hn21.
  pose proof (Hone1 _ (proj1 (list_elem_of_In _ _) H2)) as Ho12.
  cbv beta iota in Hn12, Hn21, Ho12.
  assert (e1 = e2) as ->.
  { destruct (endswith_comparable s e1 e2 Hs1 Hs2) as [He|He];
      rewrite He in *; simpl in *.
    - rewrite orb_false_r in Hn12. by apply String.eqb_eq in Hn12.
    - rewrite orb_false_r in Hn21. by apply String.eqb_eq in Hn21. }
  rewrite String.eqb_refl in Ho12. simpl in Ho12. by apply String.eqb_eq in Ho12.
Qed.

Lemma first_match_Some s items t :
  first_match s items = Some t →
  ∃ e, (e, t) ∈ items ∧ Str.endswith s e = true.
Proof.
  induction items as [|[e t'] items IH]; simpl; [done|].
  destruct (Str.endswith s e) eqn:He.
  - intros [= <-]. exists e. split; [apply list_elem_of_here | done].
  - intros (e' & Hin & He')%IH. exists e'.
    split; [by apply list_elem_of_further | done].
Qed.

Lemma first_match_None s items :
  first_match s items = None
  ↔ ∀ e t, (e, t) ∈ items → Str.endswith s e = false.
Proof.
  induction items as [|[e t'] items IH]; simpl.
  - split; [|done]. intros _ e t Hin. by apply elem_of_nil in Hin.
  - destruct (Str.endswith s e) eqn:He.
    + split; [done|]. intros Hall.
      rewrite (Hall e t' (list_elem_of_here _ _)) in He. done.
    + rewrite IH. split.
      * intros Hall e0 t0 [[= -> ->]|Hin]%elem_of_cons; [done | by eapply Hall].
      * intros Hall e0 t0 Hin. eapply Hall. by apply list_elem_of_further.
Qed.

Lemma lower_char_idemp c : Str.lower_char (Str.lower_char c) = Str.lower_char c.
Proof. by destruct c as [[] [] [] [] [] [] [] []]. Qed.

Lemma lower_idemp s : Str.lower (Str.lower s) = Str.lower s.
Proof.
  induction s as [|c s IH]; [done|]. simpl. by rewrite lower_char_idemp, IH.
Qed.

(** X17. The guessed content type does not depend on the order of the
    extension map: whenever the lowered URL ends with an extension of the
    map the guess is the type of that extension, and when it ends with none
    the guess is [application/octet-stream]; the guess ignores the case of
    the URL. *)
Theorem guess_content_type_spec (url : string) :
  (∀ ext content_type,
     (ext, content_type) ∈ extension_map →
     Str.endswith (Str.lower url) ext = true →
     guess_content_type url = content_type)
  ∧ ((∀ ext content_type, (ext, content_type) ∈ extension_map →
        Str.endswith (Str.lower url) ext = false) →
     guess_content_type url = "application/octet-stream")
  ∧ guess_content_type (Str.lower url) = guess_content_type url.
Proof.
  unfold guess_content_type. split; [|split].
  - intros ext ct Hin Hext.
    destruct (first_match (Str.lower url) extension_map) as [t|] eqn:Hm.
    + apply first_match_Some in Hm as (e & He & Hends). simpl.
      by apply (extension_map_unique (Str.lower url) e t ext ct).
    + rewrite first_match_None in Hm. by rewrite (Hm ext ct Hin) in Hext.
  - intros Hnone. by rewrite (proj2 (first_match_None _ _) Hnone).
  - by rewrite lower_idemp.
Qed.

(** * References below the page *)

Section relative_references.
Context {HC : HostCheck}.
Import Url.

(** The default scheme of a reference, a scheme of [uses_relative], goes
    through the cleaning of [urlsplit] unchanged. *)
Lemma relative_scheme_clean d :
  mem d uses_relative = true →
  remove_unsafe (Str.strip c0_or_space d) = d.
Proof.
  unfold mem at 1. intros (x & Hx & ->%String.eqb_eq)%existsb_exists.
  unfold uses_relative in Hx. simpl in Hx.
  repeat (destruct Hx as [<-|Hx]; [reflexivity|]). done.
Qed.

(** A reference with nothing but a path is parsed to that path. *)
Lemma urlparse_path_only d ref c :
  mem d uses_relative = true →
  Str.first_char ref = Some c → c0_or_space c = false →
  Str.all path_char ref = true →
  split_scheme d ref = (d, ref) →
  Str.startswith ref "//" = false →
  urlparse ref d = Some (Parsed d "" ref "" "" "").
Proof.
  intros Hd Hc Hc0 Hall Hsch Hnl. unfold urlparse, urlsplit.
  rewrite (relative_scheme_clean d Hd).
  assert (Str.lstrip c0_or_space ref = ref) as ->.
  { destruct ref as [|x ref]; [done|]. injection Hc as ->.
    cbn [Str.lstrip]. by rewrite Hc0. }
  assert (remove_unsafe ref = ref) as ->.
  { apply filter_all_id. revert Hall. apply all_impl_str.
    intros x. unfold path_char. by intros [? _]%andb_true_iff. }
  rewrite Hsch, Hnl. cbn [mbind option_bind].
  assert (∀ x, Str.contains x "?#;" = true → Str.contains x ref = false)
    as Hno.
  { intros x Hx. apply (all_not_contains path_char); [|done].
    unfold path_char. by rewrite Hx, andb_false_r. }
  rewrite (Hno "#"%char eq_refl), (Hno "?"%char eq_refl).
  change (checknetloc "") with true. cbn [mbind option_bind].
  by rewrite (Hno ";"%char eq_refl), andb_false_r.
Qed.

Lemma resolve_dots_plain segments resolved :
  forallb (fun seg => negb (dot_segment seg)) segments = true →
  resolve_dots segments resolved = resolved ++ segments.
Proof.
  revert resolved. induction segments as [|seg rest IH]; intros resolved.
  { by rewrite app_nil_r. }
  cbn [forallb resolve_dots]. intros [Hseg Hrest]%andb_true_iff.
  unfold dot_segment, mem in Hseg. cbn [existsb] in Hseg.
  rewrite orb_false_r in Hseg. apply negb_true_iff, orb_false_iff in Hseg.
  destruct Hseg as [-> ->]. rewrite (IH _ Hrest). by rewrite <-app_assoc.
Qed.

Lemma last_plain_not_dot segments :
  segments ≠ [] →
  forallb (fun seg => negb (dot_segment seg)) segments = true →
  mem (List.last segments "") ["."; ".."] = false.
Proof.
  intros Hne Hall.
  assert (List.last segments "" ∈ segments) as Hin.
  { destruct (exists_last Hne) as (l & x & ->). rewrite last_last.
    apply elem_of_app. right. apply list_elem_of_here. }
  apply list_elem_of_In in Hin.
  apply (proj1 (forallb_forall _ _) Hall) in Hin.
  by apply negb_true_iff in Hin.
Qed.

Lemma urlparse_nonempty page b :
  urlparse page "" = Some b → scheme b ≠ "" → Str.is_empty page = false.
Proof.
  intros Hb Hs. destruct page; [|done]. exfalso. apply Hs.
  revert Hb. vm_compute. by intros [= <-].
Qed.

(** The URL of a path that starts with a slash, under a scheme of
    [uses_relative]. *)
Lemma urlunparse_rooted s nl p :
  s ≠ "" → mem s uses_relative = true → Str.startswith p "/" = false →
  urlunparse (Parsed s nl ("/" +:+ p) "" "" "")
  = (s +:+ "://" +:+ nl) +:+ "/" +:+ p.
Proof.
  intros Hs Hrel Hp. unfold urlunparse, urlunsplit.
  cbn [params path scheme netloc query fragment Str.is_empty].
  rewrite (uses_relative_netloc _ Hrel).
  push_app. cbn [Str.startswith Str.is_empty] in Hp |- *. rewrite Hp.
  change (Ascii.eqb "/" "/") with true. cbn [negb andb orb].
  destruct s as [|c s]; [done|]. cbn [Str.is_empty negb andb orb].
  rewrite orb_true_r, !app_assoc_str. push_app. done.
Qed.

Lemma split_scheme_rooted d p :
  split_scheme d (String "/" p) = (d, String "/" p).
Proof.
  unfold split_scheme. destruct (Str.contains ":" (String "/" p)); [|done].
  cbn [Str.cut]. change (Str.is_char ":" "/") with false. cbv beta iota.
  by destruct (Str.cut (Str.is_char ":") p).
Qed.

Lemma join_rooted p :
  Str.join "/" ("" :: Str.split "/" p) = "/" +:+ p.
Proof.
  pose proof (join_split "/" p) as Hj.
  destruct (Str.split "/" p) as [|h t] eqn:Hsplit.
  { by destruct (split_nonempty "/" p). }
  change (Str.join "/" ("" :: h :: t))
    with ("" +:+ "/" +:+ Str.join "/" (h :: t)).
  by rewrite Hj.
Qed.


Lemma under_rooted dirs last :
  forallb dir_name dirs = true → Str.startswith last "/" = false →
  ∃ p, under dirs +:+ "/" +:+ last = "/" +:+ p
       ∧ Str.startswith p "/" = false.
Proof.
  intros Hdirs Hlast. destruct dirs as [|d dirs].
  { exists last. by rewrite append_nil_l. }
  exists (d +:+ under dirs +:+ "/" +:+ last). split.
  { cbn [under foldr]. by rewrite !app_assoc_str. }
  cbn [forallb] in Hdirs. apply andb_true_iff in Hdirs as [Hd _].
  unfold dir_name in Hd.
  apply andb_true_iff in Hd as [[Hne Hsl]%andb_true_iff _].
  destruct d as [|c d]; [done|]. push_app. cbn [Str.startswith].
  apply negb_true_iff in Hsl. cbn [Str.contains] in Hsl.
  apply orb_false_iff in Hsl as [Hc _]. rewrite Ascii.eqb_sym, Hc. done.
Qed.

Lemma split_under dirs last :
  forallb dir_name dirs = true → Str.contains "/" last = false →
  Str.split "/" (under dirs +:+ "/" +:+ last) = "" :: dirs ++ [last].
Proof.
  intros Hdirs Hlast.
  change ("/" +:+ last) with (String "/" last).
  induction dirs as [|d dirs IH].
  { cbn [under foldr]. rewrite append_nil_l. cbn [Str.split].
    change (Ascii.eqb "/" "/") with true. cbv beta iota.
    by rewrite (split_no_sep_id _ _ Hlast). }
  cbn [forallb] in Hdirs. apply andb_true_iff in Hdirs as [Hd Hdirs].
  specialize (IH Hdirs).
  assert (∃ t, under dirs +:+ String "/" last = String "/" t) as [t Ht].
  { destruct dirs; cbn [under foldr]; push_app; eauto. }
  rewrite Ht in IH. cbn [Str.split] in IH.
  change (Ascii.eqb "/" "/") with true in IH. cbv beta iota in IH.
  injection IH as IH.
  cbn [under foldr]. fold (under dirs). rewrite !app_assoc_str, Ht.
  push_app. cbn [Str.split]. change (Ascii.eqb "/" "/") with true.
  cbv beta iota. f_equal. rewrite split_app_sep, IH.
  unfold dir_name in Hd.
  apply andb_true_iff in Hd as [[_ Hsl%negb_true_iff]%andb_true_iff _].
  by rewrite (split_no_sep_id _ _ Hsl).
Qed.

Lemma join_under x dirs name :
  Str.join "/" (x :: dirs ++ [name]) = x +:+ under dirs +:+ "/" +:+ name.
Proof.
  revert x. induction dirs as [|d dirs IH]; intros x.
  { cbn [app under foldr Str.join]. by rewrite append_nil_l. }
  change (Str.join "/" (x :: (d :: dirs) ++ [name]))
    with (x +:+ "/" +:+ Str.join "/" (d :: dirs ++ [name])).
  rewrite IH. cbn [under foldr]. fold (under dirs).
  by rewrite !app_assoc_str.
Qed.

Lemma filter_dir_names dirs :
  forallb dir_name dirs = true →
  filter (fun s => negb (Str.is_empty s)) dirs = dirs.
Proof.
  induction dirs as [|d dirs IH]; [done|]. cbn [forallb].
  intros [Hd Hdirs]%andb_true_iff. unfold dir_name in Hd.
  apply andb_true_iff in Hd as [[Hne _]%andb_true_iff _].
  rewrite filter_cons_True by (by apply Is_true_true).
  by rewrite (IH Hdirs).
Qed.


Lemma all_join q segs :
  q "/"%char = true → Forall (fun s => Str.all q s = true) segs →
  Str.all q (Str.join "/" segs) = true.
Proof.
  intros Hq. induction 1 as [|s segs Hs _ IH]; [done|].
  destruct segs as [|s' segs]; [done|].
  change (Str.join "/" (s :: s' :: segs))
    with (s +:+ "/" +:+ Str.join "/" (s' :: segs)).
  rewrite !all_app_str, Hs, IH. cbn [Str.all]. by rewrite Hq.
Qed.

Lemma split_join segs :
  segs ≠ [] → Forall (fun s => Str.contains "/" s = false) segs →
  Str.split "/" (Str.join "/" segs) = segs.
Proof.
  intros Hne Hall. induction Hall as [|s segs Hs _ IH]; [done|].
  destruct segs as [|s' segs]; [by apply split_no_sep_id|].
  change (Str.join "/" (s :: s' :: segs))
    with (s +:+ "/" +:+ Str.join "/" (s' :: segs)).
  change ("/" +:+ Str.join "/" (s' :: segs))
    with (String "/" (Str.join "/" (s' :: segs))).
  rewrite split_app_sep, IH by done. by rewrite (split_no_sep_id _ _ Hs).
Qed.

Lemma first_char_join c s segs :
  Str.first_char (Str.join "/" (String c s :: segs)) = Some c.
Proof. destruct segs; [done|]. cbn [Str.join]. by push_app. Qed.

(** A reference made of segments, the first one not empty, is parsed to a
    path. *)
Lemma urlparse_segments d s0 segs :
  mem d uses_relative = true → s0 ≠ "" →
  Forall (fun s => Str.all (fun c => path_char c && negb (c0_or_space c)
                              && negb (Str.is_char ":" c)) s = true
                   ∧ Str.contains "/" s = false) (s0 :: segs) →
  urlparse (Str.join "/" (s0 :: segs)) d
  = Some (Parsed d "" (Str.join "/" (s0 :: segs)) "" "" "")
  ∧ Str.is_empty (Str.join "/" (s0 :: segs)) = false
  ∧ Str.startswith (Str.join "/" (s0 :: segs)) "/" = false.
Proof.
  intros Hd Hne Hall. destruct s0 as [|c s0]; [done|].
  pose proof (first_char_join c s0 segs) as Hfirst.
  set (ref := Str.join "/" (String c s0 :: segs)) in *.
  assert (path_char c && negb (c0_or_space c) && negb (Str.is_char ":" c)
          = true ∧ Ascii.eqb c "/" = false) as [Hc Hsl].
  { apply Forall_cons in Hall as [[Hchars Hno] _].
    cbn [Str.all Str.contains] in Hchars, Hno.
    apply andb_true_iff in Hchars as [Hchars _].
    by apply orb_false_iff in Hno as [Hno _]. }
  apply andb_true_iff in Hc as [[_ Hc0]%andb_true_iff _].
  apply negb_true_iff in Hc0.
  assert (Str.all (fun x => path_char x && negb (Str.is_char ":" x)) ref
          = true) as Hchars.
  { apply all_join; [done|]. eapply Forall_impl; [exact Hall|].
    intros s [Hs _]. revert Hs. apply all_impl_str. intros x Hx.
    apply andb_true_iff in Hx as [[Hp _]%andb_true_iff Hx].
    by rewrite Hp, Hx. }
  assert (Str.startswith ref "/" = false) as Hstart.
  { destruct ref as [|x ref']; [done|]. injection Hfirst as ->.
    cbn [Str.startswith]. by rewrite Ascii.eqb_sym, Hsl. }
  split; [|split; [by destruct ref|done]].
  apply (urlparse_path_only d ref c Hd Hfirst Hc0).
  - revert Hchars. apply all_impl_str. intros x Hx.
    by apply andb_true_iff in Hx as [Hx _].
  - unfold split_scheme.
    by rewrite (all_not_contains _ ":"%char ref eq_refl Hchars).
  - destruct ref as [|x ref']; [done|].
    cbn [Str.startswith] in Hstart |- *.
    destruct (Ascii.eqb "/" x); [done|done].
Qed.

Lemma resolve_dots_app l1 l2 acc :
  resolve_dots (l1 ++ l2) acc = resolve_dots l2 (resolve_dots l1 acc).
Proof.
  revert acc. induction l1 as [|seg l1 IH]; intros acc; [done|].
  cbn [app resolve_dots]. by repeat case_match.
Qed.

Lemma removelast_take {A} (l : list A) : removelast l = take (length l - 1) l.
Proof.
  destruct (decide (l = [])) as [->|Hne]; [done|].
  destruct (exists_last Hne) as (l' & x & ->).
  rewrite removelast_last, length_app. cbn [length].
  replace (length l' + 1 - 1) with (length l') by lia.
  by rewrite take_app_length.
Qed.

(** Leading dot segments: every [..] removes the last segment resolved so
    far, if there is one, and [.] removes nothing. *)
Lemma resolve_dots_ups ups rest st :
  forallb dot_segment ups = true →
  resolve_dots (ups ++ rest) st
  = resolve_dots rest (take (length st - count_up ups) st).
Proof.
  revert st. induction ups as [|seg ups IH]; intros st.
  { intros _. unfold count_up. cbn [List.filter length app].
    by rewrite Nat.sub_0_r, firstn_all. }
  cbn [forallb]. intros [Hseg Hups]%andb_true_iff.
  unfold count_up in *. cbn [app resolve_dots List.filter].
  destruct (String.eqb seg "..") eqn:Hup.
  - rewrite (IH _ Hups). cbn [length]. f_equal.
    rewrite removelast_take, take_take, length_take. f_equal. lia.
  - unfold dot_segment, mem in Hseg. cbn [existsb] in Hseg.
    rewrite Hup, !orb_false_r in Hseg. rewrite Hseg. by apply IH.
Qed.

(** [urlunparse] of a path under a scheme of [uses_relative]: the path gets
    a slash in front when it has none. *)
Lemma urlunparse_path s nl p :
  s ≠ "" → mem s uses_relative = true →
  Str.is_empty p = false → Str.startswith p "//" = false →
  urlunparse (Parsed s nl p "" "" "")
  = (s +:+ "://" +:+ nl)
    +:+ (if Str.startswith p "/" then p else "/" +:+ p).
Proof.
  intros Hs Hrel Hp Hpp. unfold urlunparse, urlunsplit.
  cbn [params path scheme netloc query fragment Str.is_empty].
  rewrite (uses_relative_netloc _ Hrel), Hp, Hpp.
  destruct s as [|c s]; [done|]. cbn [Str.is_empty negb andb orb].
  rewrite orb_true_r.
  destruct (Str.startswith p "/"); cbn [negb]; rewrite !app_assoc_str;
    push_app; done.
Qed.

Lemma forallb_take {A} (f : A → bool) n l :
  forallb f l = true → forallb f (take n l) = true.
Proof.
  revert n. induction l as [|x l IH]; intros [|n]; [done..|].
  cbn [forallb take]. intros [Hx Hl]%andb_true_iff.
  cbn [forallb]. by rewrite Hx, (IH n Hl).
Qed.

(** The segments of [urljoin] for a reference made of segments against a
    base path that is empty, or ends after the directories [dirs]. *)
Lemma segments_below dirs base_parts mid name :
  forallb dir_name dirs = true →
  Forall (fun s => s ≠ "") mid →
  base_parts = "" :: dirs ∨ base_parts = "" :: dirs ++ [""] →
  drop_inner_empties (base_parts ++ mid ++ [name])
  = "" :: dirs ++ mid ++ [name].
Proof.
  intros Hdirs Hmid Hbase.
  assert (filter (fun s => negb (Str.is_empty s)) mid = mid) as Hfmid.
  { induction Hmid as [|s mid Hs _ IH]; [done|].
    rewrite filter_cons_True by (by destruct s). by rewrite IH. }
  destruct Hbase as [-> | ->].
  - assert (("" :: dirs) ++ mid ++ [name] = "" :: (dirs ++ mid) ++ [name])
      as ->.
    { cbn [app]. f_equal. by rewrite <-!app_assoc. }
    unfold drop_inner_empties.
    destruct ((dirs ++ mid) ++ [name]) as [|y l] eqn:Hl.
    { by destruct (dirs ++ mid). }
    rewrite <-Hl, removelast_last, last_last.
    rewrite filter_app, (filter_dir_names _ Hdirs), Hfmid.
    by rewrite <-!app_assoc.
  - assert (("" :: dirs ++ [""]) ++ mid ++ [name]
            = "" :: (dirs ++ [""] ++ mid) ++ [name]) as ->.
    { cbn [app]. f_equal. by rewrite <-!app_assoc. }
    unfold drop_inner_empties.
    destruct ((dirs ++ [""] ++ mid) ++ [name]) as [|y l] eqn:Hl.
    { by destruct dirs. }
    rewrite <-Hl, removelast_last, last_last.
    rewrite !filter_app, (filter_dir_names _ Hdirs), Hfmid.
    rewrite filter_cons_False by (by intros []).
    rewrite filter_nil, app_nil_l. by rewrite <-!app_assoc.
Qed.

Lemma span_app_stop p a b :
  Str.all (fun c => negb (p c)) a = true →
  (b = "" ∨ ∃ c b', b = String c b' ∧ p c = true) →
  Str.span p (a +:+ b) = (a, b).
Proof.
  intros Ha Hb. induction a as [|x a IH].
  - rewrite append_nil_l. destruct Hb as [->|(c & b' & -> & Hc)]; [done|].
    cbn [Str.span]. by rewrite Hc.
  - cbn [Str.all] in Ha. apply andb_true_iff in Ha as [Hx Ha].
    apply negb_true_iff in Hx. push_app. cbn [Str.span].
    by rewrite Hx, (IH Ha).
Qed.

(** A protocol-relative reference takes the scheme of the page and nothing
    else from it. *)
Lemma urljoin_protocol_relative page b host rest :
  urlparse page "" = Some b →
  scheme b ≠ "" → mem (scheme b) uses_relative = true →
  plain_host host = true → Str.all path_char rest = true →
  rest = "" ∨ Str.startswith rest "/" = true →
  urljoin page ("//" +:+ host +:+ rest)
  = Some (scheme b +:+ "://" +:+ host +:+ rest).
Proof.
  intros Hb Hs Hrel Hhost Hrest Hslash.
  unfold plain_host in Hhost. apply andb_true_iff in Hhost as [Hne Hhost].
  assert (∀ x, Str.contains x "/?#[]" = true → Str.contains x host = false)
    as Hnot.
  { intros x Hx. apply (all_not_contains host_char); [|done].
    unfold host_char. by rewrite Hx, andb_false_r. }
  assert (∀ x, Str.contains x "?#;" = true → Str.contains x rest = false)
    as Hno.
  { intros x Hx. apply (all_not_contains path_char); [|done].
    unfold path_char. by rewrite Hx, andb_false_r. }
  assert (urlparse ("//" +:+ host +:+ rest) (scheme b)
          = Some (Parsed (scheme b) host rest "" "" "")) as Hu.
  { unfold urlparse, urlsplit. rewrite (relative_scheme_clean _ Hrel).
    push_app. cbn [Str.lstrip]. change (c0_or_space "/") with false.
    cbv beta iota.
    assert (remove_unsafe (String "/" (String "/" (host +:+ rest)))
            = String "/" (String "/" (host +:+ rest))) as ->.
    { apply filter_all_id. cbn [Str.all].
      change (negb (unsafe_byte "/")) with true. cbn [andb].
      rewrite all_app_str. apply andb_true_iff. split.
      - revert Hhost. apply all_impl_str. intros x. unfold host_char.
        by intros [[_ ?]%andb_true_iff _]%andb_true_iff.
      - revert Hrest. apply all_impl_str. intros x. unfold path_char.
        by intros [? _]%andb_true_iff. }
    rewrite split_scheme_rooted. cbn [Str.startswith].
    change (Ascii.eqb "/" "/") with true. cbn [andb].
    unfold splitnetloc. cbn [Str.drop].
    rewrite (span_app_stop netloc_delim host rest).
    2: { revert Hhost. apply all_impl_str. intros x. unfold host_char.
         intros [_ Hx]%andb_true_iff. apply negb_true_iff in Hx.
         unfold netloc_delim. apply negb_true_iff.
         cbn [Str.contains] in Hx |- *.
         repeat (apply orb_false_iff in Hx as [? Hx]).
         repeat (apply orb_false_iff; split; [done|]). done. }
    2: { destruct Hslash as [->|Hslash]; [by left|]. right.
         destruct rest as [|c rest']; [done|]. exists c, rest'.
         split; [done|]. cbn [Str.startswith] in Hslash.
         apply andb_true_iff in Hslash as [<-%Ascii.eqb_eq _]. done. }
    unfold netloc_ok, bad_brackets.
    rewrite (Hnot "["%char eq_refl), (Hnot "]"%char eq_refl).
    cbn [andb orb negb mbind option_bind].
    rewrite (Hno "#"%char eq_refl), (Hno "?"%char eq_refl).
    assert (checknetloc host = true) as ->.
    { unfold checknetloc.
      assert (Str.all is_ascii host = true) as ->; [|by rewrite orb_true_r].
      revert Hhost. apply all_impl_str. intros x. unfold host_char.
      by intros [[? _]%andb_true_iff _]%andb_true_iff. }
    cbn [mbind option_bind].
    by rewrite (Hno ";"%char eq_refl), andb_false_r. }
  unfold urljoin. rewrite (urlparse_nonempty _ _ Hb Hs). push_app.
  cbn [Str.is_empty]. rewrite Hb. cbn [mbind option_bind].
  change (String "/" (String "/" (host +:+ rest)))
    with ("//" +:+ host +:+ rest).
  rewrite Hu.
  cbn [mbind option_bind scheme netloc path params query fragment].
  rewrite String.eqb_refl, Hrel, (uses_relative_netloc _ Hrel), Hne.
  cbn [negb orb andb]. f_equal.
  unfold urlunparse, urlunsplit.
  cbn [params path scheme netloc query fragment Str.is_empty].
  rewrite Hne. cbn [orb].
  assert ((if negb (Str.is_empty rest) && negb (Str.startswith rest "/")
           then "/" +:+ rest else rest) = rest) as ->.
  { destruct Hslash as [->| ->]; [done|]. by rewrite andb_false_r. }
  destruct (scheme b) as [|c s]; [done|]. cbn [Str.is_empty].
  rewrite ?app_assoc_str. by push_app.
Qed.

(** A root-relative reference keeps the scheme and the host of the page. *)
Lemma urljoin_root_relative page b p :
  urlparse page "" = Some b →
  scheme b ≠ "" → mem (scheme b) uses_relative = true →
  plain_path p = true →
  urljoin page ("/" +:+ p)
  = Some ((scheme b +:+ "://" +:+ netloc b) +:+ "/" +:+ p).
Proof.
  intros Hb Hs Hrel Hp. unfold plain_path in Hp.
  apply andb_true_iff in Hp as [[Hall Hstart]%andb_true_iff Hdots].
  apply negb_true_iff in Hstart.
  unfold urljoin. rewrite (urlparse_nonempty _ _ Hb Hs). push_app.
  cbn [Str.is_empty]. rewrite Hb. cbn [mbind option_bind].
  rewrite (urlparse_path_only (scheme b) (String "/" p) "/" Hrel eq_refl eq_refl);
    [|by cbn [Str.all]; rewrite Hall|apply split_scheme_rooted
     |by cbn [Str.startswith] in Hstart |- *; rewrite Hstart].
  cbn [mbind option_bind scheme netloc path params query fragment].
  rewrite String.eqb_refl, Hrel, (uses_relative_netloc _ Hrel).
  cbn [negb orb andb Str.is_empty Str.startswith].
  change (Ascii.eqb "/" "/") with true. cbn [andb].
  cbn [Str.split]. change (Ascii.eqb "/" "/") with true. cbv beta iota.
  assert (forallb (fun seg => negb (dot_segment seg))
            ("" :: Str.split "/" p) = true) as Hdots'.
  { cbn [forallb]. by rewrite Hdots. }
  rewrite (resolve_dots_plain _ [] Hdots'), app_nil_l.
  rewrite (last_plain_not_dot ("" :: Str.split "/" p) ltac:(discriminate)
             Hdots').
  rewrite join_rooted. push_app. cbn [or_else Str.is_empty].
  f_equal. exact (urlunparse_rooted (scheme b) (netloc b) p Hs Hrel Hstart).
Qed.

Lemma dot_segment_ok seg :
  dot_segment seg = true →
  (Str.all (fun c => path_char c && negb (c0_or_space c)
              && negb (Str.is_char ":" c)) seg = true
   ∧ Str.contains "/" seg = false) ∧ seg ≠ "".
Proof.
  unfold dot_segment, mem. cbn [existsb]. rewrite orb_false_r.
  intros [->%String.eqb_eq| ->%String.eqb_eq]%orb_true_iff; done.
Qed.

Lemma plain_name_ok seg :
  plain_name seg = true →
  (Str.all (fun c => path_char c && negb (c0_or_space c)
              && negb (Str.is_char ":" c)) seg = true
   ∧ Str.contains "/" seg = false) ∧ seg ≠ "".
Proof.
  unfold plain_name, dir_name.
  intros [[[Hne Hsl%negb_true_iff]%andb_true_iff _]%andb_true_iff Hall]
    %andb_true_iff.
  split; [done|]. by destruct seg.
Qed.

Lemma plain_name_dir seg : plain_name seg = true → dir_name seg = true.
Proof. unfold plain_name. by intros [? _]%andb_true_iff. Qed.

(** A document-relative reference: leading dot segments, directories and a
    name.  Every [..] gives up one directory of the page, as long as there
    is one. *)
Lemma urljoin_document_relative page b dirs ups subdirs name :
  urlparse page "" = Some b →
  scheme b ≠ "" → mem (scheme b) uses_relative = true →
  (path b = "" ∧ dirs = []
   ∨ ∃ last, path b = under dirs +:+ "/" +:+ last
             ∧ Str.contains "/" last = false) →
  forallb dir_name dirs = true →
  forallb dot_segment ups = true →
  forallb plain_name subdirs = true → plain_name name = true →
  urljoin page (Str.join "/" (ups ++ subdirs ++ [name]))
  = Some ((scheme b +:+ "://" +:+ netloc b)
          +:+ under (take (length dirs - count_up ups) dirs ++ subdirs)
          +:+ "/" +:+ name).
Proof.
  intros Hb Hs Hrel Hpath Hdirs Hups Hsub Hname.
  set (ok := fun s : string =>
               (Str.all (fun c => path_char c && negb (c0_or_space c)
                           && negb (Str.is_char ":" c)) s = true
                ∧ Str.contains "/" s = false) ∧ s ≠ "").
  assert (Forall ok ups) as Hokups.
  { apply Forall_forall. intros s Hin%list_elem_of_In.
    apply dot_segment_ok. by apply (proj1 (forallb_forall _ _) Hups). }
  assert (Forall ok subdirs) as Hoksub.
  { apply Forall_forall. intros s Hin%list_elem_of_In.
    apply plain_name_ok. by apply (proj1 (forallb_forall _ _) Hsub). }
  assert (ok name) as Hokname by by apply plain_name_ok.
  assert (Forall ok (subdirs ++ [name])) as Hoktail.
  { apply Forall_app. split; [done|]. by apply Forall_singleton. }
  assert (Forall ok (ups ++ subdirs ++ [name])) as Hoksegs.
  { by apply Forall_app. }
  assert (∀ l, l ≠ [] → Forall ok l →
            urlparse (Str.join "/" l) (scheme b)
            = Some (Parsed (scheme b) "" (Str.join "/" l) "" "" "")
            ∧ Str.is_empty (Str.join "/" l) = false
            ∧ Str.startswith (Str.join "/" l) "/" = false) as Hparse.
  { intros [|s0 l] Hne Hl; [done|].
    apply urlparse_segments; [done|..].
    - by apply Forall_cons in Hl as [[_ ?] _].
    - eapply Forall_impl; [exact Hl|]. by intros s [? _]. }
  destruct (Hparse (ups ++ subdirs ++ [name])) as (Hu & Hempty & Hstart);
    [by destruct ups, subdirs|done|].
  unfold urljoin. rewrite (urlparse_nonempty _ _ Hb Hs), Hempty.
  cbv beta iota. rewrite Hb. cbn [mbind option_bind]. rewrite Hu.
  cbn [mbind option_bind scheme netloc path params query fragment].
  rewrite String.eqb_refl, Hrel, (uses_relative_netloc _ Hrel), Hempty.
  cbn [negb orb andb Str.is_empty]. rewrite Hstart.
  rewrite split_join.
  2: { by destruct ups, subdirs. }
  2: { eapply Forall_impl; [exact Hoksegs|]. by intros s [[_ ?] _]. }
  assert (drop_inner_empties
            ((if Str.is_empty (List.last (Str.split "/" (path b)) "")
              then Str.split "/" (path b)
              else removelast (Str.split "/" (path b)))
             ++ ups ++ subdirs ++ [name])
          = "" :: dirs ++ ups ++ subdirs ++ [name]) as ->.
  { rewrite (app_assoc ups subdirs [name]).
    rewrite (segments_below dirs _ (ups ++ subdirs) name Hdirs).
    - by rewrite <-(app_assoc ups subdirs [name]).
    - apply Forall_app. split; (eapply Forall_impl; [eassumption|]);
        by intros s [_ ?].
    - destruct Hpath as [[-> ->]|(last & -> & Hlast)]; [by left|].
      rewrite (split_under _ _ Hdirs Hlast).
      change ("" :: dirs ++ [last]) with (("" :: dirs) ++ [last]).
      rewrite last_last, removelast_last.
      destruct last; [by right|by left]. }
  assert (forallb (fun seg => negb (dot_segment seg)) ("" :: dirs) = true)
    as Hplain_dirs.
  { cbn [forallb]. change (negb (dot_segment "")) with true. cbn [andb].
    apply forallb_forall. intros d Hd.
    apply (proj1 (forallb_forall _ _) Hdirs) in Hd. unfold dir_name in Hd.
    by apply andb_true_iff in Hd as [_ Hd]. }
  assert (forallb (fun seg => negb (dot_segment seg)) (subdirs ++ [name])
          = true) as Hplain_tail.
  { apply forallb_forall. intros d Hd%list_elem_of_In.
    assert (plain_name d = true) as Hpd.
    { apply elem_of_app in Hd as [Hd|Hd%list_elem_of_singleton].
      - apply (proj1 (forallb_forall _ _) Hsub). by apply list_elem_of_In.
      - by subst d. }
    apply plain_name_dir in Hpd. unfold dir_name in Hpd.
    by apply andb_true_iff in Hpd as [_ Hpd]. }
  assert (mem (List.last ("" :: dirs ++ ups ++ subdirs ++ [name]) "")
            ["."; ".."] = false) as ->.
  { assert ("" :: dirs ++ ups ++ subdirs ++ [name]
            = ("" :: dirs ++ ups ++ subdirs) ++ [name]) as ->.
    { cbn [app]. f_equal. by rewrite <-!app_assoc. }
    rewrite last_last. apply plain_name_dir in Hname. unfold dir_name in Hname.
    apply andb_true_iff in Hname as [_ Hname]. by apply negb_true_iff. }
  assert (resolve_dots ("" :: dirs ++ ups ++ subdirs ++ [name]) []
          = take (S (length dirs) - count_up ups) ("" :: dirs)
              ++ subdirs ++ [name]) as ->.
  { change ("" :: dirs ++ ups ++ subdirs ++ [name])
      with (("" :: dirs) ++ ups ++ subdirs ++ [name]).
    rewrite resolve_dots_app, (resolve_dots_plain _ [] Hplain_dirs), app_nil_l.
    rewrite (resolve_dots_ups _ _ _ Hups).
    by rewrite (resolve_dots_plain _ _ Hplain_tail). }
  f_equal.
  destruct (decide (count_up ups ≤ length dirs)) as [Hle|Hgt].
  - replace (S (length dirs) - count_up ups)
      with (S (length dirs - count_up ups)) by lia.
    cbn [take]. set (kept := take (length dirs - count_up ups) dirs).
    assert (forallb dir_name (kept ++ subdirs) = true) as Hkept.
    { rewrite forallb_app. apply andb_true_iff. split.
      - by apply forallb_take.
      - apply forallb_forall. intros d Hd. apply plain_name_dir.
        by apply (proj1 (forallb_forall _ _) Hsub). }
    assert (("" :: kept) ++ subdirs ++ [name]
            = "" :: (kept ++ subdirs) ++ [name]) as ->.
    { cbn [app]. f_equal. by rewrite <-!app_assoc. }
    rewrite join_under, append_nil_l.
    assert (Str.startswith name "/" = false) as Hnstart.
    { destruct (plain_name_ok _ Hname) as [[_ Hsl] Hne].
      destruct name as [|c name]; [done|].
      cbn [Str.startswith Str.contains] in Hsl |- *.
      apply orb_false_iff in Hsl as [Hc _]. by rewrite Ascii.eqb_sym, Hc. }
    destruct (under_rooted _ name Hkept Hnstart) as (p & Hp & Hpstart).
    rewrite Hp. push_app. cbn [or_else Str.is_empty].
    exact (urlunparse_rooted (scheme b) (netloc b) p Hs Hrel Hpstart).
  - replace (S (length dirs) - count_up ups) with 0 by lia.
    replace (length dirs - count_up ups) with 0 by lia.
    cbn [take app].
    destruct (Hparse (subdirs ++ [name])) as (_ & Hqe & Hqs);
      [by destruct subdirs|done|].
    pose proof (join_under "" subdirs name) as Hj.
    rewrite append_nil_l in Hj.
    assert (Str.join "/" ("" :: subdirs ++ [name])
            = "/" +:+ Str.join "/" (subdirs ++ [name])) as Hj'.
    { destruct (subdirs ++ [name]) eqn:Hl; [by destruct subdirs|].
      cbn [Str.join]. by rewrite append_nil_l. }
    rewrite Hj' in Hj. rewrite take_0, app_nil_l, <-Hj.
    unfold or_else. rewrite Hqe.
    rewrite urlunparse_path; [|done..|].
    + by rewrite Hqs.
    + destruct (Str.join "/" (subdirs ++ [name])) as [|x q]; [done|].
      cbn [Str.startswith] in Hqs |- *. by destruct (Ascii.eqb "/" x).
Qed.


(** X18. A root-relative reference resolves to the base URL of the
    extractor followed by the reference: for a page with a scheme of
    [uses_relative] (as http and https) and a path [p] without dot
    segments, [urljoin(self.url, "/" + p)] is [self.base_url + "/" + p]. *)
Theorem root_relative_reference (page : string) (b : parsed)
    (self : extractor) (p : string) :
  init page = Some self →
  urlparse page "" = Some b →
  scheme b ≠ "" → mem (scheme b) uses_relative = true →
  plain_path p = true →
  urljoin (url self) ("/" +:+ p) = Some (base_url self +:+ "/" +:+ p).
Proof.
  intros Hinit Hb Hs Hrel Hp. unfold init, get_base_url in Hinit.
  rewrite Hb in Hinit. cbn [mbind option_bind] in Hinit.
  injection Hinit as <-. cbn [url base_url].
  exact (urljoin_root_relative page b p Hb Hs Hrel Hp).
Qed.

(** X19. A one-name reference resolves into the directory of the page: for
    a page with a scheme of [uses_relative] whose path is empty or ends
    with a file name after the directories [dirs],
    [urljoin(self.url, name)] is the base URL of the extractor, the
    directories, and the name. *)
Theorem sibling_reference (page : string) (b : parsed) (self : extractor)
    (dirs : list string) (name : string) :
  init page = Some self →
  urlparse page "" = Some b →
  scheme b ≠ "" → mem (scheme b) uses_relative = true →
  (path b = "" ∧ dirs = []
   ∨ ∃ last, path b = under dirs +:+ "/" +:+ last
             ∧ Str.contains "/" last = false) →
  forallb dir_name dirs = true →
  plain_name name = true →
  urljoin (url self) name
  = Some (base_url self +:+ under dirs +:+ "/" +:+ name).
Proof.
  intros Hinit Hb Hs Hrel Hpath Hdirs Hname.
  unfold init, get_base_url in Hinit.
  rewrite Hb in Hinit. cbn [mbind option_bind] in Hinit.
  injection Hinit as <-. cbn [url base_url].
  pose proof (urljoin_document_relative page b dirs [] [] name Hb Hs Hrel
                Hpath Hdirs eq_refl eq_refl Hname) as Hj.
  unfold count_up in Hj. cbn [List.filter length app Str.join] in Hj.
  by rewrite Nat.sub_0_r, firstn_all, app_nil_r in Hj.
Qed.

(** C8. References are resolved against the page URL as RFC 3986 has it.
    Against the base [https://x.com/dir/page.html] the reference [/a.css]
    resolves to [https://x.com/a.css] and [b.css] to
    [https://x.com/dir/b.css].  A reference with its own scheme and host
    does not depend on the base's host or path: it comes back as it is, or,
    when it shares the base's scheme, re-assembled from its own components.
    Against a page with a scheme of [uses_relative] (as http and https): a
    protocol-relative reference [//host/path] takes the scheme of the page
    and keeps its own host and path; a root-relative reference [/path] keeps
    the scheme and host of the page and replaces its path; a
    document-relative reference made of leading dot segments, directories
    and a name is resolved in the directory of the page, every leading [..]
    giving up one directory as long as there is one and [.] none. *)
Theorem urljoin_resolution :
  urljoin "https://x.com/dir/page.html" "/a.css" = Some "https://x.com/a.css"
  ∧ urljoin "https://x.com/dir/page.html" "b.css"
    = Some "https://x.com/dir/b.css"
  ∧ (∀ base ref b u,
       base ≠ "" →
       urlparse base "" = Some b → urlparse ref "" = Some u →
       scheme u ≠ "" → netloc u ≠ "" →
       urljoin base ref
       = Some (if String.eqb (scheme u) (scheme b) && mem (scheme u) uses_relative
               then urlunparse u else ref))
  ∧ (∀ page b,
       urlparse page "" = Some b →
       scheme b ≠ "" → mem (scheme b) uses_relative = true →
       (∀ host rest,
          plain_host host = true → Str.all path_char rest = true →
          rest = "" ∨ Str.startswith rest "/" = true →
          urljoin page ("//" +:+ host +:+ rest)
          = Some (scheme b +:+ "://" +:+ host +:+ rest))
       ∧ (∀ p,
            plain_path p = true →
            urljoin page ("/" +:+ p)
            = Some ((scheme b +:+ "://" +:+ netloc b) +:+ "/" +:+ p))
       ∧ (∀ dirs ups subdirs name,
            (path b = "" ∧ dirs = []
             ∨ ∃ last, path b = under dirs +:+ "/" +:+ last
                       ∧ Str.contains "/" last = false) →
            forallb dir_name dirs = true →
            forallb dot_segment ups = true →
            forallb plain_name subdirs = true → plain_name name = true →
            urljoin page (Str.join "/" (ups ++ subdirs ++ [name]))
            = Some ((scheme b +:+ "://" +:+ netloc b)
                    +:+ under (take (length dirs - count_up ups) dirs
                               ++ subdirs)
                    +:+ "/" +:+ name))).
Proof.
  split; [by vm_compute|]. split; [by vm_compute|]. split.
  - intros base ref b u Hbase Hb Hu Hs Hn. unfold urljoin.
    destruct base as [|c base']; [done|]. cbn [Str.is_empty].
    destruct ref as [|c' ref'].
    { exfalso. apply Hs. revert Hu. clear. vm_compute. by intros [= <-]. }
    cbn [Str.is_empty]. rewrite Hb. cbn [mbind option_bind].
    rewrite (urlparse_explicit_scheme _ (scheme b) u Hu Hs).
    cbn [mbind option_bind].
    destruct (String.eqb (scheme u) (scheme b)); cbn [negb orb andb]; [|done].
    destruct (mem (scheme u) uses_relative) eqn:Hrel; cbn [negb orb andb];
      [|done].
    rewrite (uses_relative_netloc _ Hrel). cbn [negb orb andb].
    destruct (netloc u); [done|]. done.
  - intros page b Hb Hs Hrel. split; [|split].
    + intros host rest. by apply urljoin_protocol_relative.
    + intros p. by apply urljoin_root_relative.
    + intros dirs ups subdirs name. by apply urljoin_document_relative.
Qed.

End relative_references.

(** ** The further properties on example pages *)

Section more_examples.
#[local] Existing Instance no_bracketed_hosts.
#[local] Existing Instance elements_order.
Import Url.

Lemma add_url_same_path_witness :
  stripped_path "https://a.com/x/y.css" = stripped_path "https://b.org/x/y.css?v=2"
  ∧ add_url (add_url ∅ "https://a.com/x/y.css") "https://b.org/x/y.css?v=2"
    = add_url ∅ "https://b.org/x/y.css?v=2".
Proof.
  assert (stripped_path "https://a.com/x/y.css"
          = stripped_path "https://b.org/x/y.css?v=2") as Hsame
    by (vm_compute; reflexivity).
  split; [exact Hsame|].
  exact (add_url_same_path ∅ _ _ Hsame).
Defined.

Lemma add_url_leaf_witness :
  stripped_path "https://x.com/a/b.css" = Some "a/b.css"
  ∧ leaf_in (build_file_structure (["https://x.com/a"] ++ ["https://x.com/a/b.css"]))
      "https://x.com/a/b.css".
Proof.
  assert (stripped_path "https://x.com/a/b.css" = Some "a/b.css") as Hp
    by (vm_compute; reflexivity).
  split; [exact Hp|].
  exact (proj2 (add_url_leaf ∅ _ _ ["https://x.com/a"] Hp ltac:(discriminate))).
Defined.

Lemma add_url_frame_witness :
  add_url {[ "img" := Leaf "https://x.com/img" ]} "https://x.com/css/a.css" !! "img"
  = ({[ "img" := Leaf "https://x.com/img" ]} : gmap string node) !! "img".
Proof.
  apply (proj2 (add_url_frame {[ "img" := Leaf "https://x.com/img" ]}
                  "https://x.com/css/a.css" "img")).
  intros p Hp. assert (p = "css/a.css") as ->.
  { revert Hp. vm_compute. by intros [= <-]. }
  vm_compute. intros Hin.
  repeat (apply elem_of_cons in Hin as [Hin|Hin]; [discriminate Hin|]).
  by apply elem_of_nil in Hin.
Defined.

Lemma build_file_structure_keys_witness :
  key_in (build_file_structure ["https://x.com/css/a.css"]) "a.css"
  ∧ ∃ url p, url ∈ ["https://x.com/css/a.css"]
             ∧ stripped_path url = Some p ∧ p ≠ ""
             ∧ "a.css" ∈ Str.split "/"%char p.
Proof.
  assert (key_in (build_file_structure ["https://x.com/css/a.css"]) "a.css")
    as Hk.
  { eapply (key_below _ "css" {[ "a.css" := Leaf "https://x.com/css/a.css" ]});
      [vm_compute; reflexivity|].
    eapply key_here. vm_compute. reflexivity. }
  split; [exact Hk|].
  exact (build_file_structure_keys _ _ Hk).
Defined.

Lemma add_url_lookup_path_witness :
  stripped_path "https://x.com/css/a.css" = Some "css/a.css"
  ∧ clear_path (Str.split "/"%char "css/a.css")
      {[ "css" := Dir {[ "b.css" := Leaf "https://x.com/css/b.css" ]} ]}
  ∧ lookup_path (Str.split "/"%char "css/a.css")
      (add_url {[ "css" := Dir {[ "b.css" := Leaf "https://x.com/css/b.css" ]} ]}
         "https://x.com/css/a.css")
    = Some (Leaf "https://x.com/css/a.css").
Proof.
  assert (stripped_path "https://x.com/css/a.css" = Some "css/a.css") as Hp
    by (vm_compute; reflexivity).
  assert (clear_path (Str.split "/"%char "css/a.css")
            {[ "css" := Dir {[ "b.css" := Leaf "https://x.com/css/b.css" ]} ]})
    as Hclear by (vm_compute; exact I).
  split; [exact Hp|]. split; [exact Hclear|].
  exact (add_url_lookup_path _ _ _ Hp ltac:(discriminate) Hclear).
Defined.

Lemma extract_css_files_members_witness :
  extract_css_files (example_extractor font_link_doc)
  = Some ["https://x.com/dir/fonts/a.woff"]
  ∧ ((∃ link rel ref, link ∈ font_link_doc ∧ el_name link = "link"
        ∧ get link "rel" = Some rel ∧ "stylesheet" ∈ Str.split_ws rel
        ∧ get link "href" = Some ref ∧ ref ≠ ""
        ∧ Url.urljoin example_page ref = Some "https://x.com/dir/fonts/a.woff")
     ∨ (∃ style ref, style ∈ font_link_doc ∧ el_name style = "style"
          ∧ ref ∈ Re.findall Pat.import_re (style_content style)
          ∧ Url.urljoin example_page ref
            = Some "https://x.com/dir/fonts/a.woff")).
Proof.
  assert (extract_css_files (example_extractor font_link_doc)
          = Some ["https://x.com/dir/fonts/a.woff"]) as Hcss
    by (vm_compute; reflexivity).
  split; [exact Hcss|].
  exact (proj1 (extract_css_files_members (example_extractor font_link_doc)
                  font_link_doc _ "https://x.com/dir/fonts/a.woff" eq_refl Hcss)
           (list_elem_of_here _ _)).
Defined.

Lemma extract_js_files_members_witness :
  extract_js_files (example_extractor script_doc)
  = Some ["https://x.com/dir/js/app.js"]
  ∧ ∃ script ref, script ∈ script_doc ∧ el_name script = "script"
       ∧ get script "src" = Some ref ∧ ref ≠ ""
       ∧ Url.urljoin example_page ref = Some "https://x.com/dir/js/app.js".
Proof.
  assert (extract_js_files (example_extractor script_doc)
          = Some ["https://x.com/dir/js/app.js"]) as Hjs
    by (vm_compute; reflexivity).
  split; [exact Hjs|].
  exact (proj1 (extract_js_files_members (example_extractor script_doc)
                  script_doc _ "https://x.com/dir/js/app.js" eq_refl Hjs)
           (list_elem_of_here _ _)).
Defined.

Lemma extract_images_members_witness :
  extract_images (example_extractor srcset_doc)
  = Some ["https://cdn.x/c.PNG?x"; "https://x.com/f.JPG";
          "https://x.com/dir/a.png"; "https://x.com/dir/d.webp"]
  ∧ "https://x.com/dir/a.png"
    ∈ ["https://cdn.x/c.PNG?x"; "https://x.com/f.JPG";
       "https://x.com/dir/a.png"; "https://x.com/dir/d.webp"].
Proof.
  assert (extract_images (example_extractor srcset_doc)
          = Some ["https://cdn.x/c.PNG?x"; "https://x.com/f.JPG";
                  "https://x.com/dir/a.png"; "https://x.com/dir/d.webp"])
    as Himg by (vm_compute; reflexivity).
  split; [exact Himg|].
  apply (proj2 (extract_images_members (example_extractor srcset_doc)
                  srcset_doc _ "https://x.com/dir/a.png" eq_refl Himg)).
  left. exists (Element "img"
                  {[ "src" := "a.png";
                     "srcset" := "b.png 1x, https://cdn.x/c.PNG?x 2x" ]} None),
    "a.png".
  split; [apply list_elem_of_here|]. split; [reflexivity|].
  split; [vm_compute; reflexivity|]. split; [discriminate|].
  vm_compute. reflexivity.
Defined.

Lemma extract_other_files_members_witness :
  extract_other_files (example_extractor script_doc)
  = Some ["https://x.com/dir/v.mp4"; "https://x.com/dir/doc/Report.PDF"]
  ∧ "https://x.com/dir/doc/Report.PDF"
    ∈ ["https://x.com/dir/v.mp4"; "https://x.com/dir/doc/Report.PDF"].
Proof.
  assert (extract_other_files (example_extractor script_doc)
          = Some ["https://x.com/dir/v.mp4"; "https://x.com/dir/doc/Report.PDF"])
    as Hoth by (vm_compute; reflexivity).
  split; [exact Hoth|].
  apply (proj2 (extract_other_files_members (example_extractor script_doc)
                  script_doc _ "https://x.com/dir/doc/Report.PDF" eq_refl Hoth)).
  left. exists (Element "a" {[ "href" := "doc/Report.PDF" ]} None),
    "doc/Report.PDF".
  split; [apply list_elem_of_further, list_elem_of_here|].
  split; [reflexivity|]. split; [vm_compute; reflexivity|].
  split; [discriminate|]. split; vm_compute; reflexivity.
Defined.

Lemma extraction_raises_witness :
  soup (example_extractor bad_ref_doc) = Some bad_ref_doc
  ∧ extract_css_files (example_extractor bad_ref_doc) = None.
Proof.
  split; [reflexivity|].
  apply (proj2 (proj1 (extraction_raises (example_extractor bad_ref_doc)
                         bad_ref_doc eq_refl))).
  exists "//[bad/z.css". split; [|vm_compute; reflexivity].
  apply list_elem_of_In. vm_compute. left. reflexivity.
Defined.

Lemma extraction_returns_witness :
  soup (example_extractor srcset_doc) = Some srcset_doc
  ∧ has_bracket (url (example_extractor srcset_doc)) = false
  ∧ isascii (url (example_extractor srcset_doc)) = true
  ∧ is_Some (extract_images (example_extractor srcset_doc)).
Proof.
  assert (has_bracket (url (example_extractor srcset_doc)) = false) as Hurl
    by (vm_compute; reflexivity).
  assert (isascii (url (example_extractor srcset_doc)) = true) as Hascii
    by (vm_compute; reflexivity).
  assert (∀ ref, ref ∈ css_refs srcset_doc ++ js_refs srcset_doc
                       ++ image_refs srcset_doc ++ other_refs srcset_doc →
                 has_bracket ref = false ∧ isascii ref = true) as Hrefs.
  { apply Forall_forall. vm_compute. repeat constructor. }
  split; [reflexivity|]. split; [exact Hurl|]. split; [exact Hascii|].
  exact (proj1 (proj2 (proj2 (extraction_returns (example_extractor srcset_doc)
                                srcset_doc eq_refl Hurl Hascii Hrefs)))).
Defined.

Lemma guess_content_type_spec_witness :
  (".png", "image/png") ∈ extension_map
  ∧ Str.endswith (Str.lower "https://x.com/Logo.PNG") ".png" = true
  ∧ guess_content_type "https://x.com/Logo.PNG" = "image/png".
Proof.
  assert ((".png", "image/png") ∈ extension_map) as Hin
    by (apply list_elem_of_In; vm_compute; tauto).
  assert (Str.endswith (Str.lower "https://x.com/Logo.PNG") ".png" = true)
    as Hend by (vm_compute; reflexivity).
  split; [exact Hin|]. split; [exact Hend|].
  exact (proj1 (guess_content_type_spec "https://x.com/Logo.PNG") _ _ Hin Hend).
Defined.

Lemma filename_spec_witness :
  filename Images ("https://x.com/img" +:+ "/" +:+ "a.png" +:+ "?" +:+ "v=2")
  = or_else "a.png" (default_name Images)
  ∧ filename Images ("https://x.com/img" +:+ "/" +:+ "" +:+ "?" +:+ "v=2")
    = "image.jpg".
Proof.
  split.
  - exact (proj2 (proj2 (proj2 (proj2 (filename_spec Images "")))
                    "https://x.com/img" "a.png" "v=2" eq_refl eq_refl eq_refl)).
  - exact (proj2 (proj2 (proj2 (proj2 (filename_spec Images "")))
                    "https://x.com/img" "" "v=2" eq_refl eq_refl eq_refl)).
Defined.

Lemma urljoin_resolution_witness :
  Url.urlparse example_page ""
  = Some (Url.Parsed "https" "x.com" "/dir/page.html" "" "" "")
  ∧ Url.urlparse "HTTPS://Other.com/a/../b?" ""
    = Some (Url.Parsed "https" "Other.com" "/a/../b" "" "" "")
  ∧ Url.urljoin example_page "HTTPS://Other.com/a/../b?"
    = Some "https://Other.com/a/../b"
  ∧ Url.urljoin example_page "//cdn.x/lib/../a.js"
    = Some "https://cdn.x/lib/../a.js"
  ∧ Url.urljoin "https://x.com/a/b/c/page.html" "./../../img/logo.png"
    = Some "https://x.com/a/img/logo.png"
  ∧ Url.urljoin example_page "../../../top.css"
    = Some "https://x.com/top.css".
Proof.
  assert (Url.urlparse example_page ""
          = Some (Url.Parsed "https" "x.com" "/dir/page.html" "" "" "")) as Hb
    by (vm_compute; reflexivity).
  assert (Url.urlparse "HTTPS://Other.com/a/../b?" ""
          = Some (Url.Parsed "https" "Other.com" "/a/../b" "" "" "")) as Hu
    by (vm_compute; reflexivity).
  assert (Url.urlparse "https://x.com/a/b/c/page.html" ""
          = Some (Url.Parsed "https" "x.com" "/a/b/c/page.html" "" "" ""))
    as Hb' by (vm_compute; reflexivity).
  destruct urljoin_resolution as (_ & _ & Habs & Hrel).
  destruct (Hrel example_page _ Hb ltac:(discriminate) eq_refl)
    as (Hproto & _ & Hdoc).
  destruct (Hrel "https://x.com/a/b/c/page.html" _ Hb' ltac:(discriminate)
              eq_refl) as (_ & _ & Hdoc').
  split; [exact Hb|]. split; [exact Hu|]. split; [|split; [|split]].
  - rewrite (Habs example_page "HTTPS://Other.com/a/../b?" _ _
               ltac:(discriminate) Hb Hu ltac:(discriminate)
               ltac:(discriminate)).
    vm_compute. reflexivity.
  - exact (Hproto "cdn.x" "/lib/../a.js" eq_refl eq_refl
             (or_intror eq_refl)).
  - exact (Hdoc' ["a"; "b"; "c"] ["."; ".."; ".."] ["img"] "logo.png"
             (or_intror (ex_intro _ "page.html" (conj eq_refl eq_refl)))
             eq_refl eq_refl eq_refl eq_refl).
  - exact (Hdoc ["dir"] [".."; ".."; ".."] [] "top.css"
             (or_intror (ex_intro _ "page.html" (conj eq_refl eq_refl)))
             eq_refl eq_refl eq_refl eq_refl).
Defined.

Lemma root_relative_reference_witness :
  urljoin example_page "/css/a.css" = Some "https://x.com/css/a.css".
Proof.
  assert (init example_page
          = Some (Extractor example_page 30 None None "https://x.com"))
    as Hinit by (vm_compute; reflexivity).
  assert (urlparse example_page ""
          = Some (Parsed "https" "x.com" "/dir/page.html" "" "" "")) as Hb
    by (vm_compute; reflexivity).
  exact (root_relative_reference example_page _ _ "css/a.css" Hinit Hb
           ltac:(discriminate) eq_refl eq_refl).
Defined.

Lemma sibling_reference_witness :
  urljoin "https://x.com/a/b/page.html" "n.css"
  = Some "https://x.com/a/b/n.css".
Proof.
  assert (init "https://x.com/a/b/page.html"
          = Some (Extractor "https://x.com/a/b/page.html" 30 None None
                    "https://x.com"))
    as Hinit by (vm_compute; reflexivity).
  assert (urlparse "https://x.com/a/b/page.html" ""
          = Some (Parsed "https" "x.com" "/a/b/page.html" "" "" "")) as Hb
    by (vm_compute; reflexivity).
  exact (sibling_reference "https://x.com/a/b/page.html" _ _ ["a"; "b"] "n.css"
           Hinit Hb ltac:(discriminate) eq_refl
           (or_intror (ex_intro _ "page.html" (conj eq_refl eq_refl)))
           eq_refl eq_refl).
Defined.

End more_examples.

Section site_examples.
#[local] Existing Instance no_bracketed_hosts.
#[local] Existing Instance elements_order.
#[local] Existing Instance example_site.

Lemma analyze_website_ok_witness :
  ∃ r, analyze_website example_page () = (Ok r, ())
    ∧ r_summary r !! "total_images" = Some (length (r_images r))
    ∧ NoDup (r_images r)
    ∧ length (r_images r) = 4.
Proof.
  destruct (analyze_website example_page ()) as [[r|status] []] eqn:Hr.
  - exists r. split; [reflexivity|].
    destruct (analyze_website_ok _ _ _ _ Hr)
      as (_ & _ & _ & _ & Hnodup & _ & _ & _ & Himg & _).
    split; [exact Himg|]. split; [exact Hnodup|].
    apply (f_equal (fun x => match x.1 with
                             | Ok r => length (r_images r)
                             | HttpError _ => 0
                             end)) in Hr.
    vm_compute in Hr. symmetry. exact Hr.
  - exfalso.
    apply (f_equal (fun x => match x.1 with
                             | Ok _ => true
                             | HttpError _ => false
                             end)) in Hr.
    vm_compute in Hr. discriminate Hr.
Defined.

End site_examples.

Section flaky_examples.
#[local] Existing Instance no_bracketed_hosts.
#[local] Existing Instance elements_order.
#[local] Existing Instance flaky_site.

(** After a fetch that returned and one whose text the parser rejected, the
    extractor holds the rejected text beside the document of the first
    page. *)
Lemma reachable_invariant_witness :
  reachable example_page
    (Extractor example_page 30 (Some script_doc) (Some "<bad>")
       "https://x.com")
  ∧ html_parser "<bad>" = None
  ∧ is_Some (Some "<bad>")
  ∧ ∃ html, html_parser html = Some script_doc.
Proof.
  assert (reachable example_page
            (Extractor example_page 30 (Some script_doc) (Some "<bad>")
               "https://x.com")) as Hreach.
  { apply (reach_fetch example_page
             (Extractor example_page 30 (Some script_doc) (Some "<html>")
                "https://x.com") 1 (Raised ParserError) _ 2).
    - apply (reach_fetch example_page
               (Extractor example_page 30 None None "https://x.com") 0
               (Returned "<html>") _ 1).
      + apply reach_init. vm_compute. reflexivity.
      + reflexivity.
    - reflexivity. }
  split; [exact Hreach|]. split; [reflexivity|].
  exact (proj1 (proj2 (proj2 (proj2 (reachable_invariant _ _ Hreach))))
           script_doc eq_refl).
Defined.

(** The second request of the site gives status 500, and the site that
    does not answer status 503. *)
Lemma analyze_website_errors_witness :
  fst (analyze_website example_page 1) = HttpError 500
  ∧ fst (analyze_website (Net := silent_site) example_page ())
    = HttpError 503.
Proof.
  assert (init example_page
          = Some (Extractor example_page 30 None None "https://x.com"))
    as Hinit by (vm_compute; reflexivity).
  split.
  - apply (proj2 (proj1 (proj2 (analyze_website_errors example_page 1)))).
    exists (Extractor example_page 30 None None "https://x.com"),
      (Response "<bad>" (Some "text/html")), 2.
    split; [exact Hinit|]. split; reflexivity.
  - apply (proj2 (proj1 (analyze_website_errors (Net := silent_site)
                           example_page ()))).
    exists (Extractor example_page 30 None None "https://x.com"), Timeout, ().
    split; [exact Hinit|]. reflexivity.
Defined.

End flaky_examples.

Section archive_examples.
#[local] Existing Instance no_bracketed_hosts.
#[local] Existing Instance elements_order.
#[local] Existing Instance example_network.

Lemma write_archive_entries_witness :
  length (entries (write_archive "<html>" example_css_files [] [] [] ())) ≤ 81
  ∧ ∀ content,
      ("index.html", content)
      ∈ entries (write_archive "<html>" example_css_files [] [] [] ()) →
      content = "<html>".
Proof.
  destruct (write_archive_entries "<html>" example_css_files [] [] [] ())
    as (Hlen & _ & Hindex).
  split; [exact Hlen|exact Hindex].
Defined.

End archive_examples.
